(** * Maasai Watermark: the compositor and the batch orchestrator

    A shallow embedding of [utils/watermark.ts] (the compositor,
    [applyWatermarkToImage]) and of the state handling of [App.tsx]
    (settings persistence, debounced live preview, batch processing and
    download naming), with the properties the specification states about
    them.

    JavaScript numbers are IEEE 754 binary64 values; they are modelled
    by [spec_float] with precision 53 and exponent bound 1024, whose
    operations are the correctly rounded ones.  The 2D canvas is
    modelled as a recording surface: every [drawImage] call is logged
    with its arguments and with the drawing state (filter, alpha,
    shadow) in force when it is issued. *)

From Stdlib Require Import ZArith NArith List Bool Ascii String Lia DecimalString DecimalN.
From Stdlib Require Import Floats.SpecFloat.
From stdpp Require Import base option list strings gmap.
Import ListNotations.

Local Open Scope Z_scope.

(* ================================================================== *)
(** ** JavaScript numbers *)

Module Number.

Definition number : Type := spec_float.

Definition prec : Z := 53.
Definition emax : Z := 1024.

(** An integer as a number (exact below 2^53, rounded to nearest above). *)
Definition of_Z (z : Z) : number := binary_normalize prec emax z 0 false.
Definition of_N (n : N) : number := of_Z (Z.of_N n).

Definition add (a b : number) : number := SFadd prec emax a b.
Definition sub (a b : number) : number := SFsub prec emax a b.
Definition mul (a b : number) : number := SFmul prec emax a b.
Definition div (a b : number) : number := SFdiv prec emax a b.

(** [a < b] and [a === b]; both are false when an operand is NaN. *)
Definition lt (a b : number) : bool := SFltb a b.
Definition le (a b : number) : bool := SFleb a b.
Definition strict_eq (a b : number) : bool := SFeqb a b.
(** [a !== b] *)
Definition strict_neq (a b : number) : bool := negb (strict_eq a b).

Definition is_finite (a : number) : bool :=
  match a with
  | S754_zero _ | S754_finite _ _ _ => true
  | S754_infinity _ | S754_nan => false
  end.

(** The literals of the source.  A decimal literal denotes the double
    nearest to it, which is what the correctly rounded quotient of the
    two exact integers gives. *)
Definition zero : number := of_Z 0.
Definition one : number := of_Z 1.
Definition two : number := of_Z 2.
Definition hundred : number := of_Z 100.
Definition lit_1_5 : number := div (of_Z 3) (of_Z 2).
Definition lit_0_01 : number := div (of_Z 1) (of_Z 100).
Definition lit_0_003 : number := div (of_Z 3) (of_Z 1000).
Definition lit_0_95 : number := div (of_Z 95) (of_Z 100).

End Number.

Abbreviation number := Number.number.

Declare Scope js_scope.
Delimit Scope js_scope with js.
Bind Scope js_scope with Number.number.
Infix "+" := Number.add : js_scope.
Infix "-" := Number.sub : js_scope.
Infix "*" := Number.mul : js_scope.
Infix "/" := Number.div : js_scope.
Infix "<?" := Number.lt : js_scope.

(** [`${n}`] for a non-negative integer [n]. *)
Definition string_of_N (n : N) : string := NilEmpty.string_of_uint (N.to_uint n).

(* ================================================================== *)
(** ** The settings record ([types.ts]) *)

Inductive Position :=
| center | top_left | top_right | bottom_left | bottom_right | tiled.

Inductive OutputFormat := image_jpeg | image_png | image_webp.

Record WatermarkSettings := mkSettings {
  opacity : number;
  scale : number;
  position : Position;
  margin : number;
  outputFormat : OutputFormat;
  shadow : bool;
  brightness : number;
  contrast : number;
  saturation : number
}.

#[global] Instance Position_eq_dec : EqDecision Position.
Proof. solve_decision. Defined.
#[global] Instance OutputFormat_eq_dec : EqDecision OutputFormat.
Proof. solve_decision. Defined.

(* ================================================================== *)
(** ** The host: files, image decoding and the canvas *)

Record File := mkFile {
  name : string;
  contents : string
}.

Record HTMLImageElement := mkImage {
  src : string;
  width : N;
  height : N
}.

(** [ctx.filter]: ['none'], or the combined
    [brightness(b%) contrast(c%) saturate(s%)]. *)
Inductive CanvasFilter :=
| filter_none
| filter_bcs (b c s : number).

(** [ctx.shadowColor]: ['transparent'] (also the initial colour) or
    ['rgba(0, 0, 0, 0.6)']. *)
Inductive ShadowColor := transparent | black_60.

Record DrawState := mkDrawState {
  ctx_filter : CanvasFilter;
  globalAlpha : number;
  shadowColor : ShadowColor;
  shadowBlur : number;
  shadowOffsetX : number;
  shadowOffsetY : number
}.

Definition initialDrawState : DrawState :=
  mkDrawState filter_none Number.one transparent Number.zero Number.zero Number.zero.

(** One logged [drawImage] call: the image, the destination corner, the
    destination size when the five-argument form is used, and the
    drawing state of the context at the call. *)
Record DrawOp := mkDrawOp {
  op_image : HTMLImageElement;
  op_x : number;
  op_y : number;
  op_size : option (number * number);
  op_state : DrawState
}.

Record Canvas := mkCanvas {
  canvas_width : N;
  canvas_height : N;
  ctx : DrawState;
  drawn : list DrawOp
}.

(** [document.createElement('canvas')]: 300 x 150, nothing drawn. *)
Definition createCanvas : Canvas := mkCanvas 300 150 initialDrawState [].

(** What [canvas.toBlob] hands to its callback: the raster (its size and
    what was drawn on it) encoded in a format at a quality. *)
Record Blob := mkBlob {
  blob_width : N;
  blob_height : N;
  blob_drawn : list DrawOp;
  blob_type : OutputFormat;
  blob_quality : number
}.

(** [URL.createObjectURL blob] is a non-empty URL that stands for the
    blob; it is modelled by the blob itself. *)
Definition ObjectURL : Type := Blob.

(** The behaviour of the browser that the compositor observes. *)
Record Host := mkHost {
  (** [FileReader.readAsDataURL]: the data URL on [onload], [None] on
      [onerror]. *)
  fileReader : File -> option string;
  (** Setting [Image.src]: the decoded element's natural size on
      [onload], [None] on [onerror]. *)
  imageDecoder : string -> option (N * N);
  (** When both promises given to [Promise.all] reject, whether the
      first one (the source's) rejects first. *)
  readRace : File -> File -> bool;
  decodeRace : File -> File -> bool;
  (** Whether [canvas.getContext('2d')] returns a context during the
      call for this source file. *)
  getContext2d : File -> bool;
  (** Whether the encoder hands a blob (rather than [null]) to the
      callback of [toBlob]. *)
  toBlob : Canvas -> OutputFormat -> bool
}.

(* ================================================================== *)
(** ** Outcomes of asynchronous calls *)

(** A thrown value: an [Error] with its message, or anything else. *)
Inductive Thrown :=
| JSError (message : string)
| NonError.

(** A promise has resolved, has rejected, or has not settled within the
    number of loop iterations allowed ([Unsettled]: the run needs more
    fuel, or loops forever). *)
Inductive Outcome (A : Type) :=
| Resolved (a : A)
| Rejected (e : Thrown)
| Unsettled.
Arguments Resolved {A} a.
Arguments Rejected {A} e.
Arguments Unsettled {A}.

#[global] Instance Outcome_ret : MRet Outcome := fun A a => Resolved a.
#[global] Instance Outcome_bind : MBind Outcome := fun A B f m =>
  match m with
  | Resolved a => f a
  | Rejected e => Rejected e
  | Unsettled => Unsettled
  end.

(** [Promise.all [p; q]] for two settled promises: the pair of values,
    or the rejection that happened first. *)
Definition promise_all2 {A B} (first_rejects_first : bool)
    (p : Thrown + A) (q : Thrown + B) : Outcome (A * B) :=
  match p, q with
  | inr a, inr b => Resolved (a, b)
  | inl e, inr _ => Rejected e
  | inr _, inl e => Rejected e
  | inl e1, inl e2 => Rejected (if first_rejects_first then e1 else e2)
  end.

(** The message of a caught value, as [e.message] reads it. *)
Definition message_of (e : Thrown) : string :=
  match e with
  | JSError m => m
  | NonError => "undefined"
  end.

(* ================================================================== *)
(** ** Canvas commands *)

(** A command on the canvas: it returns a value and the canvas after
    it, or nothing when the iterations allowed are used up. *)
Definition Paint (A : Type) : Type := Canvas -> option (A * Canvas).

#[global] Instance Paint_ret : MRet Paint := fun A a c => Some (a, c).
#[global] Instance Paint_bind : MBind Paint := fun A B f m c =>
  match m c with
  | Some (a, c') => f a c'
  | None => None
  end.

Definition skip : Paint unit := mret tt.

Definition modify_ctx (f : DrawState -> DrawState) : Paint unit := fun c =>
  Some (tt, mkCanvas (canvas_width c) (canvas_height c) (f (ctx c)) (drawn c)).

(** [canvas.width = w; canvas.height = h]: resizing clears the bitmap
    and resets the context. *)
Definition set_size (w h : N) : Paint unit := fun _ =>
  Some (tt, mkCanvas w h initialDrawState []).

Definition set_filter (f : CanvasFilter) : Paint unit :=
  modify_ctx (fun s => mkDrawState f (globalAlpha s) (shadowColor s)
                         (shadowBlur s) (shadowOffsetX s) (shadowOffsetY s)).

(** The values [ctx.globalAlpha] accepts: the numbers from 0 to 1. *)
Definition valid_alpha (a : number) : bool :=
  Number.le Number.zero a && Number.le a Number.one.

(** [ctx.globalAlpha = a]: the context ignores an assignment of a value
    that is NaN, infinite or outside the range from 0 to 1. *)
Definition set_globalAlpha (a : number) : Paint unit :=
  modify_ctx (fun s => mkDrawState (ctx_filter s)
                         (if valid_alpha a then a else globalAlpha s)
                         (shadowColor s)
                         (shadowBlur s) (shadowOffsetX s) (shadowOffsetY s)).

Definition set_shadowColor (k : ShadowColor) : Paint unit :=
  modify_ctx (fun s => mkDrawState (ctx_filter s) (globalAlpha s) k
                         (shadowBlur s) (shadowOffsetX s) (shadowOffsetY s)).

Definition set_shadowBlur (b : number) : Paint unit :=
  modify_ctx (fun s => mkDrawState (ctx_filter s) (globalAlpha s) (shadowColor s)
                         b (shadowOffsetX s) (shadowOffsetY s)).

Definition set_shadowOffsetX (x : number) : Paint unit :=
  modify_ctx (fun s => mkDrawState (ctx_filter s) (globalAlpha s) (shadowColor s)
                         (shadowBlur s) x (shadowOffsetY s)).

Definition set_shadowOffsetY (y : number) : Paint unit :=
  modify_ctx (fun s => mkDrawState (ctx_filter s) (globalAlpha s) (shadowColor s)
                         (shadowBlur s) (shadowOffsetX s) y).

(** Reading [canvas.width] and [canvas.height]. *)
Definition get_canvas : Paint Canvas := fun c => Some (c, c).

Definition log_draw (op : DrawState -> DrawOp) : Paint unit := fun c =>
  Some (tt, mkCanvas (canvas_width c) (canvas_height c) (ctx c)
              (drawn c ++ [op (ctx c)])).

(** [ctx.drawImage(img, x, y)] *)
Definition drawImage (img : HTMLImageElement) (x y : number) : Paint unit :=
  log_draw (mkDrawOp img x y None).

(** [ctx.drawImage(img, x, y, w, h)] *)
Definition drawImageScaled (img : HTMLImageElement) (x y w h : number) : Paint unit :=
  log_draw (mkDrawOp img x y (Some (w, h))).

(** [for (let i = start; i < limit; i += step) body(i)], run for at
    most [fuel] tests of the condition. *)
Fixpoint for_lt (fuel : nat) (i limit step : number) (body : number -> Paint unit)
    : Paint unit :=
  match fuel with
  | O => fun _ => None
  | S fuel' =>
      if (i <? limit)%js
      then body i ;; for_lt fuel' (i + step)%js limit step body
      else skip
  end.

(* ================================================================== *)
(** ** The compositor ([utils/watermark.ts]) *)

(** The double quote character (code 34). *)
Definition quote_mark : string := String (ascii_of_nat 34) EmptyString.

Definition quoted (s : string) : string := quote_mark +:+ s +:+ quote_mark.

(** [readFileAsDataURL]: the data URL, or the reader's [Error]. *)
Definition readFileAsDataURL (host : Host) (file : File) : Thrown + string :=
  match fileReader host file with
  | Some url => inr url
  | None =>
      inl (JSError ("Failed to read file: " +:+ quoted (name file)
                    +:+ ". It may be locked or corrupted."))
  end.

(** [loadImage]; an absent or empty [fileName] selects the short message. *)
Definition loadImage (host : Host) (source : string) (fileName : string)
    : Thrown + HTMLImageElement :=
  match imageDecoder host source with
  | Some (w, h) => inr (mkImage source w h)
  | None =>
      inl (JSError (if decide (fileName = "")
                    then "Failed to load image data."
                    else "Failed to load image data for " +:+ quoted fileName
                         +:+ ". The file format might be unsupported or the file is corrupted."))
  end.

(** [p.catch(e => { throw new Error(prefix + e.message) })] *)
Definition rethrow_with {A} (prefix : string) (p : Thrown + A) : Thrown + A :=
  match p with
  | inl e => inl (JSError (prefix +:+ message_of e))
  | inr a => inr a
  end.

Definition MAX_DIMENSION : N := 16384.

Definition too_large_message (file : File) (img : HTMLImageElement) : string :=
  "Image " +:+ quoted (name file) +:+ " is too large ("
  +:+ string_of_N (width img) +:+ "x" +:+ string_of_N (height img)
  +:+ "). Max allowed dimension is " +:+ string_of_N MAX_DIMENSION +:+ "px.".

Definition invalid_dimensions_message (file : File) : string :=
  "Image " +:+ quoted (name file) +:+ " has invalid dimensions.".

Definition no_context_message : string :=
  "System memory low. Could not create drawing context.".

Definition encode_failed_message (file : File) : string :=
  "Failed to process " +:+ quoted (name file)
  +:+ ". The resulting image might be too large/complex.".

(** [settings.brightness !== 100 || settings.contrast !== 100 ||
    settings.saturation !== 100] *)
Definition enhancements_set (settings : WatermarkSettings) : bool :=
  Number.strict_neq (brightness settings) Number.hundred
  || Number.strict_neq (contrast settings) Number.hundred
  || Number.strict_neq (saturation settings) Number.hundred.

Definition logoWidth (img : HTMLImageElement) (settings : WatermarkSettings) : number :=
  (Number.of_N (width img) * scale settings / Number.hundred)%js.

Definition aspectRatio (logo : HTMLImageElement) : number :=
  (Number.of_N (height logo) / Number.of_N (width logo))%js.

Definition logoHeight (img logo : HTMLImageElement) (settings : WatermarkSettings) : number :=
  (logoWidth img settings * aspectRatio logo)%js.

Definition marginX (img : HTMLImageElement) (settings : WatermarkSettings) : number :=
  (Number.of_N (width img) * margin settings / Number.hundred)%js.

Definition marginY (img : HTMLImageElement) (settings : WatermarkSettings) : number :=
  (Number.of_N (height img) * margin settings / Number.hundred)%js.

(** Lines 57 to 70 of the source: size the canvas, draw the photo under
    the enhancement filter, reset the filter. *)
Definition paint_source (img : HTMLImageElement) (settings : WatermarkSettings)
    : Paint unit :=
  (* Set canvas dimensions to match original image *)
  set_size (width img) (height img) ;;
  (* Apply image enhancements *)
  (if enhancements_set settings
   then set_filter (filter_bcs (brightness settings) (contrast settings)
                      (saturation settings))
   else skip) ;;
  (* Draw original image with filters *)
  drawImage img Number.zero Number.zero ;;
  (* Reset filter so the watermark itself is not affected *)
  set_filter filter_none.

(** Lines 72 to 137 of the source: draw the watermark. *)
Definition paint_watermark (fuel : nat) (img logo : HTMLImageElement)
    (settings : WatermarkSettings) : Paint unit :=
  (* Configure watermark *)
  let logoWidth := logoWidth img settings in
  let aspectRatio := aspectRatio logo in
  let logoHeight := logoHeight img logo settings in
  set_globalAlpha (opacity settings / Number.hundred)%js ;;
  (if shadow settings
   then
     let shadowBase := Number.of_N (N.max (width img) (height img)) in
     set_shadowColor black_60 ;;
     set_shadowBlur (shadowBase * Number.lit_0_01)%js ;;
     set_shadowOffsetX (shadowBase * Number.lit_0_003)%js ;;
     set_shadowOffsetY (shadowBase * Number.lit_0_003)%js
   else
     set_shadowColor transparent ;;
     set_shadowBlur Number.zero ;;
     set_shadowOffsetX Number.zero ;;
     set_shadowOffsetY Number.zero) ;;
  let marginX := marginX img settings in
  let marginY := marginY img settings in
  canvas ← get_canvas ;
  let canvas_w := Number.of_N (canvas_width canvas) in
  let canvas_h := Number.of_N (canvas_height canvas) in
  (if decide (position settings = tiled)
   then
     let gap := (logoWidth * Number.lit_1_5)%js in
     for_lt fuel Number.zero (Number.of_N (width img)) gap (fun x =>
       for_lt fuel Number.zero (Number.of_N (height img)) (gap * aspectRatio)%js (fun y =>
         drawImageScaled logo x y logoWidth logoHeight))
   else
     let '(x, y) :=
       match position settings with
       | top_left => (marginX, marginY)
       | top_right => ((canvas_w - logoWidth - marginX)%js, marginY)
       | bottom_left => (marginX, (canvas_h - logoHeight - marginY)%js)
       | bottom_right =>
           ((canvas_w - logoWidth - marginX)%js, (canvas_h - logoHeight - marginY)%js)
       | center =>
           ((canvas_w - logoWidth) / Number.two, (canvas_h - logoHeight) / Number.two)%js
       | tiled => (Number.zero, Number.zero)
       end in
     drawImageScaled logo x y logoWidth logoHeight) ;;
  (* Reset styles *)
  set_globalAlpha Number.one ;;
  set_shadowColor transparent ;;
  set_shadowBlur Number.zero ;;
  set_shadowOffsetX Number.zero ;;
  set_shadowOffsetY Number.zero.

(** The statements of [applyWatermarkToImage] between the creation of
    the context and [toBlob]. *)
Definition paint (fuel : nat) (img logo : HTMLImageElement)
    (settings : WatermarkSettings) : Paint unit :=
  paint_source img settings ;; paint_watermark fuel img logo settings.

(** The same run with no colour filter set at all: the two statements
    that assign [ctx.filter] are left out. *)
Definition paint_unfiltered (fuel : nat) (img logo : HTMLImageElement)
    (settings : WatermarkSettings) : Paint unit :=
  set_size (width img) (height img) ;;
  drawImage img Number.zero Number.zero ;;
  paint_watermark fuel img logo settings.

(** [applyWatermarkToImage] from the validation of the decoded source
    on (lines 42 to 148 of the source), with the canvas statements as a
    parameter. *)
Definition composite_loaded
    (painter : nat -> HTMLImageElement -> HTMLImageElement -> WatermarkSettings -> Paint unit)
    (host : Host) (fuel : nat) (imageFile : File) (img logo : HTMLImageElement)
    (settings : WatermarkSettings) : Outcome ObjectURL :=
  (* Validate image dimensions to prevent browser crashes *)
  if (MAX_DIMENSION <? width img)%N || (MAX_DIMENSION <? height img)%N
  then Rejected (JSError (too_large_message imageFile img))
  else if (width img =? 0)%N || (height img =? 0)%N
  then Rejected (JSError (invalid_dimensions_message imageFile))
  else
    let canvas := createCanvas in
    if negb (getContext2d host imageFile)
    then Rejected (JSError no_context_message)
    else
      match painter fuel img logo settings canvas with
      | None => Unsettled
      | Some (_, canvas) =>
          (* Return as Blob URL *)
          if toBlob host canvas (outputFormat settings)
          then Resolved (mkBlob (canvas_width canvas) (canvas_height canvas)
                           (drawn canvas) (outputFormat settings) Number.lit_0_95)
          else Rejected (JSError (encode_failed_message imageFile))
      end.

(** The body of [applyWatermarkToImage].  The enclosing [try]/[catch]
    logs and rethrows, so a rejection passes through unchanged. *)
Definition composite
    (painter : nat -> HTMLImageElement -> HTMLImageElement -> WatermarkSettings -> Paint unit)
    (host : Host) (fuel : nat)
    (imageFile logoFile : File) (settings : WatermarkSettings) : Outcome ObjectURL :=
  (* Parallel file reading with specific error context *)
  '(imageSrc, logoSrc) ←
    promise_all2 (readRace host imageFile logoFile)
      (rethrow_with "Unable to read source image: " (readFileAsDataURL host imageFile))
      (rethrow_with "Unable to read logo file: " (readFileAsDataURL host logoFile)) ;
  (* Parallel image loading with specific error context *)
  '(img, logo) ←
    promise_all2 (decodeRace host imageFile logoFile)
      (loadImage host imageSrc (name imageFile))
      (loadImage host logoSrc (name logoFile)) ;
  composite_loaded painter host fuel imageFile img logo settings.

Definition applyWatermarkToImage : Host -> nat -> File -> File -> WatermarkSettings
    -> Outcome ObjectURL :=
  composite paint.

(** The same call with no colour filter set at all. *)
Definition applyWatermarkUnfiltered : Host -> nat -> File -> File -> WatermarkSettings
    -> Outcome ObjectURL :=
  composite paint_unfiltered.

(** *** A sample host and sample inputs *)

Module Sample.

Definition parse_N (s : string) : option N :=
  N.of_uint <$> NilEmpty.uint_of_string s.

(** Files whose contents start with ["!"] cannot be read.  Data of the
    form ["<width>x<height>"], in decimal, decodes to an image of that
    size; other data does not decode. *)
Definition host : Host := {|
  fileReader f :=
    match contents f with
    | String "!" _ => None
    | s => Some s
    end;
  imageDecoder s :=
    i ← String.index 0 "x" s ;
    w ← parse_N (String.substring 0 i s) ;
    h ← parse_N (String.substring (S i) (String.length s - S i) s) ;
    Some (w, h);
  readRace _ _ := true;
  decodeRace _ _ := true;
  getContext2d _ := true;
  toBlob _ _ := true
|}.

Definition photo : File := mkFile "beach.png" "800x400".
Definition second_photo : File := mkFile "hills.jpeg" "100x50".
Definition corrupt : File := mkFile "broken.jpg" "not an image".
Definition tall : File := mkFile "strip.svg" "0x20000".
Definition logo : File := mkFile "logo.svg" "200x100".
Definition flat_logo : File := mkFile "flat.svg" "0x100".

Definition defaults : WatermarkSettings :=
  mkSettings (Number.of_Z 80) (Number.of_Z 20) bottom_right (Number.of_Z 3)
    image_jpeg false Number.hundred Number.hundred Number.hundred.

Definition tiled_settings : WatermarkSettings :=
  mkSettings (Number.of_Z 80) (Number.of_Z 20) tiled (Number.of_Z 3)
    image_png true Number.hundred Number.hundred Number.hundred.

End Sample.

(* ================================================================== *)
(** ** Batch items and the application state ([types.ts], [App.tsx]) *)

Inductive Status := pending | processing | done | error.

#[global] Instance Status_eq_dec : EqDecision Status.
Proof. solve_decision. Defined.

(** [previewUrl] is [''] ([None]) until a run stores an object URL. *)
Record ProcessedImage := mkItem {
  id : string;
  originalFile : File;
  previewUrl : option ObjectURL;
  status : Status;
  errorMessage : option string
}.

Record Failure := mkFailure {
  failure_id : string;
  failure_name : string;
  failure_error : string
}.

Record BatchReport := mkReport {
  total : nat;
  success : nat;
  failures : list Failure
}.

Record AppState := mkApp {
  images : list ProcessedImage;
  logo : option File;
  logoPreview : option string;
  isProcessing : bool;
  showConfirmModal : bool;
  batchErrorResults : option BatchReport;
  settings : WatermarkSettings;
  activePreviewId : option string;
  previewResult : option ObjectURL;
  previewError : option string
}.

(** [!activePreviewId]: [null] and the empty string are falsy. *)
Definition no_id (o : option string) : bool :=
  match o with
  | None => true
  | Some s => bool_decide (s = "")
  end.

(** [handleImagesSelected]; [fresh] are the results of
    [crypto.randomUUID()], one per file. *)
Definition handleImagesSelected (fresh : list string) (files : list File)
    (app : AppState) : AppState :=
  let newImages :=
    map (fun '(uuid, file) => mkItem uuid file None pending None) (zip fresh files) in
  mkApp (images app ++ newImages) (logo app) (logoPreview app) (isProcessing app)
    (showConfirmModal app) (batchErrorResults app) (settings app)
    (match newImages with
     | first :: _ => if no_id (activePreviewId app) then Some (id first)
                     else activePreviewId app
     | [] => activePreviewId app
     end)
    (previewResult app) (previewError app).

Definition removeImage (target : string) (app : AppState) : AppState :=
  let active := bool_decide (activePreviewId app = Some target) in
  mkApp (List.filter (fun img => negb (bool_decide (id img = target))) (images app))
    (logo app) (logoPreview app) (isProcessing app)
    (showConfirmModal app) (batchErrorResults app) (settings app)
    (if active then None else activePreviewId app)
    (if active then None else previewResult app)
    (if active then None else previewError app).

Definition resetAll (app : AppState) : AppState :=
  mkApp [] None None (isProcessing app) (showConfirmModal app) None (settings app)
    None None None.

(** *** Batch processing *)

(** The callback given to [images.map] in [executeBatchProcessing]: it
    catches every rejection, so its promise resolves whenever the
    compositor settles. *)
Definition processItem (host : Host) (fuel : nat) (logoFile : File)
    (s : WatermarkSettings) (img : ProcessedImage) : Outcome ProcessedImage :=
  match applyWatermarkToImage host fuel (originalFile img) logoFile s with
  | Resolved url =>
      Resolved (mkItem (id img) (originalFile img) (Some url) done None)
  | Rejected e =>
      let msg := match e with
                 | JSError m => m
                 | NonError => "Processing failed due to unknown error."
                 end in
      Resolved (mkItem (id img) (originalFile img) (previewUrl img) error (Some msg))
  | Unsettled => Unsettled
  end.

(** [Promise.all]: the values in the order of the promises once all
    have resolved; a rejection as soon as there is one. *)
Fixpoint promise_all {A} (ps : list (Outcome A)) : Outcome (list A) :=
  match ps with
  | [] => Resolved []
  | p :: rest =>
      match p, promise_all rest with
      | Resolved a, Resolved l => Resolved (a :: l)
      | Rejected e, _ => Rejected e
      | _, Rejected e => Rejected e
      | _, _ => Unsettled
      end
  end.

(** [img.errorMessage || "Unknown Error"] *)
Definition error_or_unknown (m : option string) : string :=
  match m with
  | Some s => if decide (s = "") then "Unknown Error" else s
  | None => "Unknown Error"
  end.

Definition collect_failures (processed : list ProcessedImage) : list Failure :=
  map (fun img => mkFailure (id img) (name (originalFile img))
                    (error_or_unknown (errorMessage img)))
    (List.filter (fun img => bool_decide (status img = error)) processed).

(** What a run of [executeBatchProcessing] captured when it started:
    the [images], [logo] and [settings] of the render it was created in. *)
Record BatchRun := mkRun {
  run_images : list ProcessedImage;
  run_logo : File;
  run_settings : WatermarkSettings
}.

(** [executeBatchProcessing] up to its [await]: [None] when the guard
    returns at once. *)
Definition batch_start (app : AppState) : option (AppState * BatchRun) :=
  match logo app with
  | None => None
  | Some logoFile =>
      if bool_decide (length (images app) = 0%nat) then None
      else Some (mkApp (images app) (logo app) (logoPreview app) true false None
                   (settings app) (activePreviewId app) (previewResult app)
                   (previewError app),
                 mkRun (images app) logoFile (settings app))
  end.

Definition batch_processed (host : Host) (fuel : nat) (run : BatchRun)
    : Outcome (list ProcessedImage) :=
  promise_all (map (processItem host fuel (run_logo run) (run_settings run))
                 (run_images run)).

(** [executeBatchProcessing] after its [await], given the processed items. *)
Definition batch_finish (processed : list ProcessedImage) (app : AppState) : AppState :=
  let failures := collect_failures processed in
  let successCount := (length processed - length failures)%nat in
  mkApp processed (logo app) (logoPreview app) false (showConfirmModal app)
    (if bool_decide (0 < length failures)%nat
     then Some (mkReport (length processed) successCount failures)
     else batchErrorResults app)
    (settings app) (activePreviewId app) (previewResult app) (previewError app).

(** A whole run with nothing else happening during the [await]. *)
Definition executeBatchProcessing (host : Host) (fuel : nat) (app : AppState)
    : Outcome AppState :=
  match batch_start app with
  | None => Resolved app
  | Some (app', run) =>
      processed ← batch_processed host fuel run ;
      Resolved (batch_finish processed app')
  end.

(** *** Downloads *)

Record Download := mkDownload {
  delay_ms : nat;
  href : ObjectURL;
  download : string
}.

Definition extension (format : OutputFormat) : string :=
  let ext := "jpg" in
  if decide (format = image_png) then "png"
  else if decide (format = image_webp) then "webp"
  else ext.

(** [s.lastIndexOf(c)]: the index of the last [c], or [-1]. *)
Fixpoint lastIndexOf_from (c : ascii) (s : string) (i : Z) (found : Z) : Z :=
  match s with
  | EmptyString => found
  | String a rest => lastIndexOf_from c rest (i + 1) (if decide (a = c) then i else found)
  end.

Definition lastIndexOf (c : ascii) (s : string) : Z := lastIndexOf_from c s 0 (-1).

(** [s.substring(0, e)]: a negative [e] counts as 0, one beyond the end
    as the length. *)
Definition substring0 (e : Z) (s : string) : string :=
  String.substring 0 (Z.to_nat (Z.max 0 e)) s.

(** [a || b] on strings: the empty string is falsy. *)
Definition or_else (a b : string) : string := if decide (a = "") then b else a.

Definition originalName (fileName : string) : string :=
  or_else (substring0 (lastIndexOf "." fileName) fileName) fileName.

Definition download_name (format : OutputFormat) (fileName : string) : string :=
  "watermarked-" +:+ originalName fileName +:+ "." +:+ extension format.

(** The [forEach] that triggers the downloads: one per item that is
    ['done'] and has a URL, [index * 200] ms after the run. *)
Definition schedule_downloads (s : WatermarkSettings) (processed : list ProcessedImage)
    : list Download :=
  omap (fun '(index, img) =>
          match status img, previewUrl img with
          | done, Some url =>
              Some (mkDownload (index * 200)%nat url
                      (download_name (outputFormat s) (name (originalFile img))))
          | _, _ => None
          end)
    (imap (fun index img => (index, img)) processed).

(* ================================================================== *)
(** ** Settings persistence ([App.tsx], lines 19 to 48) *)

Definition defaultSettings : WatermarkSettings := {|
  opacity := Number.of_Z 80;
  scale := Number.of_Z 20;
  position := bottom_right;
  margin := Number.of_Z 3;
  outputFormat := image_jpeg;
  shadow := false;
  brightness := Number.of_Z 100;
  contrast := Number.of_Z 100;
  saturation := Number.of_Z 100
|}.

(** [localStorage]: its items, and whether reading and writing it is
    allowed (a disabled or full storage throws instead). *)
Record LocalStorage := mkStorage {
  items : gmap string string;
  readable : bool;
  writable : bool
}.

Definition settings_key : string := "maasai-watermark-settings".

(** What the [settings] state holds after the initialiser: a settings
    record, or whatever else the stored text parsed to (the source
    returns the parsed value unchecked). *)
Inductive StoredValue :=
| SettingsValue (s : WatermarkSettings)
| OtherValue (text : string).

(** [JSON.parse] ([None]: it throws) and [JSON.stringify]. *)
Record JSON := mkJSON {
  parse : string -> option StoredValue;
  stringify : WatermarkSettings -> string
}.

(** The initialiser of the [settings] state. *)
Definition loadSettings (json : JSON) (storage : LocalStorage) : StoredValue :=
  if readable storage then
    match items storage !! settings_key with
    | Some saved =>
        if decide (saved = "") then SettingsValue defaultSettings
        else match parse json saved with
             | Some value => value
             | None => SettingsValue defaultSettings
             end
    | None => SettingsValue defaultSettings
    end
  else SettingsValue defaultSettings.

(** [handleSaveSettings]: a failing [setItem] is logged and ignored. *)
Definition handleSaveSettings (json : JSON) (s : WatermarkSettings)
    (storage : LocalStorage) : LocalStorage :=
  if writable storage
  then mkStorage (<[settings_key := stringify json s]> (items storage))
         (readable storage) (writable storage)
  else storage.

(* ================================================================== *)
(** ** JSON for a settings record *)

(** What the JavaScript engine does outside the part of JSON that is
    written out below: the text of a number that is not a whole number
    below 10^21, and the result of [JSON.parse] ([None]: it throws) on a
    text that is not the one [JSON.stringify] writes for a settings
    record of whole numbers. *)
Record Engine := mkEngine {
  other_number_text : number -> string;
  parse_other : string -> option StoredValue
}.

(** [`${z}`] for an integer [z]. *)
Definition string_of_Z (z : Z) : string :=
  if z <? 0 then "-" +:+ string_of_N (Z.to_N (- z)) else string_of_N (Z.to_N z).

(** The integer a number is, if it is one (-0 is 0). *)
Definition to_integer (x : number) : option Z :=
  match x with
  | S754_zero _ => Some 0
  | S754_finite sign m e =>
      let magnitude :=
        if 0 <=? e then Some (Z.pos m * 2 ^ e)
        else if Z.pos m mod 2 ^ (- e) =? 0 then Some (Z.pos m / 2 ^ (- e))
        else None in
      (fun v => if (sign : bool) then - v else v) <$> magnitude
  | S754_infinity _ | S754_nan => None
  end.

(** [JSON.stringify] of a number: [null] for NaN and the infinities,
    the decimal digits for a whole number below 10^21. *)
Definition number_text (engine : Engine) (x : number) : string :=
  match x with
  | S754_nan | S754_infinity _ => "null"
  | _ =>
      match to_integer x with
      | Some z => if Z.abs z <? 10 ^ 21 then string_of_Z z
                  else other_number_text engine x
      | None => other_number_text engine x
      end
  end.

(** The string values of [types.ts]. *)
Definition position_text (p : Position) : string :=
  match p with
  | center => "center"
  | top_left => "top-left"
  | top_right => "top-right"
  | bottom_left => "bottom-left"
  | bottom_right => "bottom-right"
  | tiled => "tiled"
  end.

Definition format_text (f : OutputFormat) : string :=
  match f with
  | image_jpeg => "image/jpeg"
  | image_png => "image/png"
  | image_webp => "image/webp"
  end.

Definition boolean_text (b : bool) : string := if b then "true" else "false".

Definition key_text (key : string) : string := quoted key +:+ ":".

(** [JSON.stringify(settings)]: the keys in the order of the initial
    record, which the spread in [update] keeps; no white space. *)
Definition stringify_settings (engine : Engine) (s : WatermarkSettings) : string :=
  "{" +:+ key_text "opacity" +:+ number_text engine (opacity s)
  +:+ "," +:+ key_text "scale" +:+ number_text engine (scale s)
  +:+ "," +:+ key_text "position" +:+ quoted (position_text (position s))
  +:+ "," +:+ key_text "margin" +:+ number_text engine (margin s)
  +:+ "," +:+ key_text "outputFormat" +:+ quoted (format_text (outputFormat s))
  +:+ "," +:+ key_text "shadow" +:+ boolean_text (shadow s)
  +:+ "," +:+ key_text "brightness" +:+ number_text engine (brightness s)
  +:+ "," +:+ key_text "contrast" +:+ number_text engine (contrast s)
  +:+ "," +:+ key_text "saturation" +:+ number_text engine (saturation s)
  +:+ "}".

(** What follows [pre] in [s], if [s] starts with [pre]. *)
Fixpoint strip (pre s : string) : option string :=
  match pre with
  | EmptyString => Some s
  | String a pre' =>
      match s with
      | String b s' => if decide (a = b) then strip pre' s' else None
      | EmptyString => None
      end
  end.

(** A minus sign or a decimal digit. *)
Definition is_number_char (a : ascii) : bool :=
  bool_decide (a = "-"%char)
  || ((48 <=? N_of_ascii a)%N && (N_of_ascii a <=? 57)%N).

(** The longest run of number characters at the start of a text, and
    what follows it. *)
Fixpoint span_number (s : string) : string * string :=
  match s with
  | String a rest =>
      if is_number_char a
      then let '(run, after) := span_number rest in (String a run, after)
      else (EmptyString, s)
  | EmptyString => (EmptyString, EmptyString)
  end.

(** The whole number a JSON number without fraction and exponent
    denotes: [-0] and digits with a leading zero are left out (the
    first is the number -0, the second is not JSON). *)
Definition whole_of_text (text : string) : option Z :=
  let magnitude digits := N.of_uint <$> NilEmpty.uint_of_string digits in
  z ← match text with
      | String "-" digits => (fun n => - Z.of_N n) <$> magnitude digits
      | _ => Z.of_N <$> magnitude text
      end ;
  if decide (string_of_Z z = text) then Some z else None.

(** Reading a whole number at the start of a text. *)
Definition read_whole (s : string) : option (number * string) :=
  let '(text, rest) := span_number s in
  z ← whole_of_text text ;
  Some (Number.of_Z z, rest).

(** Reading one of a list of texts at the start of a text. *)
Fixpoint read_choice {A} (choices : list (string * A)) (s : string)
    : option (A * string) :=
  match choices with
  | [] => None
  | (text, a) :: more =>
      match strip text s with
      | Some rest => Some (a, rest)
      | None => read_choice more s
      end
  end.

Definition position_choices : list (string * Position) :=
  map (fun p => (quoted (position_text p), p))
    [center; top_left; top_right; bottom_left; bottom_right; tiled].

Definition format_choices : list (string * OutputFormat) :=
  map (fun f => (quoted (format_text f), f)) [image_jpeg; image_png; image_webp].

Definition boolean_choices : list (string * bool) :=
  map (fun b => (boolean_text b, b)) [true; false].

(** [JSON.parse] on the texts [stringify_settings] writes for whole
    numbers: the record written. *)
Definition parse_settings (text : string) : option WatermarkSettings :=
  rest ← strip "{" text ;
  rest ← strip (key_text "opacity") rest ;
  '(opacity, rest) ← read_whole rest ;
  rest ← strip "," rest ;
  rest ← strip (key_text "scale") rest ;
  '(scale, rest) ← read_whole rest ;
  rest ← strip "," rest ;
  rest ← strip (key_text "position") rest ;
  '(position, rest) ← read_choice position_choices rest ;
  rest ← strip "," rest ;
  rest ← strip (key_text "margin") rest ;
  '(margin, rest) ← read_whole rest ;
  rest ← strip "," rest ;
  rest ← strip (key_text "outputFormat") rest ;
  '(outputFormat, rest) ← read_choice format_choices rest ;
  rest ← strip "," rest ;
  rest ← strip (key_text "shadow") rest ;
  '(shadow, rest) ← read_choice boolean_choices rest ;
  rest ← strip "," rest ;
  rest ← strip (key_text "brightness") rest ;
  '(brightness, rest) ← read_whole rest ;
  rest ← strip "," rest ;
  rest ← strip (key_text "contrast") rest ;
  '(contrast, rest) ← read_whole rest ;
  rest ← strip "," rest ;
  rest ← strip (key_text "saturation") rest ;
  '(saturation, rest) ← read_whole rest ;
  rest ← strip "}" rest ;
  if decide (rest = "") then
    Some (mkSettings opacity scale position margin outputFormat shadow
            brightness contrast saturation)
  else None.

(** [JSON] in a JavaScript engine. *)
Definition JSON_of (engine : Engine) : JSON := {|
  parse text :=
    match parse_settings text with
    | Some s => Some (SettingsValue s)
    | None => parse_other engine text
    end;
  stringify := stringify_settings engine
|}.



(* ================================================================== *)
(** ** The debounced live preview ([App.tsx], lines 83 to 111) *)

Module Preview.

(** The dependencies of the effect. *)
Record Deps := mkDeps {
  dep_settings : WatermarkSettings;
  dep_activePreviewId : option string;
  dep_logo : option File;
  dep_images : list ProcessedImage
}.

(** What a [generatePreview] closure captured. *)
Record Request := mkRequest {
  req_file : File;
  req_logo : File;
  req_settings : WatermarkSettings
}.

(** Time is counted in milliseconds.  [timer] is the pending timeout
    with the time it is due; [in_flight] are the [generatePreview] calls
    awaiting the compositor; [invocations] logs every compositor call
    made, oldest first. *)
Record State := mkState {
  now : nat;
  timer : option (nat * Request);
  in_flight : list Request;
  invocations : list Request;
  previewResult : option ObjectURL;
  previewError : option string
}.

Definition initial : State := mkState 0 None [] [] None None.

Definition debounce_ms : nat := 200.

(** The request the effect would schedule for these dependencies. *)
Definition request_of (d : Deps) : option Request :=
  if no_id (dep_activePreviewId d) then None
  else match dep_logo d with
       | None => None
       | Some logoFile =>
           match List.find (fun img => bool_decide (Some (id img) = dep_activePreviewId d))
                   (dep_images d) with
           | Some imageToPreview =>
               Some (mkRequest (originalFile imageToPreview) logoFile (dep_settings d))
           | None => None
           end
       end.

(** A change of a dependency: the cleanup of the previous run of the
    effect clears its timeout, then the effect runs again. *)
Definition change (d : Deps) (st : State) : State :=
  let cleared := mkState (now st) None (in_flight st) (invocations st)
                   (previewResult st) (previewError st) in
  if no_id (dep_activePreviewId d) || bool_decide (dep_logo d = None)
  then mkState (now st) None (in_flight st) (invocations st) None None
  else match request_of d with
       | None => cleared
       | Some r =>
           mkState (now st) (Some ((now st + debounce_ms)%nat, r)) (in_flight st)
             (invocations st) (previewResult st) (previewError st)
       end.

(** [generatePreview] up to its [await]: the error is cleared and the
    compositor is called. *)
Definition generatePreview (r : Request) (st : State) : State :=
  mkState (now st) None (in_flight st ++ [r]) (invocations st ++ [r])
    (previewResult st) None.

(** [dt] milliseconds pass; a timeout that falls due fires. *)
Definition elapse (dt : nat) (st : State) : State :=
  let later := mkState (now st + dt)%nat (timer st) (in_flight st) (invocations st)
                 (previewResult st) (previewError st) in
  match timer st with
  | Some (due, r) =>
      if bool_decide (due <= now st + dt)%nat then generatePreview r later
      else later
  | None => later
  end.

(** The compositor call of the [i]-th request in flight settles:
    [generatePreview] resumes after its [await]. *)
Definition settle (host : Host) (fuel : nat) (i : nat) (st : State) : State :=
  match in_flight st !! i with
  | None => st
  | Some r =>
      match applyWatermarkToImage host fuel (req_file r) (req_logo r) (req_settings r) with
      | Resolved url =>
          mkState (now st) (timer st) (delete i (in_flight st)) (invocations st)
            (Some url) (previewError st)
      | Rejected e =>
          mkState (now st) (timer st) (delete i (in_flight st)) (invocations st)
            None
            (Some match e with
                  | JSError m => m
                  | NonError => "Failed to generate preview"
                  end)
      | Unsettled => st
      end
  end.



(** The timeout a change has just set: due one quiet period from now. *)
Definition fresh_timer (d : Deps) (st : State) : option (nat * Request) :=
  match request_of d with
  | Some r => Some ((now st + debounce_ms)%nat, r)
  | None => None
  end.

End Preview.

(* ================================================================== *)
(** ** The life of a batch item *)

Module Lifecycle.

(** The application state together with the batch runs that are
    awaiting their compositor results. *)
Record World := mkWorld {
  app : AppState;
  running : list BatchRun
}.

Definition startup (s : WatermarkSettings) : World :=
  mkWorld (mkApp [] None None false false None s None None None) [].

Definition ids (l : list ProcessedImage) : list string := map id l.

(** One handler of [App.tsx] runs.  [crypto.randomUUID] returns
    identifiers that are new and pairwise distinct. *)
Inductive Step (host : Host) : World -> World -> Prop :=
| step_upload fresh files w :
    NoDup fresh ->
    (forall u, u ∈ fresh -> u ∉ ids (images (app w))) ->
    Step host w (mkWorld (handleImagesSelected fresh files (app w)) (running w))
| step_remove target w :
    Step host w (mkWorld (removeImage target (app w)) (running w))
| step_reset w :
    Step host w (mkWorld (resetAll (app w)) (running w))
| step_batch_start w app' run :
    batch_start (app w) = Some (app', run) ->
    Step host w (mkWorld app' (run :: running w))
| step_batch_finish fuel w i run processed :
    running w !! i = Some run ->
    batch_processed host fuel run = Resolved processed ->
    Step host w (mkWorld (batch_finish processed (app w))
                   (delete i (running w)))
| step_other w app' :
    (* logo selection, settings, preview and modal handlers *)
    images app' = images (app w) ->
    Step host w (mkWorld app' (running w)).

Inductive Reachable (host : Host) : World -> Prop :=
| reach_startup s : Reachable host (startup s)
| reach_step w w' : Reachable host w -> Step host w w' -> Reachable host w'.

Definition no_processing (l : list ProcessedImage) : Prop :=
  Forall (fun item => status item <> processing) l.

(** What holds in every reachable world: identifiers are unique, in the
    state and in every run awaiting its results, and no item is in
    status ['processing']. *)
Definition Invariant (w : World) : Prop :=
  NoDup (ids (images (app w)))
  /\ no_processing (images (app w))
  /\ Forall (fun run => NoDup (ids (run_images run))
                        /\ no_processing (run_images run)) (running w).

End Lifecycle.

(* ================================================================== *)
(** ** Further handlers ([App.tsx], [WatermarkControls.tsx]) *)

(** [handleLogoSelected]: the first file becomes the logo at once, its
    preview once the file is read.  The read is awaited without a
    [catch]: when it fails the handler's promise rejects with the
    reader's error and the preview is left as it was. *)
Definition handleLogoSelected (host : Host) (files : list File) (app : AppState)
    : AppState * option Thrown :=
  match files with
  | [] => (app, None)
  | file :: _ =>
      let withLogo :=
        mkApp (images app) (Some file) (logoPreview app) (isProcessing app)
          (showConfirmModal app) (batchErrorResults app) (settings app)
          (activePreviewId app) (previewResult app) (previewError app) in
      match readFileAsDataURL host file with
      | inr url =>
          (mkApp (images app) (Some file) (Some url) (isProcessing app)
             (showConfirmModal app) (batchErrorResults app) (settings app)
             (activePreviewId app) (previewResult app) (previewError app), None)
      | inl e => (withLogo, Some e)
      end
  end.

(** [setShowConfirmModal(value)] *)
Definition setShowConfirmModal (value : bool) (app : AppState) : AppState :=
  mkApp (images app) (logo app) (logoPreview app) (isProcessing app) value
    (batchErrorResults app) (settings app) (activePreviewId app)
    (previewResult app) (previewError app).

(** [handleProcessClick]: nothing without a logo or without images; a
    confirmation for more than 10 images; the batch run otherwise. *)
Definition handleProcessClick (host : Host) (fuel : nat) (app : AppState)
    : Outcome AppState :=
  match logo app with
  | None => Resolved app
  | Some _ =>
      if bool_decide (length (images app) = 0%nat) then Resolved app
      else if bool_decide (10 < length (images app))%nat
      then Resolved (setShowConfirmModal true app)
      else executeBatchProcessing host fuel app
  end.

(** The calls [update(key, value)] that the controls make, one per key
    of the settings. *)
Inductive SettingsChange :=
| set_opacity (v : number)
| set_scale (v : number)
| set_position (p : Position)
| set_margin (v : number)
| set_outputFormat (f : OutputFormat)
| set_shadow (b : bool)
| set_brightness (v : number)
| set_contrast (v : number)
| set_saturation (v : number).

(** [update]: [onChange({ ...settings, [key]: value })]. *)
Definition update (c : SettingsChange) (s : WatermarkSettings) : WatermarkSettings :=
  match c with
  | set_opacity v =>
      mkSettings v (scale s) (position s) (margin s) (outputFormat s) (shadow s)
        (brightness s) (contrast s) (saturation s)
  | set_scale v =>
      mkSettings (opacity s) v (position s) (margin s) (outputFormat s) (shadow s)
        (brightness s) (contrast s) (saturation s)
  | set_position p =>
      mkSettings (opacity s) (scale s) p (margin s) (outputFormat s) (shadow s)
        (brightness s) (contrast s) (saturation s)
  | set_margin v =>
      mkSettings (opacity s) (scale s) (position s) v (outputFormat s) (shadow s)
        (brightness s) (contrast s) (saturation s)
  | set_outputFormat f =>
      mkSettings (opacity s) (scale s) (position s) (margin s) f (shadow s)
        (brightness s) (contrast s) (saturation s)
  | set_shadow b =>
      mkSettings (opacity s) (scale s) (position s) (margin s) (outputFormat s) b
        (brightness s) (contrast s) (saturation s)
  | set_brightness v =>
      mkSettings (opacity s) (scale s) (position s) (margin s) (outputFormat s)
        (shadow s) v (contrast s) (saturation s)
  | set_contrast v =>
      mkSettings (opacity s) (scale s) (position s) (margin s) (outputFormat s)
        (shadow s) (brightness s) v (saturation s)
  | set_saturation v =>
      mkSettings (opacity s) (scale s) (position s) (margin s) (outputFormat s)
        (shadow s) (brightness s) (contrast s) v
  end.

(** [resetEnhancements] *)
Definition resetEnhancements (s : WatermarkSettings) : WatermarkSettings :=
  mkSettings (opacity s) (scale s) (position s) (margin s) (outputFormat s)
    (shadow s) (Number.of_Z 100) (Number.of_Z 100) (Number.of_Z 100).

(** [ImageUploader]: what [handleDrop] and the input's [onChange] do
    with the files of the event ([None]: the event carries no file
    list): the callback runs only for a list that is not empty. *)
Definition deliver_files {S : Type} (onFilesSelected : list File -> S -> S)
    (files : option (list File)) (state : S) : S :=
  match files with
  | Some (file :: rest) => onFilesSelected (file :: rest) state
  | _ => state
  end.

(** The dependencies of the preview effect in a state of the
    application. *)
Definition preview_deps (app : AppState) : Preview.Deps :=
  Preview.mkDeps (settings app) (activePreviewId app) (logo app) (images app).

(* ================================================================== *)
(** ** The preview pane ([App.tsx], lines 376 to 410) *)

Inductive PreviewPane :=
| pane_uploader
| pane_failed (message : string)
| pane_result (url : ObjectURL)
| pane_generating
| pane_select.

(** What the pane shows: the uploader while there are no images; else
    the error if there is one, else the result if there is one, else
    the spinner, all three for a previewed item only; else the hint to
    select an image. *)
Definition preview_pane (images : list ProcessedImage) (activePreviewId : option string)
    (previewResult : option ObjectURL) (previewError : option string) : PreviewPane :=
  if bool_decide (length images = 0%nat) then pane_uploader
  else if no_id activePreviewId then pane_select
  else
    match previewError, previewResult with
    | Some message, Some url =>
        if bool_decide (message = "") then pane_result url else pane_failed message
    | Some message, None =>
        if bool_decide (message = "") then pane_generating else pane_failed message
    | None, Some url => pane_result url
    | None, None => pane_generating
    end.

(* ================================================================== *)
(** ** A sample application state *)

Module SampleApp.

Definition first_item : ProcessedImage :=
  mkItem "item-1" Sample.photo None pending None.
Definition broken_item : ProcessedImage :=
  mkItem "item-2" Sample.corrupt None pending None.
Definition last_item : ProcessedImage :=
  mkItem "item-3" Sample.second_photo None pending None.

(** Three photos selected, the second one corrupt, and a logo. *)
Definition app : AppState :=
  mkApp [first_item; broken_item; last_item] (Some Sample.logo) (Some "200x100")
    false false None Sample.defaults (Some "item-1") None None.

Definition empty_storage : LocalStorage := mkStorage ∅ true true.

(** The default settings with the logo in the centre. *)
Definition centred : WatermarkSettings :=
  mkSettings (Number.of_Z 80) (Number.of_Z 20) center (Number.of_Z 3)
    image_jpeg false Number.hundred Number.hundred Number.hundred.

(** The dependencies of the preview effect in the sample state, for
    given settings. *)
Definition deps (s : WatermarkSettings) : Preview.Deps :=
  Preview.mkDeps s (Some "item-1") (Some Sample.logo) (images app).

Definition request (s : WatermarkSettings) : Preview.Request :=
  Preview.mkRequest Sample.photo Sample.logo s.

(** What the compositor resolves with for the first photo, if it does. *)
Definition preview_url (s : WatermarkSettings) : ObjectURL :=
  match applyWatermarkToImage Sample.host 0 Sample.photo Sample.logo s with
  | Resolved url => url
  | _ => mkBlob 0 0 [] image_jpeg Number.zero
  end.

End SampleApp.

(* ================================================================== *)
(** ** Further sample values *)

Module SampleMore.

(** What the compositor resolves with, if it does. *)
Definition url_of (fuel : nat) (imageFile logoFile : File) (s : WatermarkSettings)
    : ObjectURL :=
  match applyWatermarkToImage Sample.host fuel imageFile logoFile s with
  | Resolved url => url
  | _ => mkBlob 0 0 [] image_jpeg Number.zero
  end.

Definition tiled_url : ObjectURL :=
  url_of 5 Sample.second_photo Sample.logo Sample.tiled_settings.

(** A logo of height 0, and a logo file that cannot be read. *)
Definition thin_logo : File := mkFile "line.svg" "100x0".
Definition locked_logo : File := mkFile "locked.png" "!".

(** The sample state after a batch run, if the run completes. *)
Definition after_run : AppState :=
  match executeBatchProcessing Sample.host 0 SampleApp.app with
  | Resolved app' => app'
  | _ => SampleApp.app
  end.

End SampleMore.

(* ================================================================== *)
(** ** Sample values for the controls *)

Module SampleControls.

(** The default settings after the brightness slider is moved to 120. *)
Definition brightened : WatermarkSettings :=
  update (set_brightness (Number.of_Z 120)) Sample.defaults.

Definition plain_url : ObjectURL :=
  SampleMore.url_of 0 Sample.photo Sample.logo Sample.defaults.

Definition brightened_url : ObjectURL :=
  SampleMore.url_of 0 Sample.photo Sample.logo brightened.

(** Settings away from the defaults in every field. *)
Definition custom : WatermarkSettings :=
  mkSettings (Number.of_Z 55) (Number.of_Z 35) tiled (Number.of_Z 0)
    image_webp true (Number.of_Z 120) (Number.of_Z 90) (Number.of_Z 0).

End SampleControls.

(* ================================================================== *)
(** ** Notions used to state the properties *)

(** The element a file decodes to when it can be read and decoded. *)
Definition decoded (host : Host) (file : File) : option HTMLImageElement :=
  source ← fileReader host file ;
  '(w, h) ← imageDecoder host source ;
  Some (mkImage source w h).

(** The placement table of the specification: the top-left corner of
    the logo for a source of size [W] x [H], a logo drawn at [dw] x [dh]
    and a margin of [m] percent. *)
Definition placement (p : Position) (W H dw dh m : number) : number * number :=
  match p with
  | top_left => (W * m / Number.hundred, H * m / Number.hundred)%js
  | top_right => (W - dw - W * m / Number.hundred, H * m / Number.hundred)%js
  | bottom_left => (W * m / Number.hundred, H - dh - H * m / Number.hundred)%js
  | bottom_right =>
      (W - dw - W * m / Number.hundred, H - dh - H * m / Number.hundred)%js
  | center => ((W - dw) / Number.two, (H - dh) / Number.two)%js
  | tiled => (Number.zero, Number.zero)
  end.

(** The first [n] positions reached from [start] in steps of [step]. *)
Fixpoint steps (n : nat) (start step : number) : list number :=
  match n with
  | O => []
  | S n' => start :: steps n' (start + step)%js step
  end.

(** Stepping from [start], exactly the first [n] positions lie before
    [limit]: the grid covers the axis with [n] tiles. *)
Fixpoint leaves_after (n : nat) (start step limit : number) : bool :=
  match n with
  | O => negb (start <? limit)%js
  | S n' => (start <? limit)%js && leaves_after n' (start + step)%js step limit
  end.

(** The corners of a grid of [nx] columns and [ny] rows that starts at
    (0, 0), column by column. *)
Definition grid (nx ny : nat) (xstep ystep : number) : list (number * number) :=
  x ← steps nx Number.zero xstep ;
  y ← steps ny Number.zero ystep ;
  [(x, y)].

(** The settings with another margin, everything else equal. *)
Definition with_margin (m : number) (s : WatermarkSettings) : WatermarkSettings :=
  mkSettings (opacity s) (scale s) (position s) m (outputFormat s) (shadow s)
    (brightness s) (contrast s) (saturation s).

(** Logging a list of draw calls on a canvas. *)
Definition append_ops (ops : list (DrawState -> DrawOp)) (c : Canvas) : Canvas :=
  mkCanvas (canvas_width c) (canvas_height c) (ctx c)
    (drawn c ++ map (fun op => op (ctx c)) ops).

(** The drawing state while the logo is drawn, from the state [st]
    before the watermark is configured. *)
Definition logo_state (img : HTMLImageElement) (s : WatermarkSettings)
    (st : DrawState) : DrawState :=
  let shadowBase := Number.of_N (N.max (width img) (height img)) in
  mkDrawState (ctx_filter st)
    (if valid_alpha (opacity s / Number.hundred)%js
     then (opacity s / Number.hundred)%js else globalAlpha st)
    (if shadow s then black_60 else transparent)
    (if shadow s then (shadowBase * Number.lit_0_01)%js else Number.zero)
    (if shadow s then (shadowBase * Number.lit_0_003)%js else Number.zero)
    (if shadow s then (shadowBase * Number.lit_0_003)%js else Number.zero).

(** The drawing state after the styles are reset. *)
Definition reset_state (st : DrawState) : DrawState :=
  mkDrawState (ctx_filter st) Number.one transparent Number.zero Number.zero
    Number.zero.

(** The filter under which the photo is drawn. *)
Definition photo_filter (s : WatermarkSettings) : CanvasFilter :=
  if enhancements_set s
  then filter_bcs (brightness s) (contrast s) (saturation s)
  else filter_none.

Definition photo_state (s : WatermarkSettings) : DrawState :=
  mkDrawState (photo_filter s) Number.one transparent Number.zero Number.zero
    Number.zero.

(** The logged call that draws the photo, and one that draws the logo. *)
Definition photo_op (img : HTMLImageElement) (s : WatermarkSettings) : DrawOp :=
  mkDrawOp img Number.zero Number.zero None (photo_state s).

Definition logo_op (img logo : HTMLImageElement) (s : WatermarkSettings)
    (corner : number * number) : DrawOp :=
  mkDrawOp logo (fst corner) (snd corner)
    (Some (logoWidth img s, logoHeight img logo s))
    (logo_state img s initialDrawState).

(** The item a batch callback resolves with (the item itself while the
    compositor has not settled). *)
Definition settled_item (host : Host) (fuel : nat) (logoFile : File)
    (s : WatermarkSettings) (img : ProcessedImage) : ProcessedImage :=
  match processItem host fuel logoFile s img with
  | Resolved item => item
  | _ => img
  end.

(** The number of items in a status. *)
Definition count_status (st : Status) (l : list ProcessedImage) : nat :=
  length (List.filter (fun img => bool_decide (status img = st)) l).

(** The string has no ['.'] in it. *)
Fixpoint no_dot (s : string) : bool :=
  match s with
  | EmptyString => true
  | String a rest => negb (bool_decide (a = "."%char)) && no_dot rest
  end.

(** [pre ++ part ++ post = s] for some [pre] and [post]. *)
Definition includes (part s : string) : Prop :=
  exists pre post, s = pre +:+ part +:+ post.

(** The eight messages [applyWatermarkToImage] can reject with, for a
    source file and a logo file. *)
Definition read_failed_message (file : File) : string :=
  "Failed to read file: " +:+ quoted (name file)
  +:+ ". It may be locked or corrupted.".

Definition load_failed_message (fileName : string) : string :=
  if decide (fileName = "")
  then "Failed to load image data."
  else "Failed to load image data for " +:+ quoted fileName
       +:+ ". The file format might be unsupported or the file is corrupted.".

Definition rejection_messages (imageFile logoFile : File) (img : option HTMLImageElement)
    : list string :=
  [ "Unable to read source image: " +:+ read_failed_message imageFile;
    "Unable to read logo file: " +:+ read_failed_message logoFile;
    load_failed_message (name imageFile);
    load_failed_message (name logoFile);
    no_context_message;
    encode_failed_message imageFile ]
  ++ match img with
     | Some img => [too_large_message imageFile img; invalid_dimensions_message imageFile]
     | None => []
     end.

(** [part] is a prefix of [s]. *)
Definition is_prefix (part s : string) : Prop := exists rest, s = part +:+ rest.

(** Membership of a message in [rejection_messages]. *)
Ltac pick_message :=
  unfold rejection_messages, read_failed_message, load_failed_message;
  cbn [app];
  repeat first [apply list_elem_of_here | apply list_elem_of_further].

(* ================================================================== *)
(** ** Properties of the compositor *)

Lemma append_ops_nil c : append_ops [] c = c.
Proof. destruct c; unfold append_ops; simpl. by rewrite app_nil_r. Qed.

Lemma append_ops_app ops1 ops2 c :
  append_ops ops2 (append_ops ops1 c) = append_ops (ops1 ++ ops2) c.
Proof. unfold append_ops; simpl. by rewrite map_app, app_assoc. Qed.

Lemma composite_decoded painter host fuel imageFile logoFile s img logo :
  decoded host imageFile = Some img ->
  decoded host logoFile = Some logo ->
  composite painter host fuel imageFile logoFile s
  = composite_loaded painter host fuel imageFile img logo s.
Proof.
  unfold decoded, composite, readFileAsDataURL, loadImage.
  destruct (fileReader host imageFile) as [isrc|]; [|done].
  destruct (fileReader host logoFile) as [lsrc|]; [|done].
  simpl.
  destruct (imageDecoder host isrc) as [[w h]|]; [|done].
  destruct (imageDecoder host lsrc) as [[lw lh]|]; [|done].
  simpl. by intros [= <-] [= <-].
Qed.

Lemma paint_source_result img s c :
  paint_source img s c
  = Some (tt, mkCanvas (width img) (height img) initialDrawState [photo_op img s]).
Proof.
  unfold paint_source, photo_op, photo_state, photo_filter.
  destruct (enhancements_set s); reflexivity.
Qed.

Lemma paint_watermark_non_tiled fuel img logo s c :
  position s <> tiled ->
  canvas_width c = width img ->
  canvas_height c = height img ->
  paint_watermark fuel img logo s c
  = Some (tt, mkCanvas (width img) (height img) (reset_state (ctx c))
                (drawn c ++
                 [mkDrawOp logo
                    (fst (placement (position s) (Number.of_N (width img))
                            (Number.of_N (height img)) (logoWidth img s)
                            (logoHeight img logo s) (margin s)))
                    (snd (placement (position s) (Number.of_N (width img))
                            (Number.of_N (height img)) (logoWidth img s)
                            (logoHeight img logo s) (margin s)))
                    (Some (logoWidth img s, logoHeight img logo s))
                    (logo_state img s (ctx c))])).
Proof.
  intros Hpos Hw Hh. unfold paint_watermark, logo_state, reset_state.
  destruct (decide (position s = tiled)) as [|_]; [done|].
  destruct c as [cw ch st ops]; simpl in Hw, Hh; subst cw ch.
  destruct (shadow s), (position s); try done; reflexivity.
Qed.

(** *** Loops *)

Lemma map_bind {A B C} (g : B -> C) (f : A -> list B) (l : list A) :
  map g (l ≫= f) = l ≫= (fun a => map g (f a)).
Proof.
  induction l as [|a l IH]; [done|].
  rewrite !bind_cons, map_app. by f_equal.
Qed.

Lemma for_lt_preserves (P : Canvas -> Prop) body limit step :
  (forall v c c', P c -> body v c = Some (tt, c') -> P c') ->
  forall fuel i c c',
    P c -> for_lt fuel i limit step body c = Some (tt, c') -> P c'.
Proof.
  intros Hbody. induction fuel as [|fuel IH]; intros i c c' HP; simpl; [done|].
  destruct (i <? limit)%js.
  - unfold mbind, Paint_bind.
    destruct (body i c) as [[[] c1]|] eqn:Hb; [|done].
    intros Hrest. eapply IH; [|exact Hrest]. by eapply Hbody.
  - by intros [= <-].
Qed.

Lemma for_lt_steps body (f : number -> list (DrawState -> DrawOp)) limit step :
  (forall v c, body v c = Some (tt, append_ops (f v) c)) ->
  forall n fuel start c,
    leaves_after n start step limit = true ->
    (n < fuel)%nat ->
    for_lt fuel start limit step body c
    = Some (tt, append_ops (v ← steps n start step ; f v) c).
Proof.
  intros Hbody. induction n as [|n IH]; intros [|fuel] start c Hleave Hfuel;
    try lia; simpl in *.
  - apply negb_true_iff in Hleave. rewrite Hleave.
    by rewrite append_ops_nil.
  - apply andb_true_iff in Hleave as [Hin Hleave]. rewrite Hin.
    unfold mbind at 1, Paint_bind. rewrite Hbody.
    rewrite (IH fuel) by (done || lia).
    by rewrite append_ops_app.
Qed.

Lemma drawImageScaled_appends image x y w h c :
  drawImageScaled image x y w h c
  = Some (tt, append_ops [mkDrawOp image x y (Some (w, h))] c).
Proof. reflexivity. Qed.

(** The watermark statements in tiled mode: configure, run the two
    loops, reset. *)
Lemma paint_watermark_tiled_unfold fuel img logo s c :
  position s = tiled ->
  paint_watermark fuel img logo s c
  = match
      for_lt fuel Number.zero (Number.of_N (width img))
        (logoWidth img s * Number.lit_1_5)%js
        (fun x =>
           for_lt fuel Number.zero (Number.of_N (height img))
             (logoWidth img s * Number.lit_1_5 * aspectRatio logo)%js
             (fun y => drawImageScaled logo x y (logoWidth img s)
                         (logoHeight img logo s)))
        (mkCanvas (canvas_width c) (canvas_height c) (logo_state img s (ctx c))
           (drawn c))
    with
    | Some (_, c') =>
        Some (tt, mkCanvas (canvas_width c') (canvas_height c')
                    (reset_state (ctx c')) (drawn c'))
    | None => None
    end.
Proof.
  intros Hpos. unfold paint_watermark, logo_state, reset_state.
  destruct (decide (position s = tiled)) as [_|]; [|done].
  destruct (shadow s); unfold mbind, Paint_bind; simpl;
    match goal with
    | |- context [for_lt ?a ?b ?c ?d ?e ?f] =>
        destruct (for_lt a b c d e f) as [[[] c']|]
    end; reflexivity.
Qed.

Lemma paint_watermark_tiled fuel img logo s c nx ny :
  position s = tiled ->
  leaves_after nx Number.zero (logoWidth img s * Number.lit_1_5)%js
    (Number.of_N (width img)) = true ->
  leaves_after ny Number.zero
    (logoWidth img s * Number.lit_1_5 * aspectRatio logo)%js
    (Number.of_N (height img)) = true ->
  (nx < fuel)%nat -> (ny < fuel)%nat ->
  paint_watermark fuel img logo s c
  = Some (tt, mkCanvas (canvas_width c) (canvas_height c) (reset_state (ctx c))
                (drawn c ++
                 map (fun xy => mkDrawOp logo (fst xy) (snd xy)
                                  (Some (logoWidth img s, logoHeight img logo s))
                                  (logo_state img s (ctx c)))
                   (grid nx ny (logoWidth img s * Number.lit_1_5)%js
                      (logoWidth img s * Number.lit_1_5 * aspectRatio logo)%js))).
Proof.
  intros Hpos Hx Hy Hnx Hny.
  rewrite paint_watermark_tiled_unfold by done.
  erewrite (for_lt_steps _
              (fun x => y ← steps ny Number.zero
                              (logoWidth img s * Number.lit_1_5 * aspectRatio logo)%js ;
                        [mkDrawOp logo x y
                           (Some (logoWidth img s, logoHeight img logo s))]));
    [|intros x c0|exact Hx|exact Hnx].
  - simpl. do 3 f_equal. unfold grid.
    rewrite !map_bind. f_equal. apply list_bind_ext; [|done]. intros x.
    rewrite !map_bind. by apply list_bind_ext.
  - erewrite (for_lt_steps _ (fun y => [mkDrawOp logo x y
                 (Some (logoWidth img s, logoHeight img logo s))]));
      [reflexivity|intros; apply drawImageScaled_appends|exact Hy|exact Hny].
Qed.

Lemma paint_tiled fuel img logo s nx ny :
  position s = tiled ->
  leaves_after nx Number.zero (logoWidth img s * Number.lit_1_5)%js
    (Number.of_N (width img)) = true ->
  leaves_after ny Number.zero
    (logoWidth img s * Number.lit_1_5 * aspectRatio logo)%js
    (Number.of_N (height img)) = true ->
  (nx < fuel)%nat -> (ny < fuel)%nat ->
  paint fuel img logo s createCanvas
  = Some (tt, mkCanvas (width img) (height img) (reset_state initialDrawState)
                (photo_op img s ::
                 map (logo_op img logo s)
                   (grid nx ny (logoWidth img s * Number.lit_1_5)%js
                      (logoWidth img s * Number.lit_1_5 * aspectRatio logo)%js))).
Proof.
  intros Hpos Hx Hy Hnx Hny. unfold paint, mbind, Paint_bind.
  rewrite paint_source_result.
  by rewrite (paint_watermark_tiled _ _ _ _ _ nx ny).
Qed.

(** In tiled mode the canvas statements never read the margin. *)
Lemma paint_tiled_ignores_margin fuel img logo s m1 m2 c :
  position s = tiled ->
  paint fuel img logo (with_margin m1 s) c = paint fuel img logo (with_margin m2 s) c.
Proof.
  intros Hpos. unfold paint, mbind, Paint_bind.
  rewrite !paint_source_result.
  rewrite !paint_watermark_tiled_unfold by done.
  reflexivity.
Qed.

(** The compositor depends on the canvas statements and the settings
    only through what is painted and the output format. *)
Lemma composite_ext painter1 painter2 host fuel imageFile logoFile s1 s2 :
  (forall img logo c, painter1 fuel img logo s1 c = painter2 fuel img logo s2 c) ->
  outputFormat s1 = outputFormat s2 ->
  composite painter1 host fuel imageFile logoFile s1
  = composite painter2 host fuel imageFile logoFile s2.
Proof.
  intros Hpaint Hformat. unfold composite.
  destruct (promise_all2 _ _ _) as [[imageSrc logoSrc]| |]; simpl; [|done..].
  destruct (promise_all2 _ _ _) as [[img logo]| |]; simpl; [|done..].
  unfold composite_loaded. by rewrite Hpaint, Hformat.
Qed.

(** A loop that ends has left the range, and its body has ended at the
    start if the start is in the range. *)
Lemma for_lt_inv body limit step fuel start c c' :
  for_lt fuel start limit step body c = Some (tt, c') ->
  exists n,
    (n < fuel)%nat
    /\ leaves_after n start step limit = true
    /\ ((start <? limit)%js = true -> exists c1, body start c = Some (tt, c1)).
Proof.
  revert start c. induction fuel as [|fuel IH]; intros start c; simpl; [done|].
  destruct (start <? limit)%js eqn:Hin.
  - unfold mbind, Paint_bind.
    destruct (body start c) as [[[] c1]|] eqn:Hbody; [|done].
    intros (n & Hn & Hleave & _)%IH. exists (S n). simpl. rewrite Hin, Hleave.
    repeat split; [lia|]. intros _. by exists c1.
  - intros _. exists 0%nat. simpl. rewrite Hin. repeat split; [lia|done].
Qed.

Lemma digits2_size p : digits2_pos p = Pos.size p.
Proof. induction p as [p IH|p IH|]; simpl; by rewrite ?IH. Qed.

Lemma digits2_bound p :
  (p <= 16384)%positive -> (digits2_pos p <= 15)%positive.
Proof.
  intros Hp. rewrite digits2_size.
  destruct (Pos.leb_spec (Pos.size p) 15) as [Hle|Hgt]; [done|].
  pose proof (Pos.size_le p) as Hsize.
  assert (2 ^ 16 <= 2 ^ Z.pos (Pos.size p)) as Hpow
    by (apply Z.pow_le_mono_r; lia).
  rewrite <- Pos2Z.inj_pow in Hpow. change (2 ^ 16) with 65536 in Hpow. lia.
Qed.

Lemma digits2_iter p k :
  digits2_pos (Pos.iter xO p k) = (digits2_pos p + k)%positive.
Proof.
  induction k as [|k IH] using Pos.peano_ind.
  - simpl. by rewrite Pos.add_1_r.
  - rewrite Pos.iter_succ. simpl. rewrite IH. by rewrite Pos.add_succ_r.
Qed.

(** A positive integer of fewer than 53 binary digits is a positive
    finite number: it is shifted to 53 digits and not rounded. *)
Lemma of_small_positive p :
  Z.pos (digits2_pos p) < 53 ->
  exists m e, Number.of_Z (Z.pos p) = S754_finite false m e.
Proof.
  intros Hd. unfold Number.of_Z, binary_normalize, binary_round.
  replace (fexp Number.prec Number.emax (Z.pos (digits2_pos p) + 0))
    with (Z.pos (digits2_pos p) - 53)
    by (unfold fexp, emin, Number.prec, Number.emax; lia).
  unfold shl_align.
  destruct (Z.pos (digits2_pos p) - 53 - 0) as [|q|q] eqn:Hq; try lia.
  unfold binary_round_aux, shr_fexp, Zdigits2.
  rewrite digits2_iter.
  replace (fexp Number.prec Number.emax
             (Z.pos (digits2_pos p + q) + (Z.pos (digits2_pos p) - 53))
           - (Z.pos (digits2_pos p) - 53)) with 0
    by (unfold fexp, emin, Number.prec, Number.emax; lia).
  simpl. rewrite digits2_iter.
  replace (fexp Number.prec Number.emax
             (Z.pos (digits2_pos p + q) + (Z.pos (digits2_pos p) - 53))
           - (Z.pos (digits2_pos p) - 53)) with 0
    by (unfold fexp, emin, Number.prec, Number.emax; lia).
  simpl.
  rewrite (proj2 (Z.leb_le _ _))
    by (unfold Number.emax, Number.prec; lia).
  by eexists _, _.
Qed.

(** The width and the height of a valid source are positive numbers. *)
Lemma positive_dimension (w : N) :
  (1 <= w <= MAX_DIMENSION)%N ->
  (Number.zero <? Number.of_N w)%js = true.
Proof.
  intros Hw. destruct w as [|p]; [lia|].
  assert (p <= 16384)%positive as Hp by (unfold MAX_DIMENSION in Hw; lia).
  apply digits2_bound in Hp.
  destruct (of_small_positive p) as (m & e & Heq); [lia|].
  unfold Number.of_N. change (Z.of_N (N.pos p)) with (Z.pos p).
  by rewrite Heq.
Qed.

Section Loaded.

(** A source and a logo that can be read and decoded, a source that
    passes the validation, and a browser that provides a context and
    encodes the canvas. *)
Variable host : Host.
Variables imageFile logoFile : File.
Variables img logo : HTMLImageElement.
Hypothesis source_decoded : decoded host imageFile = Some img.
Hypothesis logo_decoded : decoded host logoFile = Some logo.
Hypothesis width_valid : (1 <= width img <= MAX_DIMENSION)%N.
Hypothesis height_valid : (1 <= height img <= MAX_DIMENSION)%N.
Hypothesis context_available : getContext2d host imageFile = true.
Hypothesis encodes : forall c format, toBlob host c format = true.

Lemma composite_ready painter fuel s :
  composite painter host fuel imageFile logoFile s
  = match painter fuel img logo s createCanvas with
    | None => Unsettled
    | Some (_, c) =>
        Resolved (mkBlob (canvas_width c) (canvas_height c) (drawn c)
                    (outputFormat s) Number.lit_0_95)
    end.
Proof.
  rewrite (composite_decoded _ _ _ _ _ _ img logo) by done.
  unfold composite_loaded.
  replace (MAX_DIMENSION <? width img)%N with false
    by (symmetry; apply N.ltb_ge; lia).
  replace (MAX_DIMENSION <? height img)%N with false
    by (symmetry; apply N.ltb_ge; lia).
  replace (width img =? 0)%N with false by (symmetry; apply N.eqb_neq; lia).
  replace (height img =? 0)%N with false by (symmetry; apply N.eqb_neq; lia).
  rewrite context_available. simpl.
  destruct (painter fuel img logo s createCanvas) as [[[] c]|]; [|done].
  by rewrite encodes.
Qed.

(** C2. For every non-tiled position the compositor draws the photo and
    then the logo exactly once, at width [dw = W * scale / 100] and
    height [dh = dw * (lh / lw)], with its top-left corner where the
    placement table puts it: top-left [(W*m/100, H*m/100)], top-right
    [(W - dw - W*m/100, H*m/100)], bottom-left
    [(W*m/100, H - dh - H*m/100)], bottom-right
    [(W - dw - W*m/100, H - dh - H*m/100)], center
    [((W - dw)/2, (H - dh)/2)]. *)
Theorem non_tiled_placement fuel s :
  position s <> tiled ->
  let W := Number.of_N (width img) in
  let H := Number.of_N (height img) in
  let m := margin s in
  let dw := (W * scale s / Number.hundred)%js in
  let dh := (dw * (Number.of_N (height logo) / Number.of_N (width logo)))%js in
  let corner :=
    match position s with
    | top_left => (W * m / Number.hundred, H * m / Number.hundred)%js
    | top_right => (W - dw - W * m / Number.hundred, H * m / Number.hundred)%js
    | bottom_left => (W * m / Number.hundred, H - dh - H * m / Number.hundred)%js
    | bottom_right =>
        (W - dw - W * m / Number.hundred, H - dh - H * m / Number.hundred)%js
    | center => ((W - dw) / Number.two, (H - dh) / Number.two)%js
    | tiled => (Number.zero, Number.zero)
    end in
  applyWatermarkToImage host fuel imageFile logoFile s
  = Resolved (mkBlob (width img) (height img)
                [photo_op img s;
                 mkDrawOp logo (fst corner) (snd corner) (Some (dw, dh))
                   (logo_state img s initialDrawState)]
                (outputFormat s) Number.lit_0_95).
Proof.
  intros Hpos W H m dw dh corner.
  unfold applyWatermarkToImage. rewrite composite_ready.
  unfold paint, mbind, Paint_bind.
  rewrite paint_source_result.
  rewrite paint_watermark_non_tiled by done.
  simpl. do 3 f_equal.
Qed.

(** C6. In tiled mode the compositor draws the photo and then the logo
    on a grid that starts at (0, 0) and covers the canvas, column by
    column, the columns [dw * 1.5] apart and the rows
    [dw * 1.5 * aspectRatio] apart: when stepping leaves the canvas
    after [nx] columns and [ny] rows (and the fuel allows as many), the
    run resolves with these [nx * ny] tiles, and a run that resolves
    has drawn such a grid.  The output does not depend on the margin:
    for any two margins the two runs give the same outcome. *)
Theorem tiled_grid_ignores_margin fuel s :
  position s = tiled ->
  let W := Number.of_N (width img) in
  let H := Number.of_N (height img) in
  let drawWidth := (W * scale s / Number.hundred)%js in
  let aspect := (Number.of_N (height logo) / Number.of_N (width logo))%js in
  let drawHeight := (drawWidth * aspect)%js in
  let xstep := (drawWidth * Number.lit_1_5)%js in
  let ystep := (drawWidth * Number.lit_1_5 * aspect)%js in
  let tiles nx ny :=
    mkBlob (width img) (height img)
      (photo_op img s ::
       map (fun xy => mkDrawOp logo (fst xy) (snd xy) (Some (drawWidth, drawHeight))
                        (logo_state img s initialDrawState))
         (grid nx ny xstep ystep))
      (outputFormat s) Number.lit_0_95 in
  (forall nx ny m,
     leaves_after nx Number.zero xstep W = true ->
     leaves_after ny Number.zero ystep H = true ->
     (nx < fuel)%nat ->
     (ny < fuel)%nat ->
     applyWatermarkToImage host fuel imageFile logoFile (with_margin m s)
     = Resolved (tiles nx ny))
  /\ (forall m url,
        applyWatermarkToImage host fuel imageFile logoFile (with_margin m s)
        = Resolved url ->
        exists nx ny,
          leaves_after nx Number.zero xstep W = true
          /\ leaves_after ny Number.zero ystep H = true
          /\ (nx < fuel)%nat /\ (ny < fuel)%nat
          /\ url = tiles nx ny)
  /\ (forall fuel' m1 m2,
        applyWatermarkToImage host fuel' imageFile logoFile (with_margin m1 s)
        = applyWatermarkToImage host fuel' imageFile logoFile (with_margin m2 s)).
Proof.
  intros Hpos W H drawWidth aspect drawHeight xstep ystep tiles.
  assert (forall nx ny m,
            leaves_after nx Number.zero xstep W = true ->
            leaves_after ny Number.zero ystep H = true ->
            (nx < fuel)%nat -> (ny < fuel)%nat ->
            applyWatermarkToImage host fuel imageFile logoFile (with_margin m s)
            = Resolved (tiles nx ny)) as Hgrid.
  { intros nx ny m Hx Hy Hnx Hny.
    unfold applyWatermarkToImage. rewrite composite_ready.
    rewrite (paint_tiled _ _ _ _ nx ny) by done.
    reflexivity. }
  split; [exact Hgrid|]. split.
  - intros m url Hurl. pose proof Hurl as Hrun.
    unfold applyWatermarkToImage in Hrun. rewrite composite_ready in Hrun.
    destruct (paint fuel img logo (with_margin m s) createCanvas)
      as [[[] c]|] eqn:Hpaint; [|done].
    unfold paint, mbind, Paint_bind in Hpaint.
    rewrite paint_source_result in Hpaint.
    rewrite paint_watermark_tiled_unfold in Hpaint by done.
    match type of Hpaint with
    | context [for_lt ?a ?b ?c ?d ?e ?f] =>
        destruct (for_lt a b c d e f) as [[[] c1]|] eqn:Hloop; [|done]
    end.
    apply for_lt_inv in Hloop as (nx & Hnx & Hx & Hfirst).
    destruct Hfirst as [c2 Hinner]; [by apply positive_dimension|].
    apply for_lt_inv in Hinner as (ny & Hny & Hy & _).
    exists nx, ny. repeat split; try done.
    specialize (Hgrid nx ny m Hx Hy Hnx Hny). rewrite Hgrid in Hurl.
    by injection Hurl.
  - intros fuel' m1 m2. apply composite_ext; [|done].
    intros img' logo' c. by apply paint_tiled_ignores_margin.
Qed.

End Loaded.

(** The theorem at the sample photo with the default settings
    (bottom-right). *)
Lemma non_tiled_placement_witness :
  decoded Sample.host Sample.photo
    = Some (mkImage "800x400" 800 400)
  /\ decoded Sample.host Sample.logo
    = Some (mkImage "200x100" 200 100)
  /\ position Sample.defaults <> tiled
  /\ exists x y dw dh st_photo st_logo,
       applyWatermarkToImage Sample.host 0 Sample.photo Sample.logo Sample.defaults
       = Resolved (mkBlob 800 400
                     [mkDrawOp (mkImage "800x400" 800 400) Number.zero Number.zero
                        None st_photo;
                      mkDrawOp (mkImage "200x100" 200 100) x y (Some (dw, dh))
                        st_logo]
                     image_jpeg Number.lit_0_95)
       /\ dw = Number.of_Z 160 /\ dh = Number.of_Z 80
       /\ x = (Number.of_Z 800 - Number.of_Z 160 - Number.of_Z 24)%js
       /\ y = (Number.of_Z 400 - Number.of_Z 80 - Number.of_Z 12)%js.
Proof.
  split; [reflexivity|]. split; [reflexivity|]. split; [discriminate|].
  do 6 eexists. split.
  - apply (non_tiled_placement Sample.host Sample.photo Sample.logo
             (mkImage "800x400" 800 400) (mkImage "200x100" 200 100)
             eq_refl eq_refl ltac:(vm_compute; intuition discriminate)
             ltac:(vm_compute; intuition discriminate) eq_refl
             ltac:(reflexivity) 0%nat Sample.defaults ltac:(discriminate)).
  - vm_compute. auto.
Defined.

Lemma append_assoc (a b c : string) : (a +:+ b) +:+ c = a +:+ b +:+ c.
Proof.
  induction a as [|x a IH]; [done|].
  change (String x ((a +:+ b) +:+ c) = String x (a +:+ b +:+ c)).
  by f_equal.
Qed.

Lemma too_large_includes_dimensions file img :
  includes ("(" +:+ string_of_N (width img) +:+ "x" +:+ string_of_N (height img) +:+ ")")
    (too_large_message file img).
Proof.
  exists ("Image " +:+ quoted (name file) +:+ " is too large "),
         (". Max allowed dimension is " +:+ string_of_N MAX_DIMENSION +:+ "px.").
  unfold too_large_message, quoted.
  rewrite ?append_assoc. reflexivity.
Qed.

Lemma composite_loaded_too_large painter host fuel imageFile img logo s :
  (MAX_DIMENSION < width img \/ MAX_DIMENSION < height img)%N ->
  composite_loaded painter host fuel imageFile img logo s
  = Rejected (JSError (too_large_message imageFile img)).
Proof.
  intros H. unfold composite_loaded.
  replace ((MAX_DIMENSION <? width img)%N || (MAX_DIMENSION <? height img)%N)
    with true; [done|].
  symmetry. apply orb_true_iff. by rewrite !N.ltb_lt.
Qed.

Lemma composite_loaded_zero_area painter host fuel imageFile img logo s :
  (width img = 0 \/ height img = 0)%N ->
  (width img <= MAX_DIMENSION)%N ->
  (height img <= MAX_DIMENSION)%N ->
  composite_loaded painter host fuel imageFile img logo s
  = Rejected (JSError (invalid_dimensions_message imageFile)).
Proof.
  intros H Hw Hh. unfold composite_loaded.
  replace (MAX_DIMENSION <? width img)%N with false
    by (symmetry; by apply N.ltb_ge).
  replace (MAX_DIMENSION <? height img)%N with false
    by (symmetry; by apply N.ltb_ge).
  replace ((width img =? 0)%N || (height img =? 0)%N) with true; [done|].
  symmetry. apply orb_true_iff. by rewrite !N.eqb_eq.
Qed.

(** C3, as amended. When the decoded source exceeds 16384 px on either
    axis the compositor rejects with the too-large error, whose message
    includes the attempted dimensions; when its width or height is 0 and
    neither axis exceeds 16384 px it rejects with the invalid-dimensions
    error.  Either is a rejection that the caller catches: the batch
    callback resolves with the item in status ['error'] carrying the
    message. *)
Theorem source_dimension_errors host fuel imageFile logoFile s img logo :
  decoded host imageFile = Some img ->
  decoded host logoFile = Some logo ->
  ((MAX_DIMENSION < width img \/ MAX_DIMENSION < height img)%N ->
     applyWatermarkToImage host fuel imageFile logoFile s
     = Rejected (JSError (too_large_message imageFile img))
     /\ includes ("(" +:+ string_of_N (width img) +:+ "x"
                  +:+ string_of_N (height img) +:+ ")")
          (too_large_message imageFile img)
     /\ forall item, originalFile item = imageFile ->
          processItem host fuel logoFile s item
          = Resolved (mkItem (id item) imageFile (previewUrl item) error
                        (Some (too_large_message imageFile img))))
  /\ ((width img = 0 \/ height img = 0)%N ->
      (width img <= MAX_DIMENSION)%N ->
      (height img <= MAX_DIMENSION)%N ->
        applyWatermarkToImage host fuel imageFile logoFile s
        = Rejected (JSError (invalid_dimensions_message imageFile))
        /\ forall item, originalFile item = imageFile ->
             processItem host fuel logoFile s item
             = Resolved (mkItem (id item) imageFile (previewUrl item) error
                           (Some (invalid_dimensions_message imageFile)))).
Proof.
  intros Himg Hlogo. split.
  - intros Hbig.
    assert (applyWatermarkToImage host fuel imageFile logoFile s
            = Rejected (JSError (too_large_message imageFile img))) as Hr.
    { unfold applyWatermarkToImage.
      rewrite (composite_decoded _ _ _ _ _ _ img logo) by done.
      by apply composite_loaded_too_large. }
    split; [done|]. split; [apply too_large_includes_dimensions|].
    intros item <-. unfold processItem. by rewrite Hr.
  - intros Hzero Hw Hh.
    assert (applyWatermarkToImage host fuel imageFile logoFile s
            = Rejected (JSError (invalid_dimensions_message imageFile))) as Hr.
    { unfold applyWatermarkToImage.
      rewrite (composite_decoded _ _ _ _ _ _ img logo) by done.
      by apply composite_loaded_zero_area. }
    split; [done|].
    intros item <-. unfold processItem. by rewrite Hr.
Qed.

(** The theorem at a 0 x 20000 source. *)
Lemma source_dimension_errors_witness :
  decoded Sample.host Sample.tall = Some (mkImage "0x20000" 0 20000)
  /\ decoded Sample.host Sample.logo = Some (mkImage "200x100" 200 100)
  /\ applyWatermarkToImage Sample.host 0 Sample.tall Sample.logo Sample.defaults
     = Rejected (JSError
         ("Image " +:+ quoted "strip.svg"
          +:+ " is too large (0x20000). Max allowed dimension is 16384px.")).
Proof.
  split; [reflexivity|]. split; [reflexivity|].
  apply (source_dimension_errors Sample.host 0 Sample.tall Sample.logo
           Sample.defaults (mkImage "0x20000" 0 20000) (mkImage "200x100" 200 100)
           eq_refl eq_refl).
  right. reflexivity.
Defined.

(** C3 as stated fails: a source of width 0 and height 20000 is rejected
    as too large, not as having invalid dimensions. *)
Lemma zero_width_is_not_always_invalid_dimensions :
  ~ (forall host fuel imageFile logoFile s img logo,
       decoded host imageFile = Some img ->
       decoded host logoFile = Some logo ->
       (width img = 0 \/ height img = 0)%N ->
       applyWatermarkToImage host fuel imageFile logoFile s
       = Rejected (JSError (invalid_dimensions_message imageFile))).
Proof.
  intros claim.
  specialize (claim Sample.host 0%nat Sample.tall Sample.logo Sample.defaults
                (mkImage "0x20000" 0 20000) (mkImage "200x100" 200 100)
                eq_refl eq_refl (or_introl eq_refl)).
  vm_compute in claim. discriminate claim.
Qed.

(** *** The logo is not validated *)

Lemma div_by_zero_not_finite (x : number) :
  Number.is_finite (x / Number.of_N 0)%js = false.
Proof. by destruct x. Qed.

Lemma mul_not_finite (x y : number) :
  Number.is_finite y = false -> Number.is_finite (x * y)%js = false.
Proof. by destruct x, y. Qed.

Lemma composite_loaded_valid painter host fuel imageFile img logo s :
  (1 <= width img <= MAX_DIMENSION)%N ->
  (1 <= height img <= MAX_DIMENSION)%N ->
  composite_loaded painter host fuel imageFile img logo s
  = if negb (getContext2d host imageFile)
    then Rejected (JSError no_context_message)
    else match painter fuel img logo s createCanvas with
         | None => Unsettled
         | Some (_, c) =>
             if toBlob host c (outputFormat s)
             then Resolved (mkBlob (canvas_width c) (canvas_height c) (drawn c)
                              (outputFormat s) Number.lit_0_95)
             else Rejected (JSError (encode_failed_message imageFile))
         end.
Proof.
  intros Hw Hh. unfold composite_loaded.
  replace (MAX_DIMENSION <? width img)%N with false
    by (symmetry; apply N.ltb_ge; lia).
  replace (MAX_DIMENSION <? height img)%N with false
    by (symmetry; apply N.ltb_ge; lia).
  replace (width img =? 0)%N with false by (symmetry; apply N.eqb_neq; lia).
  replace (height img =? 0)%N with false by (symmetry; apply N.eqb_neq; lia).
  reflexivity.
Qed.

Lemma paint_non_tiled fuel img logo s :
  position s <> tiled ->
  paint fuel img logo s createCanvas
  = Some (tt, mkCanvas (width img) (height img) (reset_state initialDrawState)
                [photo_op img s;
                 logo_op img logo s
                   (placement (position s) (Number.of_N (width img))
                      (Number.of_N (height img)) (logoWidth img s)
                      (logoHeight img logo s) (margin s))]).
Proof.
  intros Hpos. unfold paint, mbind, Paint_bind.
  rewrite paint_source_result.
  by rewrite paint_watermark_non_tiled.
Qed.

(** C9. The validation looks at the source only.  Whatever the size of
    the logo (0 or above 16384 px on an axis included), a run on a valid
    source raises neither the invalid-dimensions nor the too-large
    error; and a logo of width 0 gives an aspect ratio that is not
    finite (Infinity or NaN), which makes the logo's draw height not
    finite, and the logo is drawn with that height all the same. *)
Theorem logo_is_not_validated host fuel imageFile logoFile s img logo :
  decoded host imageFile = Some img ->
  decoded host logoFile = Some logo ->
  (1 <= width img <= MAX_DIMENSION)%N ->
  (1 <= height img <= MAX_DIMENSION)%N ->
  (forall file image,
     applyWatermarkToImage host fuel imageFile logoFile s
     <> Rejected (JSError (too_large_message file image)))
  /\ (forall file,
        applyWatermarkToImage host fuel imageFile logoFile s
        <> Rejected (JSError (invalid_dimensions_message file)))
  /\ (width logo = 0%N ->
        Number.is_finite (aspectRatio logo) = false
        /\ Number.is_finite (logoHeight img logo s) = false
        /\ (position s <> tiled ->
            exists c x y,
              paint fuel img logo s createCanvas = Some (tt, c)
              /\ drawn c
                 = [photo_op img s;
                    mkDrawOp logo x y
                      (Some (logoWidth img s, logoHeight img logo s))
                      (logo_state img s initialDrawState)])).
Proof.
  intros Himg Hlogo Hw Hh.
  assert (forall m, Rejected (JSError m)
                    = applyWatermarkToImage host fuel imageFile logoFile s ->
                    m = no_context_message \/ m = encode_failed_message imageFile)
    as Hcases.
  { intros m. unfold applyWatermarkToImage.
    rewrite (composite_decoded _ _ _ _ _ _ img logo) by done.
    rewrite composite_loaded_valid by done.
    destruct (getContext2d host imageFile); simpl; [|intros [= ->]; by left].
    destruct (paint fuel img logo s createCanvas) as [[[] c]|]; [|done].
    destruct (toBlob host c (outputFormat s)); [done|].
    intros [= ->]. by right. }
  split; [|split].
  - intros file image Hr. symmetry in Hr.
    destruct (Hcases _ Hr) as [H|H]; discriminate H.
  - intros file Hr. symmetry in Hr.
    destruct (Hcases _ Hr) as [H|H]; discriminate H.
  - intros Hzero.
    assert (Number.is_finite (aspectRatio logo) = false) as Hratio.
    { unfold aspectRatio. rewrite Hzero. apply div_by_zero_not_finite. }
    split; [done|]. split; [by apply mul_not_finite|].
    intros Hpos. eexists _, _, _. split; [by apply paint_non_tiled|done].
Qed.

(** The theorem at a logo of size 0 x 100 on the sample photo. *)
Lemma logo_is_not_validated_witness :
  decoded Sample.host Sample.photo = Some (mkImage "800x400" 800 400)
  /\ decoded Sample.host Sample.flat_logo = Some (mkImage "0x100" 0 100)
  /\ (1 <= 800 <= MAX_DIMENSION)%N
  /\ (1 <= 400 <= MAX_DIMENSION)%N
  /\ aspectRatio (mkImage "0x100" 0 100) = S754_infinity false
  /\ Number.is_finite
       (logoHeight (mkImage "800x400" 800 400) (mkImage "0x100" 0 100)
          Sample.defaults) = false.
Proof.
  split; [reflexivity|]. split; [reflexivity|].
  split; [vm_compute; intuition discriminate|].
  split; [vm_compute; intuition discriminate|].
  split; [reflexivity|].
  apply (logo_is_not_validated Sample.host 0 Sample.photo Sample.flat_logo
           Sample.defaults (mkImage "800x400" 800 400) (mkImage "0x100" 0 100)
           eq_refl eq_refl ltac:(vm_compute; intuition discriminate)
           ltac:(vm_compute; intuition discriminate)).
  reflexivity.
Defined.

(** The theorem at a 100 x 50 photo and a 200 x 100 logo at scale 20:
    tiles of 20 x 10, a column every 30 px (at 0, 30, 60, 90) and a row
    every 15 px (at 0, 15, 30, 45). *)
Lemma tiled_grid_ignores_margin_witness :
  decoded Sample.host Sample.second_photo = Some (mkImage "100x50" 100 50)
  /\ decoded Sample.host Sample.logo = Some (mkImage "200x100" 200 100)
  /\ position Sample.tiled_settings = tiled
  /\ leaves_after 4 Number.zero (Number.of_Z 30) (Number.of_Z 100) = true
  /\ leaves_after 4 Number.zero (Number.of_Z 15) (Number.of_Z 50) = true
  /\ (forall m, exists photo,
        applyWatermarkToImage Sample.host 5 Sample.second_photo Sample.logo
          (with_margin m Sample.tiled_settings)
        = Resolved (mkBlob 100 50
                      (photo ::
                       map (fun xy => mkDrawOp (mkImage "200x100" 200 100)
                                        (fst xy) (snd xy)
                                        (Some (Number.of_Z 20, Number.of_Z 10))
                                        (logo_state (mkImage "100x50" 100 50)
                                           Sample.tiled_settings initialDrawState))
                         (grid 4 4 (Number.of_Z 30) (Number.of_Z 15)))
                      image_png Number.lit_0_95)).
Proof.
  split; [reflexivity|]. split; [reflexivity|]. split; [reflexivity|].
  split; [reflexivity|]. split; [reflexivity|].
  intros m. eexists.
  apply (tiled_grid_ignores_margin Sample.host Sample.second_photo Sample.logo
           (mkImage "100x50" 100 50) (mkImage "200x100" 200 100)
           eq_refl eq_refl ltac:(vm_compute; intuition discriminate)
           ltac:(vm_compute; intuition discriminate) eq_refl
           ltac:(reflexivity) 5%nat Sample.tiled_settings eq_refl);
    [reflexivity|reflexivity|lia|lia].
Defined.

(** *** A run that never settles *)

Lemma for_lt_stuck body limit start step :
  (start <? limit)%js = true ->
  (start + step)%js = start ->
  (forall c, exists c', body start c = Some (tt, c')) ->
  forall fuel c, for_lt fuel start limit step body c = None.
Proof.
  intros Hlt Hstep Hbody. induction fuel as [|fuel IH]; intros c; simpl; [done|].
  rewrite Hlt. unfold mbind, Paint_bind.
  destruct (Hbody c) as [c' ->]. rewrite Hstep. apply IH.
Qed.

Lemma for_lt_body_diverges body limit start step fuel c :
  (start <? limit)%js = true ->
  body start c = None ->
  for_lt (S fuel) start limit step body c = None.
Proof.
  intros Hlt Hbody. simpl. rewrite Hlt. unfold mbind, Paint_bind.
  by rewrite Hbody.
Qed.

(** With a scale of 0 the tiles are 0 wide and the steps are 0: the
    loops of the tiled mode never end, whatever the fuel. *)
Example zero_scale_tiling_never_settles fuel :
  applyWatermarkToImage Sample.host fuel Sample.second_photo Sample.logo
    (mkSettings (Number.of_Z 80) (Number.of_Z 0) tiled (Number.of_Z 3)
       image_png false Number.hundred Number.hundred Number.hundred)
  = Unsettled.
Proof.
  unfold applyWatermarkToImage.
  rewrite (composite_decoded _ _ _ _ _ _ (mkImage "100x50" 100 50)
             (mkImage "200x100" 200 100)) by reflexivity.
  rewrite composite_loaded_valid by (vm_compute; intuition discriminate).
  change (getContext2d Sample.host Sample.second_photo) with true. simpl negb.
  cbv iota.
  unfold paint, mbind, Paint_bind. rewrite paint_source_result.
  rewrite paint_watermark_tiled_unfold by reflexivity.
  destruct fuel as [|fuel]; [reflexivity|].
  rewrite for_lt_body_diverges; [reflexivity|reflexivity|].
  apply for_lt_stuck; [reflexivity|reflexivity|].
  intros c. by eexists.
Qed.

(** *** Enhancements *)

Lemma paint_draws fuel img logo s c' :
  paint fuel img logo s createCanvas = Some (tt, c') ->
  exists watermark,
    drawn c' = photo_op img s :: watermark
    /\ Forall (fun op => op_image op = logo
                         /\ op_state op = logo_state img s initialDrawState)
         watermark.
Proof.
  unfold paint, mbind, Paint_bind. rewrite paint_source_result.
  destruct (decide (position s = tiled)) as [Hpos|Hpos].
  - rewrite paint_watermark_tiled_unfold by done. simpl.
    match goal with
    | |- context [for_lt ?a ?b ?c ?d ?e ?f] =>
        destruct (for_lt a b c d e f) as [[[] c1]|] eqn:Hloop
    end; [|done].
    intros [= <-]. simpl.
    set (P := fun c : Canvas =>
                ctx c = logo_state img s initialDrawState
                /\ exists watermark,
                     drawn c = photo_op img s :: watermark
                     /\ Forall (fun op => op_image op = logo
                                  /\ op_state op = logo_state img s initialDrawState)
                          watermark).
    assert (P c1) as [_ Hc1]; [|exact Hc1].
    eapply (for_lt_preserves P); [| |exact Hloop].
    + intros x c c2 HP. apply (for_lt_preserves P); [|exact HP].
      clear. intros y c c2 [Hctx (watermark & Hdrawn & Hall)] [= <-]. split; [done|].
      exists (watermark ++ [mkDrawOp logo x y
                              (Some (logoWidth img s, logoHeight img logo s))
                              (ctx c)]).
      simpl. rewrite Hdrawn. split; [done|].
      apply Forall_app. split; [done|]. by repeat constructor.
    + split; [done|]. exists []. by split.
  - rewrite paint_watermark_non_tiled by done.
    intros [= <-]. simpl. eexists. split; [done|]. by repeat constructor.
Qed.

Lemma composite_resolved painter host fuel imageFile logoFile s url :
  composite painter host fuel imageFile logoFile s = Resolved url ->
  exists img logo c,
    decoded host imageFile = Some img
    /\ decoded host logoFile = Some logo
    /\ painter fuel img logo s createCanvas = Some (tt, c)
    /\ url = mkBlob (canvas_width c) (canvas_height c) (drawn c) (outputFormat s)
               Number.lit_0_95.
Proof.
  unfold composite, decoded, readFileAsDataURL, loadImage.
  destruct (fileReader host imageFile) as [isrc|],
           (fileReader host logoFile) as [lsrc|]; simpl; try done.
  destruct (imageDecoder host isrc) as [[w h]|],
           (imageDecoder host lsrc) as [[lw lh]|]; simpl; try done.
  unfold composite_loaded.
  repeat match goal with
         | |- context [if ?b then _ else _] => destruct b; simpl; try done
         end.
  destruct (painter _ _ _ _ _) as [[[] c]|] eqn:Hpaint; [|done].
  destruct (toBlob host c (outputFormat s)); [|done].
  intros [= <-]. eexists _, _, c. repeat split; [reflexivity..|exact Hpaint].
Qed.

Lemma paint_without_enhancements fuel img logo s c :
  enhancements_set s = false ->
  paint fuel img logo s c = paint_unfiltered fuel img logo s c.
Proof.
  intros Hoff. unfold paint, paint_unfiltered, paint_source.
  by rewrite Hoff.
Qed.

(** C7. With brightness, contrast and saturation all at 100 the output
    is the same as that of the run that sets no colour filter at all.
    In every run, the photo is drawn under the combined filter exactly
    when one of the three differs from 100, and under no filter
    otherwise; every draw of the logo happens under no filter. *)
Theorem enhancements_touch_the_photo_only host fuel imageFile logoFile s :
  (Number.strict_eq (brightness s) Number.hundred = true ->
   Number.strict_eq (contrast s) Number.hundred = true ->
   Number.strict_eq (saturation s) Number.hundred = true ->
   applyWatermarkToImage host fuel imageFile logoFile s
   = applyWatermarkUnfiltered host fuel imageFile logoFile s)
  /\ (forall url,
        applyWatermarkToImage host fuel imageFile logoFile s = Resolved url ->
        exists photo watermark,
          blob_drawn url = photo :: watermark
          /\ op_size photo = None
          /\ ctx_filter (op_state photo)
             = (if Number.strict_neq (brightness s) Number.hundred
                   || Number.strict_neq (contrast s) Number.hundred
                   || Number.strict_neq (saturation s) Number.hundred
                then filter_bcs (brightness s) (contrast s) (saturation s)
                else filter_none)
          /\ Forall (fun op => ctx_filter (op_state op) = filter_none) watermark).
Proof.
  split.
  - intros Hb Hc Hs. apply composite_ext; [|done].
    intros img logo c. apply paint_without_enhancements.
    unfold enhancements_set, Number.strict_neq. by rewrite Hb, Hc, Hs.
  - intros url Hurl.
    apply composite_resolved in Hurl as (img & logo & c & _ & _ & Hpaint & ->).
    apply paint_draws in Hpaint as (watermark & Hdrawn & Hall).
    exists (photo_op img s), watermark. simpl.
    split; [done|]. split; [done|]. split; [done|].
    eapply Forall_impl; [exact Hall|]. by intros op [_ ->].
Qed.

(** A run with brightness 120: the photo is drawn under the filter, the
    logo under none. *)
Example brightened_photo :
  let s := mkSettings (Number.of_Z 80) (Number.of_Z 20) center (Number.of_Z 3)
             image_webp true (Number.of_Z 120) Number.hundred Number.hundred in
  option_map (map (fun op => ctx_filter (op_state op)))
    (match applyWatermarkToImage Sample.host 0 Sample.photo Sample.logo s with
     | Resolved url => Some (blob_drawn url)
     | _ => None
     end)
  = Some [filter_bcs (Number.of_Z 120) Number.hundred Number.hundred; filter_none].
Proof. reflexivity. Qed.

(** The default settings: the run resolves, and to the same blob as the
    run without any filter statement. *)
Example defaults_are_unfiltered :
  match applyWatermarkToImage Sample.host 0 Sample.photo Sample.logo Sample.defaults with
  | Resolved url =>
      applyWatermarkUnfiltered Sample.host 0 Sample.photo Sample.logo Sample.defaults
      = Resolved url
  | _ => False
  end.
Proof. vm_compute. reflexivity. Qed.

(* ================================================================== *)
(** ** Properties of batch processing *)

Lemma promise_all2_rejected {A B} race (p : Thrown + A) (q : Thrown + B) e :
  promise_all2 race p q = Rejected e -> p = inl e \/ q = inl e.
Proof.
  destruct p, q, race; simpl; intros [= <-]; auto.
Qed.

Lemma promise_all2_resolved {A B} race (p : Thrown + A) (q : Thrown + B) a b :
  promise_all2 race p q = Resolved (a, b) -> p = inr a /\ q = inr b.
Proof.
  destruct p, q, race; simpl; intros [= <- <-]; auto.
Qed.

Lemma read_rejection host prefix c file e :
  rethrow_with (String c prefix) (readFileAsDataURL host file) = inl e ->
  exists m, e = JSError m /\ m <> "".
Proof.
  unfold readFileAsDataURL. destruct (fileReader host file); simpl; [done|].
  intros [= <-]. by eexists.
Qed.

Lemma load_rejection host source fileName e :
  loadImage host source fileName = inl e ->
  exists m, e = JSError m /\ m <> "".
Proof.
  unfold loadImage. destruct (imageDecoder host source) as [[w h]|]; [done|].
  intros [= <-]. destruct (decide (fileName = "")); by eexists.
Qed.

Lemma composite_loaded_rejection painter host fuel imageFile img logo s e :
  composite_loaded painter host fuel imageFile img logo s = Rejected e ->
  exists m, e = JSError m /\ m <> "".
Proof.
  unfold composite_loaded.
  destruct (_ || _); [intros [= <-]; by eexists|].
  destruct (_ || _); [intros [= <-]; by eexists|].
  destruct (negb _); [intros [= <-]; by eexists|].
  destruct (painter _ _ _ _ _) as [[[] c]|]; [|done].
  destruct (toBlob _ _ _); [done|]. intros [= <-]. by eexists.
Qed.

(** Every rejection of the compositor is an [Error] with a message. *)
Lemma rejection_has_message host fuel imageFile logoFile s e :
  applyWatermarkToImage host fuel imageFile logoFile s = Rejected e ->
  exists m, e = JSError m /\ m <> "".
Proof.
  unfold applyWatermarkToImage, composite.
  destruct (promise_all2 (readRace _ _ _) _ _) as [[imageSrc logoSrc]|e1|]
    eqn:Hread; simpl; [| |done].
  - destruct (promise_all2 (decodeRace _ _ _) _ _) as [[img logo]|e2|]
      eqn:Hload; simpl; [| |done].
    + apply composite_loaded_rejection.
    + intros [= <-].
      apply promise_all2_rejected in Hload as [H|H];
        by apply load_rejection in H.
  - intros [= <-].
    apply promise_all2_rejected in Hread as [H|H];
      by apply read_rejection in H.
Qed.

Lemma promise_all_resolved {A B} (g : A -> Outcome B) (f : A -> B) (l : list A) :
  Forall (fun x => g x = Resolved (f x)) l ->
  promise_all (map g l) = Resolved (map f l).
Proof.
  induction 1 as [|x l Hx _ IH]; simpl; [done|]. by rewrite Hx, IH.
Qed.

Lemma promise_all_inv {A} (ps : list (Outcome A)) (l : list A) :
  promise_all ps = Resolved l -> Forall2 (fun p a => p = Resolved a) ps l.
Proof.
  revert l. induction ps as [|p ps IH]; intros l; simpl.
  - intros [= <-]. constructor.
  - destruct p as [a| |], (promise_all ps) as [l'| |]; try done.
    intros [= <-]. constructor; [done|]. by apply IH.
Qed.

Lemma count_status_app st l1 l2 :
  count_status st (l1 ++ l2) = (count_status st l1 + count_status st l2)%nat.
Proof. unfold count_status. by rewrite List.filter_app, length_app. Qed.

Lemma count_status_all st l :
  Forall (fun img => status img = st) l -> count_status st l = length l.
Proof.
  unfold count_status. induction 1 as [|x l Hx _ IH]; simpl; [done|].
  rewrite bool_decide_eq_true_2 by done. simpl. by rewrite IH.
Qed.

Lemma count_status_none st l :
  Forall (fun img => status img <> st) l -> count_status st l = 0%nat.
Proof.
  unfold count_status. induction 1 as [|x l Hx _ IH]; simpl; [done|].
  by rewrite bool_decide_eq_false_2.
Qed.

Lemma collect_failures_app l1 l2 :
  collect_failures (l1 ++ l2) = collect_failures l1 ++ collect_failures l2.
Proof. unfold collect_failures. by rewrite List.filter_app, map_app. Qed.

Lemma collect_failures_none l :
  Forall (fun img => status img <> error) l -> collect_failures l = [].
Proof.
  unfold collect_failures. induction 1 as [|x l Hx _ IH]; simpl; [done|].
  by rewrite bool_decide_eq_false_2.
Qed.

Section Batch.

Variable host : Host.
Variable fuel : nat.
Variable logoFile : File.
Variable s : WatermarkSettings.

Let compose (img : ProcessedImage) : Outcome ObjectURL :=
  applyWatermarkToImage host fuel (originalFile img) logoFile s.

Lemma processItem_resolved img url :
  compose img = Resolved url ->
  processItem host fuel logoFile s img
  = Resolved (mkItem (id img) (originalFile img) (Some url) done None).
Proof. unfold compose, processItem. by intros ->. Qed.

Lemma processItem_rejected img e :
  compose img = Rejected e ->
  exists msg,
    e = JSError msg /\ msg <> ""
    /\ processItem host fuel logoFile s img
       = Resolved (mkItem (id img) (originalFile img) (previewUrl img) error
                     (Some msg)).
Proof.
  unfold compose, processItem. intros He.
  destruct (rejection_has_message _ _ _ _ _ _ He) as (msg & -> & Hmsg).
  exists msg. by rewrite He.
Qed.

Lemma processItem_settled img :
  compose img <> Unsettled ->
  processItem host fuel logoFile s img
  = Resolved (settled_item host fuel logoFile s img).
Proof.
  unfold compose, settled_item, processItem.
  by destruct (applyWatermarkToImage _ _ _ _ _) as [url|e|].
Qed.

Lemma processItem_inv img item :
  processItem host fuel logoFile s img = Resolved item ->
  id item = id img /\ originalFile item = originalFile img
  /\ (status item = done \/ status item = error).
Proof.
  unfold processItem.
  destruct (applyWatermarkToImage _ _ _ _ _) as [url|e|]; [| |done];
    intros [= <-]; simpl; auto.
Qed.

Lemma settled_all_done l :
  Forall (fun img => exists url, compose img = Resolved url) l ->
  Forall (fun img => compose img <> Unsettled) l
  /\ Forall (fun item => status item = done)
       (map (settled_item host fuel logoFile s) l)
  /\ Forall2 (fun img item =>
                exists url, compose img = Resolved url
                  /\ item = mkItem (id img) (originalFile img) (Some url) done None)
       l (map (settled_item host fuel logoFile s) l).
Proof.
  induction 1 as [|img l [url Hurl] _ (IH1 & IH2 & IH3)]; simpl.
  - repeat split; constructor.
  - assert (settled_item host fuel logoFile s img
            = mkItem (id img) (originalFile img) (Some url) done None) as Hitem.
    { unfold settled_item. by rewrite (processItem_resolved _ url). }
    rewrite Hitem. repeat split; constructor; try done.
    + by rewrite Hurl.
    + by exists url.
Qed.

End Batch.

Lemma batch_start_some app logoFile :
  logo app = Some logoFile ->
  images app <> [] ->
  batch_start app
  = Some (mkApp (images app) (logo app) (logoPreview app) true false None
            (settings app) (activePreviewId app) (previewResult app)
            (previewError app),
          mkRun (images app) logoFile (settings app)).
Proof.
  intros Hlogo Hne. unfold batch_start. rewrite Hlogo.
  rewrite bool_decide_eq_false_2; [done|].
  by destruct (images app).
Qed.

Lemma batch_settles host fuel app logoFile :
  logo app = Some logoFile ->
  images app <> [] ->
  Forall (fun img => applyWatermarkToImage host fuel (originalFile img) logoFile
                       (settings app) <> Unsettled) (images app) ->
  executeBatchProcessing host fuel app
  = Resolved (batch_finish
                (map (settled_item host fuel logoFile (settings app)) (images app))
                (mkApp (images app) (logo app) (logoPreview app) true false None
                   (settings app) (activePreviewId app) (previewResult app)
                   (previewError app))).
Proof.
  intros Hlogo Hne Hall. unfold executeBatchProcessing.
  rewrite (batch_start_some _ logoFile) by done.
  unfold batch_processed. simpl.
  erewrite promise_all_resolved; [done|].
  eapply Forall_impl; [exact Hall|]. intros img. apply processItem_settled.
Qed.

Lemma one_failure_counts host fuel logoFile s pre failed post msg :
  Forall (fun img => exists url,
            applyWatermarkToImage host fuel (originalFile img) logoFile s
            = Resolved url) pre ->
  Forall (fun img => exists url,
            applyWatermarkToImage host fuel (originalFile img) logoFile s
            = Resolved url) post ->
  settled_item host fuel logoFile s failed
  = mkItem (id failed) (originalFile failed) (previewUrl failed) error (Some msg) ->
  msg <> "" ->
  let processed := map (settled_item host fuel logoFile s) (pre ++ failed :: post) in
  count_status done processed = (length pre + length post)%nat
  /\ count_status error processed = 1%nat
  /\ collect_failures processed
     = [mkFailure (id failed) (name (originalFile failed)) msg].
Proof.
  intros Hpre Hpost Hfailed Hmsg processed. subst processed.
  apply settled_all_done in Hpre as (_ & Hpre & _).
  apply settled_all_done in Hpost as (_ & Hpost & _).
  rewrite map_app. simpl. rewrite Hfailed.
  assert (forall l, Forall (fun item => status item = done) l ->
                    Forall (fun item => status item <> error) l) as Hne.
  { intros l Hl. eapply Forall_impl; [exact Hl|]. by intros item ->. }
  change (?a ++ ?x :: ?b) with (a ++ [x] ++ b).
  rewrite !count_status_app, !collect_failures_app.
  rewrite (count_status_all done (map _ pre)) by done.
  rewrite (count_status_all done (map _ post)) by done.
  rewrite (count_status_none error (map _ pre)) by auto.
  rewrite (count_status_none error (map _ post)) by auto.
  rewrite (collect_failures_none (map _ pre)) by auto.
  rewrite (collect_failures_none (map _ post)) by auto.
  rewrite !length_map.
  unfold count_status, collect_failures, error_or_unknown. simpl.
  destruct (decide (msg = "")); [done|].
  repeat split; lia.
Qed.

(** C1. A batch run with a logo and at least one item.  (1) When item
    [k] fails in the compositor and every other item succeeds, the run
    ends with every other item ['done'] with its own output URL, item
    [k] in ['error'] with its message, N-1 items ['done'] and one in
    ['error'], and the report [{total: N, success: N-1, failures: [the
    failed item's {id, name, error}]}].  (2) When every item succeeds,
    all are ['done'] and there is no report.  (3) Whenever every
    compositor call settles the run completes; and in a completed run
    each item is what its own callback resolved with (so no failure
    changes another item's result), and the failures are listed in the
    order of the items. *)
Theorem one_failure_is_isolated host fuel app logoFile :
  logo app = Some logoFile ->
  images app <> [] ->
  let compose img :=
    applyWatermarkToImage host fuel (originalFile img) logoFile (settings app) in
  let N := length (images app) in
  (forall k failed e,
     images app !! k = Some failed ->
     compose failed = Rejected e ->
     (forall i img, i <> k -> images app !! i = Some img ->
        exists url, compose img = Resolved url) ->
     exists app' msg,
       executeBatchProcessing host fuel app = Resolved app'
       /\ e = JSError msg
       /\ length (images app') = N
       /\ count_status done (images app') = (N - 1)%nat
       /\ count_status error (images app') = 1%nat
       /\ images app' !! k
          = Some (mkItem (id failed) (originalFile failed) (previewUrl failed)
                    error (Some msg))
       /\ (forall i img, i <> k -> images app !! i = Some img ->
             exists url,
               compose img = Resolved url
               /\ images app' !! i
                  = Some (mkItem (id img) (originalFile img) (Some url) done None))
       /\ batchErrorResults app'
          = Some (mkReport N (N - 1)
                    [mkFailure (id failed) (name (originalFile failed)) msg]))
  /\ ((forall img, img ∈ images app -> exists url, compose img = Resolved url) ->
      exists app',
        executeBatchProcessing host fuel app = Resolved app'
        /\ count_status done (images app') = N
        /\ batchErrorResults app' = None)
  /\ ((forall img, img ∈ images app -> compose img <> Unsettled) ->
      exists app', executeBatchProcessing host fuel app = Resolved app')
  /\ (forall app',
        executeBatchProcessing host fuel app = Resolved app' ->
        (forall i img, images app !! i = Some img ->
           exists item,
             processItem host fuel logoFile (settings app) img = Resolved item
             /\ images app' !! i = Some item)
        /\ forall report,
             batchErrorResults app' = Some report ->
             map failure_id (failures report) `sublist_of` map id (images app)).
Proof.
  intros Hlogo Hne compose N. subst compose. cbv beta.
  split; [|split; [|split]].
  - intros k failed e Hk He Hothers.
    destruct (processItem_rejected _ _ _ _ _ _ He) as (msg & -> & Hmsg & Hproc).
    assert (settled_item host fuel logoFile (settings app) failed
            = mkItem (id failed) (originalFile failed) (previewUrl failed) error
                (Some msg)) as Hfailed.
    { unfold settled_item. by rewrite Hproc. }
    assert (forall i img, i <> k -> images app !! i = Some img ->
              exists url,
                applyWatermarkToImage host fuel (originalFile img) logoFile
                  (settings app) = Resolved url
                /\ settled_item host fuel logoFile (settings app) img
                   = mkItem (id img) (originalFile img) (Some url) done None)
      as Hdone.
    { intros i img Hi Himg. destruct (Hothers i img Hi Himg) as [url Hurl].
      exists url. split; [done|].
      unfold settled_item. by rewrite (processItem_resolved _ _ _ _ _ url). }
    assert (Forall (fun img =>
                      applyWatermarkToImage host fuel (originalFile img) logoFile
                        (settings app) <> Unsettled) (images app)) as Hsettle.
    { apply Forall_lookup. intros i img Himg. destruct (decide (i = k)) as [->|Hi].
      - rewrite Hk in Himg. injection Himg as <-. by rewrite He.
      - destruct (Hothers i img Hi Himg) as [url Hurl]. by rewrite Hurl. }
    eexists _, msg. split; [by apply batch_settles|]. split; [done|].
    simpl.
    assert (Forall (fun img =>
                      exists url,
                        applyWatermarkToImage host fuel (originalFile img) logoFile
                          (settings app) = Resolved url)
              (take k (images app))) as Hpre.
    { apply Forall_lookup. intros i img Himg.
      apply lookup_take_Some in Himg as [Himg Hi].
      apply (Hothers i); [lia|done]. }
    assert (Forall (fun img =>
                      exists url,
                        applyWatermarkToImage host fuel (originalFile img) logoFile
                          (settings app) = Resolved url)
              (drop (S k) (images app))) as Hpost.
    { apply Forall_lookup. intros i img Himg. rewrite lookup_drop in Himg.
      apply (Hothers (S k + i)%nat); [lia|done]. }
    pose proof (one_failure_counts host fuel logoFile (settings app) _ failed _ msg
                  Hpre Hpost Hfailed Hmsg) as Hcounts.
    simpl in Hcounts. rewrite (take_drop_middle _ _ _ Hk) in Hcounts.
    destruct Hcounts as (Hcount_done & Hcount_error & Hfailures).
    assert (k < N)%nat as Hklt by (by eapply lookup_lt_Some).
    assert (length (take k (images app)) + length (drop (S k) (images app))
            = N - 1)%nat as Hlen.
    { rewrite length_take, length_drop. fold N. lia. }
    rewrite Hfailures, length_map. fold N. simpl.
    repeat split; try done; try lia.
    + rewrite list_lookup_fmap, Hk. simpl. by rewrite Hfailed.
    + intros i img Hi Himg. destruct (Hdone i img Hi Himg) as (url & Hurl & Hitem).
      exists url. split; [done|].
      rewrite list_lookup_fmap, Himg. simpl. by rewrite Hitem.
  - intros Hall.
    assert (Forall (fun img =>
                      exists url,
                        applyWatermarkToImage host fuel (originalFile img) logoFile
                          (settings app) = Resolved url) (images app))
      as Hall' by (by apply Forall_forall).
    destruct (settled_all_done host fuel logoFile (settings app) _ Hall')
      as (Hsettle & Hdone & _).
    eexists. split; [by apply batch_settles|]. simpl.
    rewrite count_status_all, length_map by done. split; [done|].
    rewrite collect_failures_none; [done|].
    eapply Forall_impl; [exact Hdone|]. by intros item ->.
  - intros Hall. eexists. apply batch_settles; [done..|].
    by apply Forall_forall.
  - intros app' Hrun. unfold executeBatchProcessing in Hrun.
    rewrite (batch_start_some _ logoFile) in Hrun by done.
    unfold batch_processed in Hrun. simpl in Hrun.
    destruct (promise_all _) as [processed| |] eqn:Hall; simpl in Hrun; [|done..].
    injection Hrun as <-. apply promise_all_inv in Hall.
    assert (map id processed = map id (images app)) as Hids.
    { apply Forall2_fmap_l in Hall. clear -Hall.
      induction Hall as [|img item l l' Hitem _ IH]; simpl; [done|].
      apply processItem_inv in Hitem as (-> & _). by f_equal. }
    split.
    + intros i img Himg.
      pose proof Hall as Hat.
      eapply (Forall2_lookup_l _ _ _ i) in Hat as (item & Hitem & Heq);
        [|by rewrite list_lookup_fmap, Himg].
      exists item. by split.
    + intros report. simpl.
      destruct (bool_decide _); [|done]. intros [= <-]. simpl.
      unfold collect_failures. rewrite map_map. simpl.
      rewrite <- Hids. apply (fmap_sublist id). clear.
      induction processed as [|x l IH]; simpl; [done|].
      destruct (bool_decide _); by constructor.
Qed.

(** The theorem at the sample state, whose second item is corrupt. *)
Lemma one_failure_is_isolated_witness :
  logo SampleApp.app = Some Sample.logo
  /\ images SampleApp.app <> []
  /\ images SampleApp.app !! 1%nat = Some SampleApp.broken_item
  /\ exists app' msg,
       executeBatchProcessing Sample.host 0 SampleApp.app = Resolved app'
       /\ map status (images app') = [done; error; done]
       /\ count_status done (images app') = 2%nat
       /\ count_status error (images app') = 1%nat
       /\ batchErrorResults app'
          = Some (mkReport 3 2 [mkFailure "item-2" "broken.jpg" msg]).
Proof.
  split; [reflexivity|]. split; [discriminate|]. split; [reflexivity|].
  destruct (one_failure_is_isolated Sample.host 0 SampleApp.app Sample.logo
              eq_refl ltac:(discriminate)) as [one_failure _].
  destruct (one_failure 1%nat SampleApp.broken_item
              (JSError ("Failed to load image data for " +:+ quoted "broken.jpg"
                        +:+ ". The file format might be unsupported or the file is corrupted."))
              eq_refl eq_refl)
    as (app' & msg & Hrun & _ & _ & Hdone & Herror & _ & _ & Hreport).
  { intros [|[|[|i]]] img Hi Himg; try done;
      injection Himg as <-; eexists; vm_compute; reflexivity. }
  exists app', msg. split; [exact Hrun|].
  split; [|split; [exact Hdone|split; [exact Herror|exact Hreport]]].
  vm_compute in Hrun. injection Hrun as <-. reflexivity.
Defined.

(* ================================================================== *)
(** ** Download names *)

Lemma lastIndexOf_from_no_dot s i found :
  no_dot s = true -> lastIndexOf_from "." s i found = found.
Proof.
  revert i found. induction s as [|a s IH]; intros i found; simpl; [done|].
  intros [Ha Hs]%andb_true_iff. apply negb_true_iff, bool_decide_eq_false in Ha.
  rewrite IH by done. by destruct (decide (a = "."%char)).
Qed.

Lemma lastIndexOf_from_last_dot pre suf i found :
  no_dot suf = true ->
  lastIndexOf_from "." (pre +:+ "." +:+ suf) i found
  = i + Z.of_nat (String.length pre).
Proof.
  intros Hsuf. revert i found.
  induction pre as [|a pre IH]; intros i found.
  - change (lastIndexOf_from "." suf (i + 1) i = i + 0).
    rewrite lastIndexOf_from_no_dot by done. lia.
  - change (lastIndexOf_from "." (pre +:+ "." +:+ suf) (i + 1)
              (if decide (a = "."%char) then i else found)
            = i + Z.of_nat (S (String.length pre))).
    rewrite IH. lia.
Qed.

Lemma substring_prefix pre rest :
  String.substring 0 (String.length pre) (pre +:+ rest) = pre.
Proof.
  induction pre as [|a pre IH]; simpl.
  - by destruct rest.
  - change (String a (String.substring 0 (String.length pre) (pre +:+ rest))
            = String a pre).
    by rewrite IH.
Qed.

Lemma substring_nothing s : String.substring 0 0 s = "".
Proof. by destruct s. Qed.

Lemma originalName_last_dot pre suf :
  no_dot suf = true -> pre <> "" ->
  originalName (pre +:+ "." +:+ suf) = pre.
Proof.
  intros Hsuf Hpre. unfold originalName, lastIndexOf, substring0.
  rewrite lastIndexOf_from_last_dot by done.
  replace (Z.to_nat (Z.max 0 (0 + Z.of_nat (String.length pre))))
    with (String.length pre) by lia.
  rewrite substring_prefix. unfold or_else. by destruct (decide (pre = "")).
Qed.

Lemma originalName_no_dot fileName :
  no_dot fileName = true -> originalName fileName = fileName.
Proof.
  intros Hno. unfold originalName, lastIndexOf, substring0.
  rewrite lastIndexOf_from_no_dot by done.
  change (Z.to_nat (Z.max 0 (-1))) with 0%nat.
  by rewrite substring_nothing.
Qed.

Lemma originalName_leading_dot suf :
  no_dot suf = true -> originalName ("." +:+ suf) = "." +:+ suf.
Proof.
  intros Hsuf. unfold originalName, lastIndexOf, substring0.
  rewrite (lastIndexOf_from_last_dot "" suf) by done.
  change (Z.to_nat (Z.max 0 (0 + Z.of_nat (String.length "")))) with 0%nat.
  by rewrite substring_nothing.
Qed.

(** C10. Every item of a run that is ['done'] and has a URL gets one
    download, [index * 200] ms after the run, named
    ['watermarked-' + base + '.' + ext]; [ext] is jpg, png or webp for
    image/jpeg, image/png or image/webp; [base] is the file name up to
    its last ['.'], and the whole file name when it has no ['.'] or when
    its only ['.'] is its first character.  Nothing else is downloaded. *)
Theorem download_names s processed :
  (forall d,
     d ∈ schedule_downloads s processed <->
     exists i img url,
       processed !! i = Some img /\ status img = done /\ previewUrl img = Some url
       /\ d = mkDownload (i * 200) url
                ("watermarked-" +:+ originalName (name (originalFile img))
                 +:+ "." +:+ extension (outputFormat s)))
  /\ extension image_jpeg = "jpg"
  /\ extension image_png = "png"
  /\ extension image_webp = "webp"
  /\ (forall pre suf,
        no_dot suf = true -> pre <> "" ->
        originalName (pre +:+ "." +:+ suf) = pre)
  /\ (forall fileName, no_dot fileName = true -> originalName fileName = fileName)
  /\ (forall suf, no_dot suf = true -> originalName ("." +:+ suf) = "." +:+ suf).
Proof.
  split; [|repeat split; auto using originalName_last_dot, originalName_no_dot,
                           originalName_leading_dot].
  intros d. unfold schedule_downloads. rewrite list_elem_of_omap. split.
  - intros ([i img] & Hin & Hd).
    apply elem_of_lookup_imap in Hin as (i' & img' & [= -> ->] & Himg).
    destruct (status img') eqn:Hst; try done.
    destruct (previewUrl img') as [url|] eqn:Hurl; [|done].
    injection Hd as <-. by exists i', img', url.
  - intros (i & img & url & Himg & Hst & Hurl & ->).
    exists (i, img). split.
    + apply elem_of_lookup_imap. by exists i, img.
    + by rewrite Hst, Hurl.
Qed.

(** Some names. *)
Example download_name_examples :
  download_name image_jpeg "beach.png" = "watermarked-beach.jpg"
  /\ download_name image_webp "archive.tar.gz" = "watermarked-archive.tar.webp"
  /\ download_name image_png "README" = "watermarked-README.png"
  /\ download_name image_png ".gitignore" = "watermarked-.gitignore.png"
  /\ download_name image_jpeg "photo." = "watermarked-photo.jpg".
Proof. repeat split; reflexivity. Qed.

(* ================================================================== *)
(** ** Settings persistence *)

(** *** JSON reads back what it writes *)























(** Settings away from the defaults in every field, saved to an empty
    storage and loaded in a fresh session: the text stored, and the
    record read back; with nothing saved the load gives the defaults. *)
Example settings_round_trip_sample engine :
  items (handleSaveSettings (JSON_of engine) SampleControls.custom
           SampleApp.empty_storage) !! settings_key
  = Some ("{" +:+ quoted "opacity" +:+ ":55," +:+ quoted "scale" +:+ ":35,"
          +:+ quoted "position" +:+ ":" +:+ quoted "tiled" +:+ ","
          +:+ quoted "margin" +:+ ":0,"
          +:+ quoted "outputFormat" +:+ ":" +:+ quoted "image/webp" +:+ ","
          +:+ quoted "shadow" +:+ ":true," +:+ quoted "brightness" +:+ ":120,"
          +:+ quoted "contrast" +:+ ":90," +:+ quoted "saturation" +:+ ":0}")
  /\ loadSettings (JSON_of engine)
       (handleSaveSettings (JSON_of engine) SampleControls.custom
          SampleApp.empty_storage)
     = SettingsValue SampleControls.custom
  /\ loadSettings (JSON_of engine) SampleApp.empty_storage
     = SettingsValue defaultSettings
  /\ SampleControls.custom <> defaultSettings.
Proof. repeat split; try (vm_compute; reflexivity). intros [=]. Qed.

(* ================================================================== *)
(** ** The life of a batch item *)

Module LifecycleFacts.
Import Lifecycle.

Lemma same_id_same_item (l : list ProcessedImage) item item' :
  NoDup (ids l) -> item ∈ l -> item' ∈ l -> id item' = id item -> item' = item.
Proof.
  unfold ids. induction l as [|x l IH]; simpl; [by intros _ ?%elem_of_nil|].
  intros [Hx Hl]%NoDup_cons [->|Hin]%elem_of_cons [->|Hin']%elem_of_cons Hid;
    try done.
  - destruct Hx. rewrite <- Hid. apply list_elem_of_fmap. by exists item'.
  - destruct Hx. rewrite Hid. apply list_elem_of_fmap. by exists item.
  - by apply IH.
Qed.

Lemma batch_processed_inv host fuel run processed :
  batch_processed host fuel run = Resolved processed ->
  Forall2 (fun before after =>
             id after = id before
             /\ (status after = done \/ status after = error))
    (run_images run) processed.
Proof.
  unfold batch_processed. intros Hall%promise_all_inv.
  apply Forall2_fmap_l in Hall.
  eapply Forall2_impl; [exact Hall|]. simpl.
  intros before after (Hid & _ & Hst)%processItem_inv. by split.
Qed.

Lemma processed_ids host fuel run processed :
  batch_processed host fuel run = Resolved processed ->
  ids processed = ids (run_images run).
Proof.
  intros Hall%batch_processed_inv. unfold ids.
  induction Hall as [|before after l l' [Hid _] _ IH]; simpl; [done|].
  by rewrite Hid, IH.
Qed.

Lemma processed_statuses host fuel run processed :
  batch_processed host fuel run = Resolved processed ->
  Forall (fun item => status item = done \/ status item = error) processed.
Proof.
  intros Hall%batch_processed_inv.
  induction Hall as [|before after l l' [_ Hst] _ IH]; by constructor.
Qed.

Lemma batch_start_inv a a' run :
  batch_start a = Some (a', run) ->
  images a' = images a /\ run_images run = images a.
Proof.
  unfold batch_start. destruct (logo a); [|done].
  destruct (bool_decide _); [done|]. by intros [= <- <-].
Qed.

Lemma uploaded_items fresh files item :
  item ∈ map (fun '(uuid, file) => mkItem uuid file None pending None)
         (zip fresh files) ->
  status item = pending /\ id item ∈ fresh.
Proof.
  intros ([uuid file] & -> & Hin)%list_elem_of_fmap. split; [done|].
  simpl. by apply elem_of_zip_l in Hin.
Qed.

Lemma uploaded_ids fresh files :
  ids (map (fun '(uuid, file) => mkItem uuid file None pending None)
         (zip fresh files))
  = take (length files) fresh.
Proof.
  unfold ids. revert files. induction fresh as [|u fresh IH]; intros [|f files];
    simpl; try done.
  by rewrite IH.
Qed.

Lemma step_preserves host w w' :
  Invariant w -> Step host w w' -> Invariant w'.
Proof.
  intros (Hdup & Hproc & Hruns) Hstep.
  destruct Hstep as [fresh files w Hfresh Hnew|target w|w|w app' run Hstart
                    |fuel w i run processed Hrun Hdone|w app' Himages];
    unfold Invariant; simpl.
  - split; [|split; [|done]].
    + unfold ids in *. rewrite map_app. apply NoDup_app. split; [done|].
      fold (ids (map (fun '(uuid, file) => mkItem uuid file None pending None)
                   (zip fresh files))).
      rewrite uploaded_ids. split.
      * intros u Hin Hu. apply (Hnew u); [|done].
        apply elem_of_take in Hu as (i & Hi & _).
        by eapply list_elem_of_lookup_2.
      * eapply sublist_NoDup; [exact Hfresh|apply sublist_take].
    + apply Forall_app. split; [done|].
      apply Forall_forall. intros item [-> _]%uploaded_items. done.
  - split; [|split; [|done]].
    + unfold ids in *. clear -Hdup.
      induction (images (app w)) as [|x l IH]; simpl; [done|].
      apply NoDup_cons in Hdup as [Hx Hl].
      destruct (negb _); simpl; [|by apply IH].
      apply NoDup_cons. split; [|by apply IH].
      intros (y & Hy & Hin)%list_elem_of_fmap. apply Hx.
      apply list_elem_of_fmap. exists y. split; [done|].
      apply list_elem_of_In, List.filter_In in Hin as [Hin _].
      by apply list_elem_of_In.
    + unfold no_processing in *. clear -Hproc.
      induction Hproc as [|x l Hx _ IH]; simpl; [done|].
      destruct (negb _); [by constructor|done].
  - split; [apply NoDup_nil_2|]. split; [by constructor|done].
  - apply batch_start_inv in Hstart as [Himages Hrun]. rewrite Himages.
    split; [done|]. split; [done|]. constructor; [|done]. by rewrite Hrun.
  - pose proof (Forall_lookup_1 _ _ _ _ Hruns Hrun) as [Hrdup Hrproc].
    split; [|split].
    + by rewrite (processed_ids _ _ _ _ Hdone).
    + eapply Forall_impl; [by eapply processed_statuses|].
      simpl. by intros item [-> | ->].
    + apply Forall_delete. done.
  - rewrite Himages. done.
Qed.

Lemma reachable_invariant host w : Reachable host w -> Invariant w.
Proof.
  induction 1 as [s|w w' _ IH Hstep].
  - repeat split; constructor.
  - by eapply step_preserves.
Qed.

(** C4, as amended. No item is ever in status ['processing'].  A status
    changes only when the results of a batch run arrive: selecting
    photos, removing one, clearing all and the start of a run leave
    every item they keep exactly as it is (new items are ['pending'],
    under new identifiers), the start of a run sets the flag
    [isProcessing] instead, and the arrival of the results clears that
    flag and makes each item of the run ['done'] or ['error'].  So a
    status changes only from ['pending'] to ['done'] or ['error'], and
    from ['done'] or ['error'] to the fresh ['done'] or ['error'] of a
    later run; it never goes back to ['pending']. *)
Theorem status_transitions host w w' :
  Reachable host w ->
  Step host w w' ->
  no_processing (images (app w'))
  /\ (forall item item',
        item ∈ images (app w) -> item' ∈ images (app w') ->
        id item' = id item ->
        status item' = status item
        \/ status item' = done \/ status item' = error)
  /\ ((exists fuel i run processed,
         running w !! i = Some run
         /\ batch_processed host fuel run = Resolved processed
         /\ app w' = batch_finish processed (app w))
      \/ (forall item',
            item' ∈ images (app w') ->
            item' ∈ images (app w)
            \/ (status item' = pending /\ id item' ∉ ids (images (app w)))))
  /\ (forall a a' run,
        batch_start a = Some (a', run) ->
        images a' = images a /\ run_images run = images a
        /\ isProcessing a' = true)
  /\ (forall fuel run processed a,
        batch_processed host fuel run = Resolved processed ->
        Forall2 (fun before after =>
                   id after = id before
                   /\ (status after = done \/ status after = error))
          (run_images run) processed
        /\ images (batch_finish processed a) = processed
        /\ isProcessing (batch_finish processed a) = false)
  /\ (forall fresh files a,
        take (length (images a)) (images (handleImagesSelected fresh files a))
        = images a
        /\ Forall (fun item => status item = pending)
             (drop (length (images a))
                (images (handleImagesSelected fresh files a))))
  /\ (forall target a, sublist (images (removeImage target a)) (images a))
  /\ (forall a, images (resetAll a) = []).
Proof.
  intros Hreach Hstep.
  pose proof (reachable_invariant _ _ Hreach) as Hinv.
  pose proof (step_preserves _ _ _ Hinv Hstep) as (_ & Hproc' & _).
  destruct Hinv as (Hdup & _ & _).
  split; [done|].
  split; [|split; [|split; [|split; [|split; [|split; [|done]]]]]].
  - intros item item' Hitem Hitem' Hid.
    assert (item' ∈ images (app w) -> status item' = status item) as Hsame.
    { intros Hin. by rewrite (same_id_same_item _ item item' Hdup). }
    destruct Hstep as [fresh files w Hfresh Hnew|target w|w|w app' run Hstart
                      |fuel w i run processed Hrun Hdone|w app' Himages];
      simpl in Hitem'.
    + apply elem_of_app in Hitem' as [Hold|Hup]; [by left; apply Hsame|].
      apply uploaded_items in Hup as [_ Hfr]. destruct (Hnew _ Hfr).
      rewrite Hid. apply list_elem_of_fmap. by exists item.
    + left. apply Hsame.
      apply list_elem_of_In, List.filter_In in Hitem' as [Hin _].
      by apply list_elem_of_In.
    + by apply elem_of_nil in Hitem'.
    + apply batch_start_inv in Hstart as [Himages _]. rewrite Himages in Hitem'.
      by left; apply Hsame.
    + right. apply processed_statuses in Hdone.
      by apply (proj1 (Forall_forall _ _) Hdone).
    + rewrite Himages in Hitem'. by left; apply Hsame.
  - destruct Hstep as [fresh files w Hfresh Hnew|target w|w|w app' run Hstart
                      |fuel w i run processed Hrun Hdone|w app' Himages];
      simpl.
    + right. intros item' [Hold|Hup]%elem_of_app; [by left|].
      right. apply uploaded_items in Hup as [Hst Hfr]. split; [done|].
      by apply Hnew.
    + right. intros item' Hin. left.
      apply list_elem_of_In, List.filter_In in Hin as [Hin _].
      by apply list_elem_of_In.
    + right. by intros item' Hin%elem_of_nil.
    + right. intros item' Hin. left.
      apply batch_start_inv in Hstart as [Himages _]. by rewrite <- Himages.
    + left. by exists fuel, i, run, processed.
    + right. intros item' Hin. left. by rewrite <- Himages.
  - intros a a' run Hstart.
    destruct (batch_start_inv _ _ _ Hstart) as [Himages Hrun].
    split; [done|]. split; [done|].
    unfold batch_start in Hstart. destruct (logo a); [|done].
    destruct (bool_decide _); [done|]. by injection Hstart as <- _.
  - intros fuel run processed a Hdone.
    split; [by eapply batch_processed_inv|done].
  - intros fresh files a. simpl.
    rewrite take_app_length, drop_app_length. split; [done|].
    apply Forall_forall. by intros item [Hst _]%uploaded_items.
  - intros target a. simpl. clear.
    induction (images a) as [|x l IH]; simpl; [constructor|].
    destruct (negb _); by constructor.
Qed.

End LifecycleFacts.

(** The sample state is reachable: three photos are selected, then the
    logo. *)
Lemma sample_reachable :
  Lifecycle.Reachable Sample.host (Lifecycle.mkWorld SampleApp.app []).
Proof.
  assert (NoDup ["item-1"; "item-2"; "item-3"]) as Hfresh.
  { repeat (apply NoDup_cons; split;
            [rewrite ?elem_of_cons, elem_of_nil; intuition discriminate|]).
    apply NoDup_nil_2. }
  apply (Lifecycle.reach_step _
           (Lifecycle.mkWorld
              (handleImagesSelected ["item-1"; "item-2"; "item-3"]
                 [Sample.photo; Sample.corrupt; Sample.second_photo]
                 (Lifecycle.app (Lifecycle.startup Sample.defaults))) [])).
  - apply (Lifecycle.reach_step _ (Lifecycle.startup Sample.defaults));
      [apply Lifecycle.reach_startup|].
    refine (Lifecycle.step_upload _ _ _ (Lifecycle.startup Sample.defaults)
              Hfresh _).
    intros u _ Hu. by apply elem_of_nil in Hu.
  - exact (Lifecycle.step_other _
             (Lifecycle.mkWorld
                (handleImagesSelected ["item-1"; "item-2"; "item-3"]
                   [Sample.photo; Sample.corrupt; Sample.second_photo]
                   (Lifecycle.app (Lifecycle.startup Sample.defaults))) [])
             SampleApp.app eq_refl).
Defined.

(** The theorem at the start of a batch run in the sample state: the
    three items stay ['pending']. *)
Lemma status_transitions_witness :
  Lifecycle.Reachable Sample.host (Lifecycle.mkWorld SampleApp.app [])
  /\ (exists app' run,
        batch_start SampleApp.app = Some (app', run)
        /\ Lifecycle.Step Sample.host (Lifecycle.mkWorld SampleApp.app [])
             (Lifecycle.mkWorld app' [run])
        /\ map status (images app') = [pending; pending; pending]
        /\ Lifecycle.no_processing (images app')).
Proof.
  split; [exact sample_reachable|].
  eexists _, _. split; [reflexivity|].
  assert (Lifecycle.Step Sample.host (Lifecycle.mkWorld SampleApp.app [])
            (Lifecycle.mkWorld
               (mkApp (images SampleApp.app) (logo SampleApp.app)
                  (logoPreview SampleApp.app) true false None
                  (settings SampleApp.app) (activePreviewId SampleApp.app)
                  (previewResult SampleApp.app) (previewError SampleApp.app))
               [mkRun (images SampleApp.app) Sample.logo (settings SampleApp.app)]))
    as Hstep.
  { by apply (Lifecycle.step_batch_start _ (Lifecycle.mkWorld SampleApp.app [])). }
  split; [exact Hstep|]. split; [reflexivity|].
  exact (proj1 (LifecycleFacts.status_transitions Sample.host _ _
                  sample_reachable Hstep)).
Defined.

(** C4 as stated fails: the start of a batch run does not move the
    items to ['processing']. *)
Lemma batch_start_does_not_mark_processing :
  ~ (forall a a' run,
       batch_start a = Some (a', run) ->
       Forall (fun item => status item = processing) (images a')).
Proof.
  intros claim.
  specialize (claim SampleApp.app _ _ eq_refl).
  apply Forall_cons in claim as [Hfirst _]. discriminate Hfirst.
Qed.

(* ================================================================== *)
(** ** The debounced live preview *)

Lemma change_timer d st :
  Preview.timer (Preview.change d st) = Preview.fresh_timer d st
  /\ Preview.now (Preview.change d st) = Preview.now st
  /\ Preview.invocations (Preview.change d st) = Preview.invocations st
  /\ Preview.in_flight (Preview.change d st) = Preview.in_flight st.
Proof.
  unfold Preview.change, Preview.fresh_timer, Preview.request_of.
  destruct (no_id (Preview.dep_activePreviewId d)); simpl; [done|].
  destruct (Preview.dep_logo d) as [logoFile|]; simpl; [|done].
  by destruct (List.find _ _).
Qed.




Lemma elapse_fires quiet d st0 st r :
  (Preview.debounce_ms <= quiet)%nat ->
  Preview.timer st = Preview.fresh_timer d st0 ->
  Preview.now st = Preview.now st0 ->
  Preview.request_of d = Some r ->
  Preview.invocations (Preview.elapse quiet st) = Preview.invocations st ++ [r]
  /\ Preview.in_flight (Preview.elapse quiet st) = Preview.in_flight st ++ [r]
  /\ Preview.timer (Preview.elapse quiet st) = None.
Proof.
  intros Hquiet Htimer Hnow Hr. unfold Preview.elapse. rewrite Htimer.
  unfold Preview.fresh_timer. rewrite Hr.
  rewrite bool_decide_eq_true_2; [done|]. lia.
Qed.




(** The older result can even replace the newer one on the display: the
    call for the first settings resolves after the call for the second. *)
Example older_result_replaces_newer :
  let st :=
    Preview.elapse 200
      (Preview.change (SampleApp.deps SampleApp.centred)
         (Preview.elapse 200
            (Preview.change (SampleApp.deps Sample.defaults) Preview.initial))) in
  Preview.in_flight st
  = [SampleApp.request Sample.defaults; SampleApp.request SampleApp.centred]
  /\ Preview.previewResult (Preview.settle Sample.host 0 1 st)
     = Some (SampleApp.preview_url SampleApp.centred)
  /\ Preview.previewResult (Preview.settle Sample.host 0 0 (Preview.settle Sample.host 0 1 st))
     = Some (SampleApp.preview_url Sample.defaults)
  /\ SampleApp.preview_url Sample.defaults <> SampleApp.preview_url SampleApp.centred.
Proof.
  cbv zeta.
  split; [vm_compute; reflexivity|].
  split; [vm_compute; reflexivity|].
  split; [vm_compute; reflexivity|].
  vm_compute. intros [=].
Qed.

(* ================================================================== *)
(** ** Further properties of the compositor *)

(* ================================================================== *)
(** ** Further properties of the compositor *)

Lemma paint_canvas_size fuel img logo s c :
  paint fuel img logo s createCanvas = Some (tt, c) ->
  canvas_width c = width img /\ canvas_height c = height img.
Proof.
  unfold paint, mbind, Paint_bind. rewrite paint_source_result.
  destruct (decide (position s = tiled)) as [Hpos|Hpos].
  - rewrite paint_watermark_tiled_unfold by done. simpl.
    match goal with
    | |- context [for_lt ?a ?b ?c ?d ?e ?f] =>
        destruct (for_lt a b c d e f) as [[[] c1]|] eqn:Hloop
    end; [|done].
    intros [= <-]. simpl.
    set (P := fun c : Canvas =>
                canvas_width c = width img /\ canvas_height c = height img).
    apply (for_lt_preserves P) in Hloop; [done| |done].
    intros x c0 c2 HP. apply (for_lt_preserves P); [|exact HP].
    clear. by intros y c c' Hsize [= <-].
  - rewrite paint_watermark_non_tiled by done. by intros [= <-].
Qed.

Lemma composite_loaded_resolved painter host fuel imageFile img logo s url :
  composite_loaded painter host fuel imageFile img logo s = Resolved url ->
  (1 <= width img <= MAX_DIMENSION)%N
  /\ (1 <= height img <= MAX_DIMENSION)%N
  /\ getContext2d host imageFile = true
  /\ exists c,
       painter fuel img logo s createCanvas = Some (tt, c)
       /\ toBlob host c (outputFormat s) = true
       /\ url = mkBlob (canvas_width c) (canvas_height c) (drawn c) (outputFormat s)
                  Number.lit_0_95.
Proof.
  unfold composite_loaded.
  destruct (MAX_DIMENSION <? width img)%N eqn:Hw1; [done|].
  destruct (MAX_DIMENSION <? height img)%N eqn:Hh1; [done|].
  destruct (width img =? 0)%N eqn:Hw0; [done|].
  destruct (height img =? 0)%N eqn:Hh0; [done|].
  destruct (getContext2d host imageFile); [|done]. simpl.
  destruct (painter _ _ _ _ _) as [[[] c]|] eqn:Hpaint; [|done].
  destruct (toBlob host c (outputFormat s)) eqn:Hblob; [|done].
  intros [= <-].
  apply N.ltb_ge in Hw1, Hh1. apply N.eqb_neq in Hw0, Hh0.
  repeat split; try lia. by exists c.
Qed.

Lemma composite_resolved_loaded painter host fuel imageFile logoFile s url :
  composite painter host fuel imageFile logoFile s = Resolved url ->
  exists img logo,
    decoded host imageFile = Some img
    /\ decoded host logoFile = Some logo
    /\ composite_loaded painter host fuel imageFile img logo s = Resolved url.
Proof.
  intros Hrun.
  destruct (composite_resolved _ _ _ _ _ _ _ Hrun) as (img & logo & c & Hi & Hl & _).
  exists img, logo. split; [done|]. split; [done|].
  by rewrite <- (composite_decoded painter host fuel imageFile logoFile s img logo).
Qed.

(** X1. A run that resolves hands back a raster of exactly the size of
    the decoded source (between 1 and 16384 px on each axis), encoded in
    the requested format at quality 0.95, on which the photo was drawn
    first, at (0, 0) and at its natural size. *)
Theorem output_matches_source host fuel imageFile logoFile s url :
  applyWatermarkToImage host fuel imageFile logoFile s = Resolved url ->
  exists img watermark,
    decoded host imageFile = Some img
    /\ (1 <= width img <= MAX_DIMENSION)%N
    /\ (1 <= height img <= MAX_DIMENSION)%N
    /\ blob_width url = width img
    /\ blob_height url = height img
    /\ blob_type url = outputFormat s
    /\ blob_quality url = Number.lit_0_95
    /\ blob_drawn url
       = mkDrawOp img Number.zero Number.zero None (photo_state s) :: watermark.
Proof.
  intros Hrun. unfold applyWatermarkToImage in Hrun.
  apply composite_resolved_loaded in Hrun as (img & logo & Himg & _ & Hrun).
  apply composite_loaded_resolved in Hrun as (Hw & Hh & _ & c & Hpaint & _ & ->).
  destruct (paint_canvas_size _ _ _ _ _ Hpaint) as [Hcw Hch].
  destruct (paint_draws _ _ _ _ _ Hpaint) as (watermark & Hdrawn & _).
  exists img, watermark. simpl. by rewrite Hcw, Hch, Hdrawn.
Qed.

(** The theorem at the sample photo. *)
Lemma output_matches_source_witness :
  applyWatermarkToImage Sample.host 0 Sample.photo Sample.logo Sample.defaults
  = Resolved (SampleApp.preview_url Sample.defaults)
  /\ exists img watermark,
       decoded Sample.host Sample.photo = Some img
       /\ (1 <= width img <= MAX_DIMENSION)%N
       /\ (1 <= height img <= MAX_DIMENSION)%N
       /\ blob_width (SampleApp.preview_url Sample.defaults) = width img
       /\ blob_height (SampleApp.preview_url Sample.defaults) = height img
       /\ blob_type (SampleApp.preview_url Sample.defaults)
          = outputFormat Sample.defaults
       /\ blob_quality (SampleApp.preview_url Sample.defaults) = Number.lit_0_95
       /\ blob_drawn (SampleApp.preview_url Sample.defaults)
          = mkDrawOp img Number.zero Number.zero None (photo_state Sample.defaults)
            :: watermark.
Proof.
  assert (applyWatermarkToImage Sample.host 0 Sample.photo Sample.logo Sample.defaults
          = Resolved (SampleApp.preview_url Sample.defaults)) as Hrun
    by (vm_compute; reflexivity).
  split; [exact Hrun|].
  exact (output_matches_source _ _ _ _ _ _ Hrun).
Defined.

Lemma slider_opacity_is_valid (z : Z) :
  0 <= z <= 100 ->
  valid_alpha (Number.of_Z z / Number.hundred)%js = true.
Proof.
  intros Hz.
  assert (forallb (fun n => valid_alpha (Number.of_Z (Z.of_nat n) / Number.hundred)%js)
            (seq 0 101) = true) as Hall by (vm_compute; reflexivity).
  rewrite forallb_forall in Hall.
  specialize (Hall (Z.to_nat z)). rewrite Z2Nat.id in Hall by lia. apply Hall.
  apply in_seq. lia.
Qed.

(** X2. In a run that resolves, the photo is drawn fully opaque and
    without shadow.  Every draw of the logo uses the alpha
    [opacity / 100] when that is a number from 0 to 1, as it is for
    every whole opacity from 0 to 100; any other value (NaN, infinite,
    below 0 or above 1) is ignored by the context, and the logo is then
    drawn fully opaque.  When the shadow is on the logo is drawn with
    the colour rgba(0, 0, 0, 0.6), a blur of 1% and offsets of 0.3% of
    the larger side of the source, and with no shadow otherwise. *)
Theorem opacity_and_shadow_touch_the_logo_only host fuel imageFile logoFile s url :
  applyWatermarkToImage host fuel imageFile logoFile s = Resolved url ->
  (exists img logo photo watermark,
     decoded host imageFile = Some img
     /\ decoded host logoFile = Some logo
     /\ blob_drawn url = photo :: watermark
     /\ op_image photo = img
     /\ globalAlpha (op_state photo) = Number.one
     /\ shadowColor (op_state photo) = transparent
     /\ Forall
          (fun op =>
             let larger := Number.of_N (N.max (width img) (height img)) in
             let alpha := (opacity s / Number.hundred)%js in
             op_image op = logo
             /\ globalAlpha (op_state op)
                = (if Number.le Number.zero alpha && Number.le alpha Number.one
                   then alpha else Number.one)
             /\ shadowColor (op_state op)
                = (if shadow s then black_60 else transparent)
             /\ shadowBlur (op_state op)
                = (if shadow s then (larger * Number.lit_0_01)%js else Number.zero)
             /\ shadowOffsetX (op_state op)
                = (if shadow s then (larger * Number.lit_0_003)%js else Number.zero)
             /\ shadowOffsetY (op_state op)
                = (if shadow s then (larger * Number.lit_0_003)%js else Number.zero))
          watermark)
  /\ (forall z, 0 <= z <= 100 ->
        let alpha := (Number.of_Z z / Number.hundred)%js in
        Number.le Number.zero alpha && Number.le alpha Number.one = true)
  /\ (let alpha := (Number.of_Z 150 / Number.hundred)%js in
      Number.le Number.zero alpha && Number.le alpha Number.one = false).
Proof.
  intros Hrun. split; [|split; [exact slider_opacity_is_valid|]]; cycle 1.
  { vm_compute. reflexivity. }
  unfold applyWatermarkToImage in Hrun.
  apply composite_resolved in Hrun as (img & logo & c & Himg & Hlogo & Hpaint & ->).
  destruct (paint_draws _ _ _ _ _ Hpaint) as (watermark & Hdrawn & Hall).
  exists img, logo, (photo_op img s), watermark. simpl.
  repeat split; try done.
  eapply Forall_impl; [exact Hall|]. simpl. by intros op [-> ->].
Qed.

(** The theorem at the second sample photo, tiled, with the shadow on
    and the opacity at 80. *)
Lemma opacity_and_shadow_touch_the_logo_only_witness :
  applyWatermarkToImage Sample.host 5 Sample.second_photo Sample.logo
    Sample.tiled_settings
  = Resolved SampleMore.tiled_url
  /\ Forall (fun op => globalAlpha (op_state op)
                       = (Number.of_Z 80 / Number.hundred)%js
                       /\ shadowColor (op_state op) = black_60
                       /\ shadowBlur (op_state op) = Number.of_Z 1)
       (tail (blob_drawn SampleMore.tiled_url)).
Proof.
  assert (applyWatermarkToImage Sample.host 5 Sample.second_photo Sample.logo
            Sample.tiled_settings
          = Resolved SampleMore.tiled_url) as Hrun by (vm_compute; reflexivity).
  split; [exact Hrun|].
  pose proof (proj1 (opacity_and_shadow_touch_the_logo_only Sample.host 5
                       Sample.second_photo Sample.logo Sample.tiled_settings
                       SampleMore.tiled_url Hrun)) as Hthm.
  destruct Hthm as (img & logo & photo & watermark & Himg & _ & Hdrawn & _ & _ & _ & Hall).
  rewrite Hdrawn. simpl tail.
  assert (img = mkImage "100x50" 100 50) as ->.
  { apply (inj Some). rewrite <- Himg. vm_compute. reflexivity. }
  eapply Forall_impl; [exact Hall|]. cbv zeta.
  intros op (_ & Halpha & Hcolour & Hblur & _). rewrite Halpha, Hcolour, Hblur.
  repeat split; vm_compute; reflexivity.
Defined.

(** A run with the opacity at 150: the assignment of 1.5 is ignored and
    the logo is drawn with alpha 1. *)
Example opacity_above_the_range :
  let s := mkSettings (Number.of_Z 150) (Number.of_Z 20) center (Number.of_Z 3)
             image_png false Number.hundred Number.hundred Number.hundred in
  option_map (map (fun op => globalAlpha (op_state op)))
    (match applyWatermarkToImage Sample.host 0 Sample.photo Sample.logo s with
     | Resolved url => Some (blob_drawn url)
     | _ => None
     end)
  = Some [Number.one; Number.one].
Proof. vm_compute. reflexivity. Qed.

Lemma rejection_is_listed host fuel imageFile logoFile s e :
  applyWatermarkToImage host fuel imageFile logoFile s = Rejected e ->
  exists m,
    e = JSError m
    /\ m ∈ rejection_messages imageFile logoFile (decoded host imageFile).
Proof.
  unfold applyWatermarkToImage, composite, decoded, readFileAsDataURL, loadImage.
  destruct (fileReader host imageFile) as [isrc|],
           (fileReader host logoFile) as [lsrc|]; simpl.
  - destruct (imageDecoder host isrc) as [[w h]|],
             (imageDecoder host lsrc) as [[lw lh]|]; simpl.
    + unfold composite_loaded.
      destruct (_ || _); [intros [= <-]; eexists; split; [done|pick_message]|].
      destruct (_ || _); [intros [= <-]; eexists; split; [done|pick_message]|].
      destruct (negb _); [intros [= <-]; eexists; split; [done|pick_message]|].
      destruct (paint _ _ _ _ _) as [[[] c]|]; [|done].
      destruct (toBlob _ _ _); [done|].
      intros [= <-]. eexists. split; [done|pick_message].
    + intros [= <-]. eexists. split; [done|pick_message].
    + intros [= <-]. eexists. split; [done|pick_message].
    + destruct (decodeRace host imageFile logoFile);
        intros [= <-]; eexists; (split; [done|pick_message]).
  - intros [= <-]. eexists. split; [done|pick_message].
  - intros [= <-]. eexists. split; [done|pick_message].
  - destruct (readRace host imageFile logoFile);
      intros [= <-]; eexists; (split; [done|pick_message]).
Qed.

(** X3. Whenever the compositor rejects, it rejects with an [Error]
    whose message is one of eight: the source or the logo could not be
    read, the source or the logo could not be decoded (each naming the
    file), the decoded source is too large or has a zero side, no
    drawing context could be created, or the canvas could not be
    encoded. *)
Theorem rejection_names_its_cause host fuel imageFile logoFile s e :
  applyWatermarkToImage host fuel imageFile logoFile s = Rejected e ->
  exists m,
    e = JSError m
    /\ m ∈ rejection_messages imageFile logoFile (decoded host imageFile).
Proof.
  apply rejection_is_listed.
Qed.

(** The theorem at the corrupt sample file. *)
Lemma rejection_names_its_cause_witness :
  applyWatermarkToImage Sample.host 0 Sample.corrupt Sample.logo Sample.defaults
  = Rejected (JSError (load_failed_message "broken.jpg"))
  /\ exists m,
       JSError (load_failed_message "broken.jpg") = JSError m
       /\ m ∈ rejection_messages Sample.corrupt Sample.logo
                (decoded Sample.host Sample.corrupt).
Proof.
  assert (applyWatermarkToImage Sample.host 0 Sample.corrupt Sample.logo
            Sample.defaults
          = Rejected (JSError (load_failed_message "broken.jpg"))) as Hrun
    by (vm_compute; reflexivity).
  split; [exact Hrun|].
  exact (rejection_names_its_cause _ _ _ _ _ _ Hrun).
Defined.

Lemma composite_loaded_early_rejection host fuel imageFile img logo s e :
  composite_loaded paint host fuel imageFile img logo s = Rejected e ->
  e <> JSError (encode_failed_message imageFile) ->
  forall fuel' s',
    composite_loaded paint host fuel' imageFile img logo s' = Rejected e.
Proof.
  unfold composite_loaded. intros Hrun He fuel' s'.
  destruct (_ || _); [done|].
  destruct (_ || _); [done|].
  destruct (negb _); [done|].
  destruct (paint fuel img logo s createCanvas) as [[[] c]|]; [|done].
  destruct (toBlob _ _ _); [done|]. by injection Hrun as <-.
Qed.

(** X4. A rejection for any cause but the encoding of the canvas (the
    files cannot be read or decoded, the source has a bad size, there
    is no drawing context) does not depend on the settings: the same
    call with any other settings rejects in the same way. *)
Theorem early_rejection_ignores_settings host fuel imageFile logoFile s e :
  applyWatermarkToImage host fuel imageFile logoFile s = Rejected e ->
  e <> JSError (encode_failed_message imageFile) ->
  forall fuel' s',
    applyWatermarkToImage host fuel' imageFile logoFile s' = Rejected e.
Proof.
  unfold applyWatermarkToImage, composite. intros Hrun He fuel' s'.
  destruct (promise_all2 (readRace _ _ _) _ _) as [[imageSrc logoSrc]|e1|];
    simpl in *; [|done..].
  destruct (promise_all2 (decodeRace _ _ _) _ _) as [[img logo]|e2|];
    simpl in *; [|done..].
  by eapply composite_loaded_early_rejection.
Qed.

(** The theorem at the 0 x 20000 sample source. *)
Lemma early_rejection_ignores_settings_witness :
  applyWatermarkToImage Sample.host 0 Sample.tall Sample.logo Sample.defaults
  = Rejected (JSError (too_large_message Sample.tall (mkImage "0x20000" 0 20000)))
  /\ JSError (too_large_message Sample.tall (mkImage "0x20000" 0 20000))
     <> JSError (encode_failed_message Sample.tall)
  /\ applyWatermarkToImage Sample.host 7 Sample.tall Sample.logo Sample.tiled_settings
     = Rejected (JSError (too_large_message Sample.tall (mkImage "0x20000" 0 20000))).
Proof.
  assert (applyWatermarkToImage Sample.host 0 Sample.tall Sample.logo Sample.defaults
          = Rejected (JSError (too_large_message Sample.tall
                                 (mkImage "0x20000" 0 20000)))) as Hrun
    by (vm_compute; reflexivity).
  assert (JSError (too_large_message Sample.tall (mkImage "0x20000" 0 20000))
          <> JSError (encode_failed_message Sample.tall)) as Hne
    by (intros [=]).
  split; [exact Hrun|]. split; [exact Hne|].
  exact (early_rejection_ignores_settings _ _ _ _ _ _ Hrun Hne 7%nat
           Sample.tiled_settings).
Defined.

(** *** A logo of height 0 in tiled mode *)

Lemma zero_over_positive (y : number) :
  (Number.zero <? y)%js = true -> (Number.of_N 0 / y)%js = Number.zero.
Proof. by destruct y as [[]|[]| |[] m e]. Qed.

Lemma finite_times_zero (x : number) :
  Number.is_finite x = true ->
  exists sign, (x * Number.zero)%js = S754_zero sign.
Proof. destruct x as [sx|sx| |sx m e]; try done; by eexists. Qed.

Lemma zero_plus_zero sign : (Number.zero + S754_zero sign)%js = Number.zero.
Proof. by destruct sign. Qed.

(** X6. In tiled mode a logo of height 0 (and of a positive width)
    makes the vertical step 0, so the inner loop never leaves the first
    row: on a valid source the call never settles, however many
    iterations are allowed. *)
Theorem flat_logo_never_finishes_tiling host fuel imageFile logoFile s img logo :
  decoded host imageFile = Some img ->
  decoded host logoFile = Some logo ->
  (1 <= width img <= MAX_DIMENSION)%N ->
  (1 <= height img <= MAX_DIMENSION)%N ->
  getContext2d host imageFile = true ->
  position s = tiled ->
  height logo = 0%N ->
  (1 <= width logo <= MAX_DIMENSION)%N ->
  Number.is_finite (logoWidth img s * Number.lit_1_5)%js = true ->
  applyWatermarkToImage host fuel imageFile logoFile s = Unsettled.
Proof.
  intros Himg Hlogo Hw Hh Hctx Hpos Hflat Hlw Hgap.
  unfold applyWatermarkToImage.
  rewrite (composite_decoded _ _ _ _ _ _ img logo) by done.
  rewrite composite_loaded_valid by done. rewrite Hctx. simpl negb. cbv iota.
  assert (paint fuel img logo s createCanvas = None) as ->; [|done].
  unfold paint, mbind, Paint_bind. rewrite paint_source_result.
  rewrite paint_watermark_tiled_unfold by done.
  assert ((logoWidth img s * Number.lit_1_5 * aspectRatio logo)%js
          = S754_zero false \/
          (logoWidth img s * Number.lit_1_5 * aspectRatio logo)%js
          = S754_zero true) as Hstep.
  { unfold aspectRatio. rewrite Hflat.
    rewrite zero_over_positive by (by apply positive_dimension).
    destruct (finite_times_zero _ Hgap) as [[] ->]; auto. }
  destruct fuel as [|fuel]; [done|].
  rewrite for_lt_body_diverges; [done|by apply positive_dimension|].
  apply for_lt_stuck; [by apply positive_dimension| |].
  - destruct Hstep as [-> | ->]; apply zero_plus_zero.
  - intros c. by eexists.
Qed.

(** The theorem at a 100 x 0 logo on the second sample photo. *)
Lemma flat_logo_never_finishes_tiling_witness :
  decoded Sample.host Sample.second_photo = Some (mkImage "100x50" 100 50)
  /\ decoded Sample.host SampleMore.thin_logo = Some (mkImage "100x0" 100 0)
  /\ position Sample.tiled_settings = tiled
  /\ Number.is_finite
       (logoWidth (mkImage "100x50" 100 50) Sample.tiled_settings
        * Number.lit_1_5)%js = true
  /\ applyWatermarkToImage Sample.host 1000 Sample.second_photo SampleMore.thin_logo
       Sample.tiled_settings = Unsettled.
Proof.
  split; [reflexivity|]. split; [reflexivity|]. split; [reflexivity|].
  split; [vm_compute; reflexivity|].
  exact (flat_logo_never_finishes_tiling Sample.host 1000 Sample.second_photo
           SampleMore.thin_logo Sample.tiled_settings
           (mkImage "100x50" 100 50) (mkImage "100x0" 100 0)
           eq_refl eq_refl ltac:(vm_compute; intuition discriminate)
           ltac:(vm_compute; intuition discriminate) eq_refl eq_refl eq_refl
           ltac:(vm_compute; intuition discriminate) eq_refl).
Defined.

(* ================================================================== *)
(** ** Further properties of the orchestrator *)

Lemma unreadable_logo_rejects host fuel imageFile logoFile s :
  fileReader host logoFile = None ->
  fileReader host imageFile <> None ->
  applyWatermarkToImage host fuel imageFile logoFile s
  = Rejected (JSError ("Unable to read logo file: " +:+ read_failed_message logoFile)).
Proof.
  intros Hlogo Himg.
  unfold applyWatermarkToImage, composite, readFileAsDataURL. rewrite Hlogo.
  by destruct (fileReader host imageFile).
Qed.

(** X7. Selecting a logo: an empty selection changes nothing; of
    several files only the first counts; it becomes the logo at once and
    its data URL the logo preview.  When the file cannot be read the
    handler rejects with the reader's error, the file is the logo all
    the same while the preview stays as it was, and a batch callback
    then ends every readable item in ['error'] with the message that the
    logo file could not be read. *)
Theorem logo_selection host fuel app :
  handleLogoSelected host [] app = (app, None)
  /\ (forall file rest,
        handleLogoSelected host (file :: rest) app
        = handleLogoSelected host [file] app)
  /\ (forall file rest url,
        fileReader host file = Some url ->
        handleLogoSelected host (file :: rest) app
        = (mkApp (images app) (Some file) (Some url) (isProcessing app)
             (showConfirmModal app) (batchErrorResults app) (settings app)
             (activePreviewId app) (previewResult app) (previewError app), None))
  /\ (forall file rest,
        fileReader host file = None ->
        exists app',
          handleLogoSelected host (file :: rest) app
          = (app', Some (JSError (read_failed_message file)))
          /\ logo app' = Some file
          /\ logoPreview app' = logoPreview app
          /\ images app' = images app
          /\ settings app' = settings app
          /\ forall img,
               fileReader host (originalFile img) <> None ->
               processItem host fuel file (settings app') img
               = Resolved (mkItem (id img) (originalFile img) (previewUrl img) error
                             (Some ("Unable to read logo file: "
                                    +:+ read_failed_message file)))).
Proof.
  split; [done|]. split; [done|]. split.
  - intros file rest url Hread. unfold handleLogoSelected, readFileAsDataURL.
    by rewrite Hread.
  - intros file rest Hread. eexists. split.
    + unfold handleLogoSelected, readFileAsDataURL. by rewrite Hread.
    + simpl. repeat split.
      intros img Himg. unfold processItem.
      by rewrite unreadable_logo_rejects.
Qed.

(** A file the sample host cannot read is selected as logo: the first
    item of the sample state would fail on it. *)
Example locked_logo_fails_the_batch :
  let app' := fst (handleLogoSelected Sample.host [SampleMore.locked_logo]
                     SampleApp.app) in
  logo app' = Some SampleMore.locked_logo
  /\ logoPreview app' = logoPreview SampleApp.app
  /\ option_map (map status)
       (match executeBatchProcessing Sample.host 0 app' with
        | Resolved a => Some (images a)
        | _ => None
        end) = Some [error; error; error].
Proof. cbv zeta. split; [reflexivity|]. split; [reflexivity|]. vm_compute. reflexivity. Qed.

(** What a batch callback resolves with: an item that is ['done'] with
    a URL and no message, or in ['error'] with a message. *)
Lemma processItem_shape host fuel logoFile s img item :
  processItem host fuel logoFile s img = Resolved item ->
  (status item = done /\ errorMessage item = None /\ exists url, previewUrl item = Some url)
  \/ (status item = error /\ previewUrl item = previewUrl img
      /\ exists m, errorMessage item = Some m /\ m <> "").
Proof.
  unfold processItem.
  destruct (applyWatermarkToImage _ _ _ _ _) as [url|e|] eqn:Hrun; [| |done].
  - intros [= <-]. left. simpl. eauto.
  - destruct (rejection_has_message _ _ _ _ _ _ Hrun) as (m & -> & Hm).
    intros [= <-]. right. simpl. eauto.
Qed.

Lemma processed_shape host fuel run processed :
  batch_processed host fuel run = Resolved processed ->
  Forall (fun item =>
            (status item = done /\ exists url, previewUrl item = Some url)
            \/ (status item = error /\ exists m, errorMessage item = Some m /\ m <> ""))
    processed.
Proof.
  unfold batch_processed. intros Hall%promise_all_inv.
  apply Forall2_fmap_l in Hall.
  induction Hall as [|img item l l' Hitem _ IH]; constructor; [|done].
  apply processItem_shape in Hitem as [(? & _ & ?)|(? & _ & ?)]; auto.
Qed.

Lemma done_plus_error l :
  Forall (fun item => status item = done \/ status item = error) l ->
  (count_status done l + count_status error l)%nat = length l.
Proof.
  unfold count_status. induction 1 as [|x l [Hx|Hx] _ IH]; simpl; [done|..];
    rewrite Hx; simpl; lia.
Qed.

Lemma failures_carry_the_messages l :
  Forall (fun item =>
            (status item = done /\ exists url, previewUrl item = Some url)
            \/ (status item = error /\ exists m, errorMessage item = Some m /\ m <> ""))
    l ->
  Forall2 (fun item failure =>
             failure_id failure = id item
             /\ failure_name failure = name (originalFile item)
             /\ errorMessage item = Some (failure_error failure))
    (List.filter (fun item => bool_decide (status item = error)) l)
    (collect_failures l).
Proof.
  unfold collect_failures.
  induction 1 as [|x l [[Hx _]|[Hx (m & Hm & Hne)]] _ IH]; simpl; [constructor|..];
    rewrite Hx; simpl; [done|].
  constructor; [|done]. simpl. rewrite Hm. unfold error_or_unknown.
  by destruct (decide (m = "")).
Qed.

Lemma run_inv host fuel app app' :
  executeBatchProcessing host fuel app = Resolved app' ->
  logo app <> None ->
  images app <> [] ->
  exists logoFile processed,
    logo app = Some logoFile
    /\ batch_processed host fuel (mkRun (images app) logoFile (settings app))
       = Resolved processed
    /\ app' = batch_finish processed
                (mkApp (images app) (logo app) (logoPreview app) true false None
                   (settings app) (activePreviewId app) (previewResult app)
                   (previewError app)).
Proof.
  intros Hrun Hlogo Hne. destruct (logo app) as [logoFile|] eqn:Hl; [|done].
  unfold executeBatchProcessing in Hrun.
  rewrite (batch_start_some _ logoFile) in Hrun by done.
  destruct (batch_processed _ _ _) as [processed| |] eqn:Hall; simpl in Hrun;
    [|done..].
  injection Hrun as <-. exists logoFile, processed. by rewrite Hl.
Qed.

(** X8. The report of a completed batch run.  Every item ends ['done']
    or in ['error']; there is a report exactly when an item is in
    ['error']; its total is the number of items, its success count the
    number of ['done'] items, and its failures are the items in
    ['error'], in order, each with its id, its file name and the very
    message the item carries (the fallback text is never used). *)
Theorem report_matches_the_items host fuel app app' :
  executeBatchProcessing host fuel app = Resolved app' ->
  logo app <> None ->
  images app <> [] ->
  length (images app') = length (images app)
  /\ (count_status done (images app') + count_status error (images app'))%nat
     = length (images app)
  /\ (batchErrorResults app' = None <-> count_status error (images app') = 0%nat)
  /\ forall report,
       batchErrorResults app' = Some report ->
       total report = length (images app)
       /\ success report = count_status done (images app')
       /\ length (failures report) = count_status error (images app')
       /\ Forall2 (fun item failure =>
                     failure_id failure = id item
                     /\ failure_name failure = name (originalFile item)
                     /\ errorMessage item = Some (failure_error failure))
            (List.filter (fun item => bool_decide (status item = error)) (images app'))
            (failures report).
Proof.
  intros Hrun Hlogo Hne.
  destruct (run_inv _ _ _ _ Hrun Hlogo Hne) as (logoFile & processed & _ & Hall & ->).
  pose proof (processed_shape _ _ _ _ Hall) as Hshape.
  pose proof (LifecycleFacts.processed_statuses _ _ _ _ Hall) as Hst.
  pose proof (LifecycleFacts.processed_ids _ _ _ _ Hall) as Hids.
  pose proof (done_plus_error _ Hst) as Hsum.
  pose proof (failures_carry_the_messages _ Hshape) as Hfail.
  assert (length processed = length (images app)) as Hlen.
  { apply (f_equal length) in Hids. unfold Lifecycle.ids in Hids.
    by rewrite !length_map in Hids. }
  assert (length (collect_failures processed) = count_status error processed)
    as Hcount.
  { unfold collect_failures, count_status. by rewrite length_map. }
  simpl. rewrite Hcount.
  split; [done|]. split; [lia|]. split.
  - destruct (bool_decide_reflect (0 < count_status error processed)%nat);
      split; try done; lia.
  - intros report.
    destruct (bool_decide (0 < count_status error processed)%nat); [|done].
    intros [= <-]. simpl. rewrite Hcount. repeat split; try done; lia.
Qed.

(** The theorem at the sample state, whose second item is corrupt. *)
Lemma report_matches_the_items_witness :
  executeBatchProcessing Sample.host 0 SampleApp.app = Resolved SampleMore.after_run
  /\ logo SampleApp.app <> None
  /\ images SampleApp.app <> []
  /\ (count_status done (images SampleMore.after_run)
      + count_status error (images SampleMore.after_run))%nat = 3%nat
  /\ option_map total (batchErrorResults SampleMore.after_run) = Some 3%nat.
Proof.
  assert (executeBatchProcessing Sample.host 0 SampleApp.app
          = Resolved SampleMore.after_run) as Hrun by (vm_compute; reflexivity).
  assert (logo SampleApp.app <> None) as Hlogo by discriminate.
  assert (images SampleApp.app <> []) as Hne by discriminate.
  split; [exact Hrun|]. split; [exact Hlogo|]. split; [exact Hne|].
  split.
  - exact (proj1 (proj2 (report_matches_the_items _ _ _ _ Hrun Hlogo Hne))).
  - vm_compute. reflexivity.
Defined.

Lemma downloads_length_from s (h : nat -> nat) l :
  length (omap (fun '(index, img) =>
                  match status img, previewUrl img with
                  | done, Some url =>
                      Some (mkDownload (index * 200)%nat url
                              (download_name (outputFormat s) (name (originalFile img))))
                  | _, _ => None
                  end)
            (imap (fun index img => (h index, img)) l))
  = length (List.filter
              (fun img => bool_decide (status img = done)
                          && bool_decide (previewUrl img <> None)) l).
Proof.
  revert h. induction l as [|x l IH]; intros h; [done|].
  rewrite imap_cons. cbn [omap list_omap List.filter].
  specialize (IH (fun index => h (S index))).
  change (imap ((fun index img => (h index, img)) ∘ S) l)
    with (imap (fun index img => (h (S index), img)) l).
  destruct (status x), (previewUrl x); simpl; by rewrite ?IH.
Qed.

Lemma downloads_length s l :
  length (schedule_downloads s l)
  = length (List.filter
              (fun img => bool_decide (status img = done)
                          && bool_decide (previewUrl img <> None)) l).
Proof. apply (downloads_length_from s (fun i => i)). Qed.

Lemma download_slot s l d :
  d ∈ schedule_downloads s l ->
  exists i img url,
    l !! i = Some img /\ status img = done /\ previewUrl img = Some url
    /\ delay_ms d = (i * 200)%nat /\ href d = url.
Proof.
  unfold schedule_downloads. intros ([i img] & Hin & Hd)%list_elem_of_omap.
  apply elem_of_lookup_imap in Hin as (i' & img' & [= -> ->] & Himg).
  destruct (status img') eqn:Hst; try done.
  destruct (previewUrl img') as [url|] eqn:Hurl; [|done].
  injection Hd as <-. by exists i', img', url.
Qed.

(** X9. The downloads of a completed batch run: there are as many as
    there are items ['done'] (the success count of the report); the
    download of the item at index [i] is due [i * 200] ms after the
    run; and an item in ['error'] gets none, even when it still carries
    the URL of an earlier run. *)
Theorem downloads_of_a_run host fuel app app' :
  executeBatchProcessing host fuel app = Resolved app' ->
  logo app <> None ->
  images app <> [] ->
  let downloads := schedule_downloads (settings app) (images app') in
  length downloads = count_status done (images app')
  /\ (forall d, d ∈ downloads ->
        exists i img,
          images app' !! i = Some img /\ status img = done
          /\ previewUrl img = Some (href d) /\ delay_ms d = (i * 200)%nat)
  /\ (forall i img,
        images app' !! i = Some img -> status img = error ->
        forall d, d ∈ downloads -> delay_ms d <> (i * 200)%nat).
Proof.
  intros Hrun Hlogo Hne downloads. subst downloads.
  destruct (run_inv _ _ _ _ Hrun Hlogo Hne) as (logoFile & processed & _ & Hall & ->).
  pose proof (processed_shape _ _ _ _ Hall) as Hshape. simpl. clear Hall Hrun.
  split; [|split].
  - rewrite downloads_length. unfold count_status.
    induction Hshape as [|x l [[Hx [url Hurl]]|[Hx _]] _ IH]; simpl; [done|..];
      rewrite Hx; simpl; [rewrite Hurl; simpl|]; by rewrite IH.
  - intros d (i & img & url & Himg & Hst & Hurl & Hdelay & Hhref)%download_slot.
    exists i, img. by rewrite Hhref.
  - intros i img Himg Hst d (j & img' & url & Himg' & Hst' & _ & Hdelay & _)%download_slot.
    rewrite Hdelay. intros Heq. assert (j = i) as -> by lia.
    rewrite Himg in Himg'. injection Himg' as <-. by rewrite Hst in Hst'.
Qed.

(** The theorem at the sample state: two downloads, due at 0 and at 400
    ms; none for the corrupt item at index 1. *)
Lemma downloads_of_a_run_witness :
  executeBatchProcessing Sample.host 0 SampleApp.app = Resolved SampleMore.after_run
  /\ logo SampleApp.app <> None
  /\ images SampleApp.app <> []
  /\ length (schedule_downloads (settings SampleApp.app)
               (images SampleMore.after_run))
     = count_status done (images SampleMore.after_run)
  /\ map delay_ms (schedule_downloads (settings SampleApp.app)
                     (images SampleMore.after_run)) = [0; 400]%nat.
Proof.
  assert (executeBatchProcessing Sample.host 0 SampleApp.app
          = Resolved SampleMore.after_run) as Hrun by (vm_compute; reflexivity).
  assert (logo SampleApp.app <> None) as Hlogo by discriminate.
  assert (images SampleApp.app <> []) as Hne by discriminate.
  split; [exact Hrun|]. split; [exact Hlogo|]. split; [exact Hne|].
  split.
  - exact (proj1 (downloads_of_a_run _ _ _ _ Hrun Hlogo Hne)).
  - vm_compute. reflexivity.
Defined.

Lemma processItem_again host fuel logoFile s img item :
  processItem host fuel logoFile s img = Resolved item ->
  processItem host fuel logoFile s item = Resolved item.
Proof.
  unfold processItem.
  destruct (applyWatermarkToImage host fuel (originalFile img) logoFile s)
    as [url|e|] eqn:Hrun; [| |done]; intros [= <-]; simpl; by rewrite Hrun.
Qed.

Lemma batch_processed_again host fuel l logoFile s processed :
  batch_processed host fuel (mkRun l logoFile s) = Resolved processed ->
  batch_processed host fuel (mkRun processed logoFile s) = Resolved processed.
Proof.
  unfold batch_processed. simpl. intros Hall%promise_all_inv.
  apply Forall2_fmap_l in Hall.
  induction Hall as [|img item l0 l' Hitem _ IH]; simpl; [done|].
  by rewrite (processItem_again _ _ _ _ _ _ Hitem), IH.
Qed.

(** X10. Running the batch again on the state a run has produced, with
    the browser behaving as before, gives that state again: every item
    keeps its outcome, and the report is the same. *)
Theorem rerun_gives_the_same_state host fuel app app' :
  executeBatchProcessing host fuel app = Resolved app' ->
  executeBatchProcessing host fuel app' = Resolved app'.
Proof.
  intros Hrun.
  destruct (logo app) as [logoFile|] eqn:Hlogo; cycle 1.
  { assert (executeBatchProcessing host fuel app = Resolved app) as Hsame
      by (unfold executeBatchProcessing, batch_start; by rewrite Hlogo).
    rewrite Hsame in Hrun. by injection Hrun as <-. }
  destruct (decide (images app = [])) as [Hempty|Hne].
  { assert (executeBatchProcessing host fuel app = Resolved app) as Hsame
      by (unfold executeBatchProcessing, batch_start; by rewrite Hlogo, Hempty).
    rewrite Hsame in Hrun. by injection Hrun as <-. }
  destruct (run_inv _ _ _ _ Hrun) as (logoFile' & processed & Hl & Hall & ->);
    [by rewrite Hlogo|done|].
  rewrite Hlogo in Hl. injection Hl as <-.
  assert (processed <> []) as Hne'.
  { intros ->. apply LifecycleFacts.processed_ids in Hall.
    by destruct (images app). }
  unfold executeBatchProcessing.
  rewrite (batch_start_some _ logoFile) by done. simpl.
  rewrite (batch_processed_again _ _ _ _ _ _ Hall). simpl.
  unfold batch_finish. simpl. by destruct (bool_decide _).
Qed.

(** The theorem at the sample state. *)
Lemma rerun_gives_the_same_state_witness :
  executeBatchProcessing Sample.host 0 SampleApp.app = Resolved SampleMore.after_run
  /\ executeBatchProcessing Sample.host 0 SampleMore.after_run
     = Resolved SampleMore.after_run.
Proof.
  assert (executeBatchProcessing Sample.host 0 SampleApp.app
          = Resolved SampleMore.after_run) as Hrun by (vm_compute; reflexivity).
  split; [exact Hrun|].
  exact (rerun_gives_the_same_state _ _ _ _ Hrun).
Defined.

(** X11. The process button.  Up to 10 images it does what
    [executeBatchProcessing] does; above 10 (with a logo) it only opens
    the confirmation and processes nothing; proceeding from the
    confirmation gives exactly the run the button would have started,
    which closes the confirmation; cancelling undoes the opening. *)
Theorem process_click_asks_first_above_ten host fuel app :
  ((length (images app) <= 10)%nat ->
   handleProcessClick host fuel app = executeBatchProcessing host fuel app)
  /\ ((10 < length (images app))%nat -> logo app <> None ->
      handleProcessClick host fuel app = Resolved (setShowConfirmModal true app)
      /\ images (setShowConfirmModal true app) = images app
      /\ isProcessing (setShowConfirmModal true app) = isProcessing app
      /\ executeBatchProcessing host fuel (setShowConfirmModal true app)
         = executeBatchProcessing host fuel app
      /\ (forall app',
            executeBatchProcessing host fuel (setShowConfirmModal true app)
            = Resolved app' -> showConfirmModal app' = false)
      /\ (showConfirmModal app = false ->
          setShowConfirmModal false (setShowConfirmModal true app) = app)).
Proof.
  split.
  - intros Hle. unfold handleProcessClick, executeBatchProcessing, batch_start.
    destruct (logo app); [|done].
    destruct (bool_decide (length (images app) = 0%nat)); [done|].
    rewrite bool_decide_eq_false_2 by lia. done.
  - intros Hgt Hlogo. destruct (logo app) as [logoFile|] eqn:Hl; [|done].
    assert (images app <> []) as Hne by (destruct (images app); [simpl in Hgt; lia|done]).
    repeat split.
    + unfold handleProcessClick. rewrite Hl.
      rewrite bool_decide_eq_false_2 by lia.
      by rewrite bool_decide_eq_true_2 by lia.
    + unfold executeBatchProcessing.
      by rewrite !(batch_start_some _ logoFile).
    + intros app'. unfold executeBatchProcessing.
      rewrite (batch_start_some _ logoFile) by done. simpl.
      destruct (batch_processed _ _ _); simpl; [|done..]. by intros [= <-].
    + intros Hclosed. destruct app. simpl in *. by subst.
Qed.

(* ================================================================== *)
(** ** Selecting, removing and clearing *)

Lemma uploaded_files fresh files :
  length fresh = length files ->
  map originalFile
    (map (fun '(uuid, file) => mkItem uuid file None pending None) (zip fresh files))
  = files.
Proof.
  revert files. induction fresh as [|u fresh IH]; intros [|f files]; simpl; try done.
  intros [= Hlen]. by rewrite IH.
Qed.

Lemma uploaded_pending fresh files :
  Forall (fun item => status item = pending /\ previewUrl item = None
                      /\ errorMessage item = None)
    (map (fun '(uuid, file) => mkItem uuid file None pending None) (zip fresh files)).
Proof.
  apply Forall_forall. by intros item ([uuid file] & -> & _)%list_elem_of_fmap.
Qed.

(** X12. Selecting photos: the items already listed stay as they are
    and in place; one item per selected file is appended, in the order
    of the selection, each with its own fresh identifier, ['pending'],
    with no result and no message; the first new item becomes the
    previewed one only when nothing was previewed before.  The uploader
    hands over a selection only when it is not empty, and an empty one
    changes nothing. *)
Theorem upload_appends_pending_items fresh files app :
  length fresh = length files ->
  let app' := handleImagesSelected fresh files app in
  let added := drop (length (images app)) (images app') in
  take (length (images app)) (images app') = images app
  /\ map originalFile added = files
  /\ Lifecycle.ids added = fresh
  /\ Forall (fun item => status item = pending /\ previewUrl item = None
                         /\ errorMessage item = None) added
  /\ activePreviewId app'
     = match fresh with
       | first :: _ => if no_id (activePreviewId app) then Some first
                       else activePreviewId app
       | [] => activePreviewId app
       end
  /\ (logo app', settings app', isProcessing app', batchErrorResults app',
      previewResult app')
     = (logo app, settings app, isProcessing app, batchErrorResults app,
        previewResult app)
  /\ deliver_files (handleImagesSelected []) (Some []) app = app
  /\ deliver_files (handleImagesSelected []) None app = app
  /\ handleImagesSelected [] [] app = app
  /\ (files <> [] ->
      deliver_files (handleImagesSelected fresh) (Some files) app = app').
Proof.
  intros Hlen app' added. subst app' added. simpl.
  rewrite take_app_length, drop_app_length.
  split; [done|]. split; [by apply uploaded_files|].
  split; [rewrite LifecycleFacts.uploaded_ids, <- Hlen; apply firstn_all|].
  split; [apply uploaded_pending|].
  split; [destruct fresh, files; done|].
  split; [done|]. split; [done|]. split; [done|].
  split; [destruct app; unfold handleImagesSelected; simpl; by rewrite app_nil_r|].
  by destruct files.
Qed.

(** The theorem at two files selected in the sample state, where the
    first item is being previewed. *)
Lemma upload_appends_pending_items_witness :
  length ["item-4"; "item-5"] = length [Sample.tall; Sample.second_photo]
  /\ map originalFile
       (drop 3 (images (handleImagesSelected ["item-4"; "item-5"]
                          [Sample.tall; Sample.second_photo] SampleApp.app)))
     = [Sample.tall; Sample.second_photo].
Proof.
  split; [reflexivity|].
  exact (proj1 (proj2 (upload_appends_pending_items ["item-4"; "item-5"]
                         [Sample.tall; Sample.second_photo] SampleApp.app eq_refl))).
Defined.

Lemma filter_other_ids target (l : list ProcessedImage) :
  target ∉ Lifecycle.ids l ->
  List.filter (fun img => negb (bool_decide (id img = target))) l = l.
Proof.
  unfold Lifecycle.ids. induction l as [|x l IH]; simpl; [done|].
  intros Hnot. apply not_elem_of_cons in Hnot as [Hx Hl].
  rewrite bool_decide_eq_false_2 by done. simpl. by rewrite IH.
Qed.

Lemma filter_one_id target (l : list ProcessedImage) :
  NoDup (Lifecycle.ids l) -> target ∈ Lifecycle.ids l ->
  S (length (List.filter (fun img => negb (bool_decide (id img = target))) l))
  = length l.
Proof.
  unfold Lifecycle.ids. induction l as [|x l IH]; simpl.
  - by intros _ ?%elem_of_nil.
  - intros [Hx Hl]%NoDup_cons Hin.
    destruct (decide (id x = target)) as [Heq|Hne].
    + rewrite bool_decide_eq_true_2 by done. simpl.
      rewrite filter_other_ids; [done|]. by rewrite <- Heq.
    + rewrite bool_decide_eq_false_2 by done. simpl.
      apply elem_of_cons in Hin as [Hin|Hin]; [by destruct Hne|].
      by rewrite IH.
Qed.

Lemma filter_sublist {A} (f : A -> bool) (l : list A) :
  sublist (List.filter f l) l.
Proof.
  induction l as [|x l IH]; simpl; [constructor|].
  destruct (f x); by constructor.
Qed.

Lemma filter_twice {A} (f g : A -> bool) (l : list A) :
  List.filter f (List.filter g l) = List.filter g (List.filter f l).
Proof.
  induction l as [|x l IH]; simpl; [done|].
  destruct (f x) eqn:Hf, (g x) eqn:Hg; simpl; rewrite ?Hf, ?Hg, ?IH; done.
Qed.

Lemma filter_again {A} (f : A -> bool) (l : list A) :
  List.filter f (List.filter f l) = List.filter f l.
Proof.
  induction l as [|x l IH]; simpl; [done|].
  destruct (f x) eqn:Hf; simpl; rewrite ?Hf, ?IH; done.
Qed.

(** X13. Removing an item by its identifier: exactly the items with
    another identifier stay, in their order; with unique identifiers
    the list gets shorter by one, and an identifier that is not listed
    changes nothing in it.  The preview is cleared (identifier, result
    and error) when the removed item was the previewed one and is left
    alone otherwise; the logo and the report of the last batch run, which
    may name the removed item, are not touched.  Removing twice is
    removing once, and two removals can be done in either order. *)
Theorem remove_takes_out_the_item target app :
  let app' := removeImage target app in
  (forall item, item ∈ images app' <-> item ∈ images app /\ id item <> target)
  /\ sublist (images app') (images app)
  /\ (NoDup (Lifecycle.ids (images app)) -> target ∈ Lifecycle.ids (images app) ->
      S (length (images app')) = length (images app))
  /\ (target ∉ Lifecycle.ids (images app) -> images app' = images app)
  /\ (activePreviewId app = Some target ->
      activePreviewId app' = None /\ previewResult app' = None
      /\ previewError app' = None)
  /\ (activePreviewId app <> Some target ->
      activePreviewId app' = activePreviewId app
      /\ previewResult app' = previewResult app
      /\ previewError app' = previewError app)
  /\ (logo app', batchErrorResults app', settings app', isProcessing app')
     = (logo app, batchErrorResults app, settings app, isProcessing app)
  /\ removeImage target app' = app'
  /\ forall other,
       removeImage other app' = removeImage target (removeImage other app).
Proof.
  intros app'. subst app'. simpl.
  split; [|split; [apply filter_sublist|]].
  { intros item. rewrite list_elem_of_In, List.filter_In, <- list_elem_of_In.
    rewrite negb_true_iff, bool_decide_eq_false. done. }
  split; [apply filter_one_id|]. split; [apply filter_other_ids|].
  split; [intros Hact; by rewrite bool_decide_eq_true_2|].
  split; [intros Hact; by rewrite bool_decide_eq_false_2|].
  split; [done|]. split.
  - unfold removeImage. simpl. rewrite filter_again.
    destruct (bool_decide (activePreviewId app = Some target)) eqn:Hact; simpl.
    + done.
    + by rewrite Hact.
  - intros other. unfold removeImage. simpl.
    rewrite (filter_twice (fun img => negb (bool_decide (id img = other)))).
    repeat (case_bool_decide; simpl); congruence.
Qed.

(** X14. In every state the application can reach, the remove button
    of a listed item takes out that item and no other: the list is
    shorter by one and every other listed item is still there. *)
Theorem remove_button_removes_one host w item :
  Lifecycle.Reachable host w ->
  item ∈ images (Lifecycle.app w) ->
  let app' := removeImage (id item) (Lifecycle.app w) in
  S (length (images app')) = length (images (Lifecycle.app w))
  /\ (item ∉ images app')
  /\ forall other, other ∈ images (Lifecycle.app w) -> other <> item ->
       other ∈ images app'.
Proof.
  intros Hreach Hitem app'. subst app'.
  destruct (LifecycleFacts.reachable_invariant _ _ Hreach) as (Hdup & _ & _).
  simpl. split; [|split].
  - apply filter_one_id; [done|]. apply list_elem_of_fmap. by exists item.
  - rewrite list_elem_of_In, List.filter_In, negb_true_iff, bool_decide_eq_false.
    tauto.
  - intros other Hother Hne.
    rewrite list_elem_of_In, List.filter_In, <- list_elem_of_In.
    rewrite negb_true_iff, bool_decide_eq_false. split; [done|].
    intros Hid. by apply Hne, (LifecycleFacts.same_id_same_item _ item other Hdup).
Qed.

(** The theorem at the corrupt item of the sample state. *)
Lemma remove_button_removes_one_witness :
  Lifecycle.Reachable Sample.host (Lifecycle.mkWorld SampleApp.app [])
  /\ SampleApp.broken_item ∈ images SampleApp.app
  /\ images (removeImage "item-2" SampleApp.app)
     = [SampleApp.first_item; SampleApp.last_item]
  /\ S (length (images (removeImage "item-2" SampleApp.app))) = 3%nat.
Proof.
  assert (SampleApp.broken_item ∈ images SampleApp.app) as Hin
    by (apply list_elem_of_further, list_elem_of_here).
  split; [exact sample_reachable|]. split; [exact Hin|]. split; [reflexivity|].
  exact (proj1 (remove_button_removes_one Sample.host
                  (Lifecycle.mkWorld SampleApp.app []) SampleApp.broken_item
                  sample_reachable Hin)).
Defined.

(** X15. Clear All empties the list and drops the logo, its preview,
    the previewed item with its result and error, and the batch report;
    the settings stay, and so does the busy flag of a run that has not
    finished.  Afterwards the process button and the batch run do
    nothing, the preview effect has nothing to render, and clearing
    again or removing any item changes nothing. *)
Theorem clear_all_ends_the_session host fuel app :
  let app' := resetAll app in
  app' = mkApp [] None None (isProcessing app) (showConfirmModal app) None
           (settings app) None None None
  /\ handleProcessClick host fuel app' = Resolved app'
  /\ executeBatchProcessing host fuel app' = Resolved app'
  /\ Preview.request_of (preview_deps app') = None
  /\ (forall st,
        let st' := Preview.change (preview_deps app') st in
        Preview.timer st' = None /\ Preview.previewResult st' = None
        /\ Preview.previewError st' = None
        /\ forall dt, Preview.invocations (Preview.elapse dt st')
                      = Preview.invocations st)
  /\ resetAll app' = app'
  /\ forall target, removeImage target app' = app'.
Proof.
  intros app'. subst app'. repeat split.
Qed.

(* ================================================================== *)
(** ** A batch run and what happens meanwhile *)

Lemma processed_files host fuel run processed :
  batch_processed host fuel run = Resolved processed ->
  map originalFile processed = map originalFile (run_images run).
Proof.
  unfold batch_processed. intros Hall%promise_all_inv.
  apply Forall2_fmap_l in Hall.
  induction Hall as [|img item l l' Hitem%processItem_inv _ IH]; simpl; [done|].
  destruct Hitem as (_ & -> & _). by rewrite IH.
Qed.

(** X16. The results of a batch run replace the image list, whatever
    has happened to the list since the run started: the list is again
    the one the run started with (same identifiers, same files, every
    item ['done'] or ['error']).  So a photo selected while the run was
    awaiting its results is gone from the list, a photo removed
    meanwhile is back, and after Clear All the list is filled again
    while there is no logo. *)
Theorem finishing_run_overwrites_the_list host fuel app started run processed :
  batch_start app = Some (started, run) ->
  batch_processed host fuel run = Resolved processed ->
  (forall current,
     let app' := batch_finish processed current in
     Lifecycle.ids (images app') = Lifecycle.ids (images app)
     /\ map originalFile (images app') = map originalFile (images app)
     /\ Forall (fun item => status item = done \/ status item = error) (images app')
     /\ isProcessing app' = false
     /\ (logo app', settings app', activePreviewId app')
        = (logo current, settings current, activePreviewId current))
  /\ (forall fresh files u,
        u ∈ fresh -> u ∉ Lifecycle.ids (images app) ->
        u ∉ Lifecycle.ids
              (images (batch_finish processed
                         (handleImagesSelected fresh files started))))
  /\ (forall target,
        target ∈ Lifecycle.ids (images app) ->
        target ∈ Lifecycle.ids
                   (images (batch_finish processed (removeImage target started))))
  /\ images (batch_finish processed (resetAll started)) <> []
  /\ logo (batch_finish processed (resetAll started)) = None.
Proof.
  intros Hstart Hdone.
  pose proof (LifecycleFacts.processed_ids _ _ _ _ Hdone) as Hids.
  pose proof (processed_files _ _ _ _ Hdone) as Hfiles.
  pose proof (LifecycleFacts.processed_statuses _ _ _ _ Hdone) as Hst.
  destruct (LifecycleFacts.batch_start_inv _ _ _ Hstart) as [_ Hrun].
  rewrite Hrun in Hids, Hfiles.
  assert (images app <> []) as Hne.
  { unfold batch_start in Hstart. destruct (logo app); [|done].
    destruct (images app); [done|done]. }
  split; [by intros current|]. simpl. rewrite Hids.
  split; [by intros fresh files u _ Hu|]. split; [done|]. split; [|done].
  intros ->. by destruct (images app).
Qed.

(** The theorem at the sample state. *)
Lemma finishing_run_overwrites_the_list_witness :
  batch_start SampleApp.app
  = Some (mkApp (images SampleApp.app) (logo SampleApp.app)
            (logoPreview SampleApp.app) true false None (settings SampleApp.app)
            (activePreviewId SampleApp.app) (previewResult SampleApp.app)
            (previewError SampleApp.app),
          mkRun (images SampleApp.app) Sample.logo (settings SampleApp.app))
  /\ batch_processed Sample.host 0
       (mkRun (images SampleApp.app) Sample.logo (settings SampleApp.app))
     = Resolved (images SampleMore.after_run)
  /\ "item-2" ∈ Lifecycle.ids
       (images (batch_finish (images SampleMore.after_run)
                  (removeImage "item-2"
                     (mkApp (images SampleApp.app) (logo SampleApp.app)
                        (logoPreview SampleApp.app) true false None
                        (settings SampleApp.app) (activePreviewId SampleApp.app)
                        (previewResult SampleApp.app)
                        (previewError SampleApp.app))))).
Proof.
  assert (batch_processed Sample.host 0
            (mkRun (images SampleApp.app) Sample.logo (settings SampleApp.app))
          = Resolved (images SampleMore.after_run)) as Hdone
    by (vm_compute; reflexivity).
  split; [reflexivity|]. split; [exact Hdone|].
  apply (proj1 (proj2 (proj2 (finishing_run_overwrites_the_list Sample.host 0
                                SampleApp.app _ _ _ eq_refl Hdone)))).
  apply list_elem_of_further, list_elem_of_here.
Defined.

Lemma find_by_id (target : option string) (l l' : list ProcessedImage) :
  map id l' = map id l ->
  map originalFile l' = map originalFile l ->
  option_map originalFile
    (List.find (fun img => bool_decide (Some (id img) = target)) l')
  = option_map originalFile
      (List.find (fun img => bool_decide (Some (id img) = target)) l).
Proof.
  revert l'. induction l as [|x l IH]; intros [|x' l']; simpl; try done.
  intros [= Hid Hids] [= Hfile Hfiles]. rewrite Hid.
  destruct (bool_decide (Some (id x) = target)); simpl; [by rewrite Hfile|].
  by apply IH.
Qed.

Lemma request_of_same_files d l' :
  map id l' = map id (Preview.dep_images d) ->
  map originalFile l' = map originalFile (Preview.dep_images d) ->
  Preview.request_of
    (Preview.mkDeps (Preview.dep_settings d) (Preview.dep_activePreviewId d)
       (Preview.dep_logo d) l')
  = Preview.request_of d.
Proof.
  intros Hids Hfiles. unfold Preview.request_of. simpl.
  destruct (no_id _); [done|]. destruct (Preview.dep_logo d); [|done].
  pose proof (find_by_id (Preview.dep_activePreviewId d) _ _ Hids Hfiles) as Hfind.
  destruct (List.find _ l'), (List.find _ (Preview.dep_images d));
    simpl in Hfind; try done.
  by injection Hfind as ->.
Qed.

(** X17. The preview renders the file of the listed item that has the
    previewed identifier, with the current logo and settings, and
    nothing else of the item counts: not its status, not its result,
    not its error.  A batch run therefore leaves the preview request as
    it was, also for an item the run ended in ['error'], and since the
    run replaces the image list the effect runs again and calls the
    compositor once more, 200 ms after the run. *)
Theorem batch_run_restarts_the_preview host fuel app app' r :
  executeBatchProcessing host fuel app = Resolved app' ->
  Preview.request_of (preview_deps app) = Some r ->
  Preview.request_of (preview_deps app') = Some r
  /\ (exists item,
        item ∈ images app' /\ Some (id item) = activePreviewId app
        /\ r = Preview.mkRequest (originalFile item) (Preview.req_logo r) (settings app)
        /\ logo app = Some (Preview.req_logo r))
  /\ forall st quiet,
       (200 <= quiet)%nat ->
       let st' := Preview.elapse quiet (Preview.change (preview_deps app') st) in
       Preview.invocations st' = Preview.invocations st ++ [r]
       /\ Preview.in_flight st' = Preview.in_flight st ++ [r].
Proof.
  intros Hrun Hr.
  assert (exists logoFile, logo app = Some logoFile) as [logoFile Hlogo].
  { unfold Preview.request_of, preview_deps in Hr. simpl in Hr.
    destruct (no_id _); [done|]. destruct (logo app); [by eexists|done]. }
  assert (images app <> []) as Hne.
  { intros Hnil. unfold Preview.request_of, preview_deps in Hr. simpl in Hr.
    rewrite Hnil, Hlogo in Hr. simpl in Hr. by destruct (no_id _). }
  destruct (run_inv _ _ _ _ Hrun) as (logoFile' & processed & Hl & Hall & ->);
    [by rewrite Hlogo|done|].
  pose proof (LifecycleFacts.processed_ids _ _ _ _ Hall) as Hids.
  pose proof (processed_files _ _ _ _ Hall) as Hfiles. simpl in Hids, Hfiles.
  assert (Preview.request_of
            (preview_deps
               (batch_finish processed
                  (mkApp (images app) (logo app) (logoPreview app) true false None
                     (settings app) (activePreviewId app) (previewResult app)
                     (previewError app)))) = Some r) as Hr'.
  { rewrite <- Hr. apply (request_of_same_files (preview_deps app) processed Hids Hfiles). }
  split; [exact Hr'|]. split.
  - unfold Preview.request_of, preview_deps in Hr'. simpl in Hr'.
    destruct (no_id _); [done|]. rewrite Hlogo in Hr'.
    destruct (List.find _ processed) as [item|] eqn:Hfind; [|done].
    apply List.find_some in Hfind as [Hin Hid%bool_decide_eq_true].
    exists item. injection Hr' as <-. simpl.
    split; [by apply list_elem_of_In|done].
  - intros st quiet Hquiet st'. subst st'.
    destruct (change_timer
                (preview_deps
                   (batch_finish processed
                      (mkApp (images app) (logo app) (logoPreview app) true false
                         None (settings app) (activePreviewId app)
                         (previewResult app) (previewError app)))) st)
      as (Ht & Hn & Hi & Hf).
    destruct (elapse_fires quiet _ st _ r Hquiet Ht Hn Hr') as (H1 & H2 & _).
    by rewrite H1, H2, Hi, Hf.
Qed.

(** The theorem at the sample state, where the first item is the
    previewed one. *)
Lemma batch_run_restarts_the_preview_witness :
  executeBatchProcessing Sample.host 0 SampleApp.app = Resolved SampleMore.after_run
  /\ Preview.request_of (preview_deps SampleApp.app)
     = Some (SampleApp.request Sample.defaults)
  /\ Preview.request_of (preview_deps SampleMore.after_run)
     = Some (SampleApp.request Sample.defaults).
Proof.
  assert (executeBatchProcessing Sample.host 0 SampleApp.app
          = Resolved SampleMore.after_run) as Hrun by (vm_compute; reflexivity).
  assert (Preview.request_of (preview_deps SampleApp.app)
          = Some (SampleApp.request Sample.defaults)) as Hr by reflexivity.
  split; [exact Hrun|]. split; [exact Hr|].
  exact (proj1 (batch_run_restarts_the_preview Sample.host 0 SampleApp.app
                  SampleMore.after_run (SampleApp.request Sample.defaults) Hrun Hr)).
Defined.

(** X18. The preview and the batch run show the same text for the same
    failure: when the compositor rejects, the preview error and the
    item's error message are both the message of the [Error] it rejected
    with, one of the messages of [rejection_messages]; neither fallback
    text is used.  The preview then shows no result, while the batch
    item keeps the result of an earlier run. *)
Theorem preview_and_batch_show_the_same_error host fuel st i r img e :
  Preview.in_flight st !! i = Some r ->
  Preview.req_file r = originalFile img ->
  applyWatermarkToImage host fuel (Preview.req_file r) (Preview.req_logo r)
    (Preview.req_settings r) = Rejected e ->
  exists m,
    e = JSError m
    /\ m ∈ rejection_messages (Preview.req_file r) (Preview.req_logo r)
             (decoded host (Preview.req_file r))
    /\ Preview.previewError (Preview.settle host fuel i st) = Some m
    /\ Preview.previewResult (Preview.settle host fuel i st) = None
    /\ processItem host fuel (Preview.req_logo r) (Preview.req_settings r) img
       = Resolved (mkItem (id img) (originalFile img) (previewUrl img) error (Some m)).
Proof.
  intros Hi Hfile Hrun.
  destruct (rejection_is_listed _ _ _ _ _ _ Hrun) as (m & -> & Hm).
  exists m. split; [done|]. split; [done|].
  unfold Preview.settle, processItem. rewrite Hi, <- Hfile, Hrun. done.
Qed.

(** The theorem at the corrupt sample file, previewed and processed. *)
Lemma preview_and_batch_show_the_same_error_witness :
  Preview.previewError
    (Preview.settle Sample.host 0 0
       (Preview.generatePreview
          (Preview.mkRequest Sample.corrupt Sample.logo Sample.defaults)
          Preview.initial))
  = Some (load_failed_message "broken.jpg")
  /\ exists m,
       JSError (load_failed_message "broken.jpg") = JSError m
       /\ m ∈ rejection_messages Sample.corrupt Sample.logo
                (decoded Sample.host Sample.corrupt)
       /\ Preview.previewError
            (Preview.settle Sample.host 0 0
               (Preview.generatePreview
                  (Preview.mkRequest Sample.corrupt Sample.logo Sample.defaults)
                  Preview.initial)) = Some m
       /\ Preview.previewResult
            (Preview.settle Sample.host 0 0
               (Preview.generatePreview
                  (Preview.mkRequest Sample.corrupt Sample.logo Sample.defaults)
                  Preview.initial)) = None
       /\ processItem Sample.host 0 Sample.logo Sample.defaults SampleApp.broken_item
          = Resolved (mkItem (id SampleApp.broken_item)
                        (originalFile SampleApp.broken_item)
                        (previewUrl SampleApp.broken_item) error (Some m)).
Proof.
  assert (applyWatermarkToImage Sample.host 0 Sample.corrupt Sample.logo
            Sample.defaults
          = Rejected (JSError (load_failed_message "broken.jpg"))) as Hrun
    by (vm_compute; reflexivity).
  split; [vm_compute; reflexivity|].
  exact (preview_and_batch_show_the_same_error Sample.host 0
           (Preview.generatePreview
              (Preview.mkRequest Sample.corrupt Sample.logo Sample.defaults)
              Preview.initial)
           0 (Preview.mkRequest Sample.corrupt Sample.logo Sample.defaults)
           SampleApp.broken_item _ eq_refl eq_refl Hrun).
Defined.

(* ================================================================== *)
(** ** Settings: saving and the controls *)

(** X19. Saving writes the one key ['maasai-watermark-settings'] and
    nothing else: the last save wins, every other item of the storage
    is left alone, and a storage that refuses the write is left as it
    was.  Loading does not check what it reads: any stored text that is
    not empty and parses is handed on as the settings, whatever it
    parsed to; an empty text, or a storage that cannot be read, gives
    the defaults. *)
Theorem saving_writes_one_key json s1 s2 storage :
  handleSaveSettings json s2 (handleSaveSettings json s1 storage)
  = handleSaveSettings json s2 storage
  /\ (forall key, key <> settings_key ->
        items (handleSaveSettings json s1 storage) !! key = items storage !! key)
  /\ (writable storage = true ->
      items (handleSaveSettings json s1 storage) !! settings_key
      = Some (stringify json s1))
  /\ (writable storage = false -> handleSaveSettings json s1 storage = storage)
  /\ (forall saved value,
        readable storage = true ->
        items storage !! settings_key = Some saved ->
        saved <> "" ->
        parse json saved = Some value ->
        loadSettings json storage = value)
  /\ (items storage !! settings_key = Some "" ->
      loadSettings json storage = SettingsValue defaultSettings)
  /\ (readable storage = false ->
      loadSettings json (handleSaveSettings json s1 storage)
      = SettingsValue defaultSettings).
Proof.
  unfold handleSaveSettings, loadSettings.
  split; [|split; [|split; [|split; [|split; [|split]]]]].
  - destruct (writable storage) eqn:Hw; simpl; rewrite ?Hw; [|done].
    by rewrite insert_insert_eq.
  - intros key Hkey. destruct (writable storage); simpl; [|done].
    by rewrite lookup_insert_ne.
  - intros ->. simpl. by rewrite lookup_insert_eq.
  - by intros ->.
  - intros saved value -> -> Hne ->. by destruct (decide (saved = "")).
  - intros ->. by destruct (readable storage).
  - intros Hr. destruct (writable storage); simpl; by rewrite Hr.
Qed.

Lemma split_at_last_dot s :
  no_dot s = true
  \/ exists pre suf, s = pre +:+ "." +:+ suf /\ no_dot suf = true.
Proof.
  induction s as [|a s [Hno|(pre & suf & -> & Hsuf)]]; [by left|..].
  - destruct (decide (a = "."%char)) as [->|Ha].
    + right. by exists "", s.
    + left. simpl. rewrite bool_decide_eq_false_2 by done. done.
  - right. by exists (String a pre), suf.
Qed.

Lemma append_empty s : s +:+ "" = s.
Proof.
  induction s as [|a s IH]; [done|].
  change (String a (s +:+ "") = String a s). by rewrite IH.
Qed.

(** X20. The base of a download name is always a piece from the start
    of the file name: the file name itself when it has no ['.'] or only
    a leading one, and otherwise what stands before its last ['.'] (a
    ['.'] further left stays in).  It is empty only for an empty file
    name.  The extension of the source plays no part, so two sources
    that differ only in what follows their last ['.'] are downloaded
    under one and the same name. *)
Theorem download_base_is_a_prefix format fileName :
  is_prefix (originalName fileName) fileName
  /\ (fileName <> "" -> originalName fileName <> "")
  /\ (originalName fileName = fileName
      \/ exists suf, no_dot suf = true
                     /\ fileName = originalName fileName +:+ "." +:+ suf)
  /\ (forall pre suf suf',
        pre <> "" -> no_dot suf = true -> no_dot suf' = true ->
        download_name format (pre +:+ "." +:+ suf)
        = download_name format (pre +:+ "." +:+ suf'))
  /\ (forall pre mid suf,
        no_dot suf = true ->
        originalName (pre +:+ "." +:+ mid +:+ "." +:+ suf) = pre +:+ "." +:+ mid).
Proof.
  assert (originalName fileName = fileName
          \/ exists suf, no_dot suf = true
                         /\ fileName = originalName fileName +:+ "." +:+ suf)
    as Hshape.
  { destruct (split_at_last_dot fileName) as [Hno|(pre & suf & -> & Hsuf)].
    - left. by apply originalName_no_dot.
    - destruct (decide (pre = "")) as [->|Hpre].
      + left. by apply originalName_leading_dot.
      + right. exists suf. by rewrite originalName_last_dot. }
  split; [|split; [|split; [done|split]]].
  - destruct Hshape as [->|(suf & _ & Heq)].
    + exists "". by rewrite append_empty.
    + by exists ("." +:+ suf).
  - intros Hne. clear Hshape.
    destruct (split_at_last_dot fileName) as [Hno|(pre & suf' & -> & Hsuf)].
    + by rewrite originalName_no_dot.
    + destruct (decide (pre = "")) as [->|Hpre].
      * change ("" +:+ "." +:+ suf') with ("." +:+ suf').
        by rewrite originalName_leading_dot.
      * by rewrite originalName_last_dot.
  - intros pre suf suf' Hpre Hsuf Hsuf'. unfold download_name.
    by rewrite !originalName_last_dot.
  - intros pre mid suf Hsuf.
    assert (pre +:+ "." +:+ mid +:+ "." +:+ suf
            = (pre +:+ "." +:+ mid) +:+ "." +:+ suf) as ->.
    { by rewrite <- !append_assoc. }
    apply originalName_last_dot; [done|]. by destruct pre.
Qed.

Lemma reset_switches_the_filter_off s :
  enhancements_set (resetEnhancements s) = false.
Proof. vm_compute. reflexivity. Qed.

(** X21. After Reset in the enhancement controls no colour filter is
    set: a run gives exactly what the run without any filter statement
    gives for the settings before the reset.  The six other settings
    keep their values, and resetting twice is resetting once. *)
Theorem reset_enhancements_removes_the_filter host fuel imageFile logoFile s :
  enhancements_set (resetEnhancements s) = false
  /\ applyWatermarkToImage host fuel imageFile logoFile (resetEnhancements s)
     = applyWatermarkUnfiltered host fuel imageFile logoFile s
  /\ (forall url,
        applyWatermarkToImage host fuel imageFile logoFile (resetEnhancements s)
        = Resolved url ->
        Forall (fun op => ctx_filter (op_state op) = filter_none) (blob_drawn url))
  /\ (opacity (resetEnhancements s), scale (resetEnhancements s),
      position (resetEnhancements s), margin (resetEnhancements s),
      outputFormat (resetEnhancements s), shadow (resetEnhancements s))
     = (opacity s, scale s, position s, margin s, outputFormat s, shadow s)
  /\ resetEnhancements (resetEnhancements s) = resetEnhancements s.
Proof.
  split; [apply reset_switches_the_filter_off|].
  split; [|split; [|done]].
  - unfold applyWatermarkToImage, applyWatermarkUnfiltered.
    apply composite_ext; [|done].
    intros img logo c.
    by rewrite paint_without_enhancements by apply reset_switches_the_filter_off.
  - intros url Hurl.
    apply composite_resolved in Hurl as (img & logo & c & _ & _ & Hpaint & ->).
    apply paint_draws in Hpaint as (watermark & Hdrawn & Hall). simpl.
    rewrite Hdrawn. constructor.
    + unfold photo_op, photo_state, photo_filter.
      by rewrite reset_switches_the_filter_off.
    + eapply Forall_impl; [exact Hall|]. by intros op [_ ->].
Qed.

Lemma paint_same_watermark fuel img logo s s' c c' :
  (1 <= width img <= MAX_DIMENSION)%N ->
  (opacity s', scale s', position s', margin s', shadow s')
  = (opacity s, scale s, position s, margin s, shadow s) ->
  paint fuel img logo s createCanvas = Some (tt, c) ->
  paint fuel img logo s' createCanvas = Some (tt, c') ->
  exists watermark,
    drawn c = photo_op img s :: watermark
    /\ drawn c' = photo_op img s' :: watermark.
Proof.
  intros Hw Hagree Hpaint Hpaint'.
  destruct s as [o sc p m f sh b ct sa], s' as [o' sc' p' m' f' sh' b' ct' sa'].
  simpl in Hagree. injection Hagree as -> -> -> -> ->.
  destruct (decide (p = tiled)) as [->|Hpos].
  - pose proof Hpaint as Hrun.
    unfold paint, mbind, Paint_bind in Hrun.
    rewrite paint_source_result in Hrun.
    rewrite paint_watermark_tiled_unfold in Hrun by done.
    match type of Hrun with
    | context [for_lt ?a ?b ?c ?d ?e ?f] =>
        destruct (for_lt a b c d e f) as [[[] c1]|] eqn:Hloop; [|done]
    end.
    apply for_lt_inv in Hloop as (nx & Hnx & Hx & Hfirst).
    destruct Hfirst as [c2 Hinner]; [by apply positive_dimension|].
    apply for_lt_inv in Hinner as (ny & Hny & Hy & _).
    rewrite (paint_tiled _ _ _ _ nx ny) in Hpaint by done.
    rewrite (paint_tiled _ _ _ _ nx ny) in Hpaint' by done.
    injection Hpaint as <-. injection Hpaint' as <-. simpl.
    by eexists.
  - rewrite paint_non_tiled in Hpaint by done.
    rewrite paint_non_tiled in Hpaint' by done.
    injection Hpaint as <-. injection Hpaint' as <-. simpl.
    by eexists.
Qed.

(** X22. The brightness, contrast and saturation sliders move nothing:
    when the run before and the run after such a change both resolve,
    the two outputs have the same size and type and the same draws of
    the logo, at the same places and sizes, with the same opacity and
    shadow; they differ at most in the filter under which the photo is
    drawn. *)
Theorem enhancement_sliders_move_nothing host fuel imageFile logoFile s c url url' :
  (exists v, c = set_brightness v \/ c = set_contrast v \/ c = set_saturation v) ->
  applyWatermarkToImage host fuel imageFile logoFile s = Resolved url ->
  applyWatermarkToImage host fuel imageFile logoFile (update c s) = Resolved url' ->
  blob_width url' = blob_width url
  /\ blob_height url' = blob_height url
  /\ blob_type url' = blob_type url
  /\ exists img watermark,
       blob_drawn url = photo_op img s :: watermark
       /\ blob_drawn url' = photo_op img (update c s) :: watermark.
Proof.
  intros Hc Hrun Hrun'. unfold applyWatermarkToImage in Hrun, Hrun'.
  assert ((opacity (update c s), scale (update c s), position (update c s),
           margin (update c s), shadow (update c s))
          = (opacity s, scale s, position s, margin s, shadow s)
          /\ outputFormat (update c s) = outputFormat s) as [Hagree Hformat].
  { by destruct Hc as (v & [->| [->| ->]]). }
  apply composite_resolved_loaded in Hrun as (img & logo & Himg & Hlogo & Hrun).
  apply composite_resolved_loaded in Hrun' as (img' & logo' & Himg' & Hlogo' & Hrun').
  rewrite Himg in Himg'. injection Himg' as <-.
  rewrite Hlogo in Hlogo'. injection Hlogo' as <-.
  apply composite_loaded_resolved in Hrun as (Hw & _ & _ & c1 & Hpaint & _ & ->).
  apply composite_loaded_resolved in Hrun' as (_ & _ & _ & c2 & Hpaint' & _ & ->).
  destruct (paint_canvas_size _ _ _ _ _ Hpaint) as [Hcw Hch].
  destruct (paint_canvas_size _ _ _ _ _ Hpaint') as [Hcw' Hch'].
  destruct (paint_same_watermark _ _ _ _ _ _ _ Hw Hagree Hpaint Hpaint')
    as (watermark & Hd & Hd').
  simpl. rewrite Hcw, Hch, Hcw', Hch', Hformat.
  repeat split. by exists img, watermark.
Qed.

(** The theorem at the sample photo, with the brightness moved from 100
    to 120. *)
Lemma enhancement_sliders_move_nothing_witness :
  (exists v, set_brightness (Number.of_Z 120) = set_brightness v
             \/ set_brightness (Number.of_Z 120) = set_contrast v
             \/ set_brightness (Number.of_Z 120) = set_saturation v)
  /\ applyWatermarkToImage Sample.host 0 Sample.photo Sample.logo Sample.defaults
     = Resolved SampleControls.plain_url
  /\ applyWatermarkToImage Sample.host 0 Sample.photo Sample.logo
       (update (set_brightness (Number.of_Z 120)) Sample.defaults)
     = Resolved SampleControls.brightened_url
  /\ blob_width SampleControls.brightened_url = blob_width SampleControls.plain_url.
Proof.
  assert (exists v, set_brightness (Number.of_Z 120) = set_brightness v
                    \/ set_brightness (Number.of_Z 120) = set_contrast v
                    \/ set_brightness (Number.of_Z 120) = set_saturation v) as Hc
    by (exists (Number.of_Z 120); by left).
  assert (applyWatermarkToImage Sample.host 0 Sample.photo Sample.logo Sample.defaults
          = Resolved SampleControls.plain_url) as Hrun by (vm_compute; reflexivity).
  assert (applyWatermarkToImage Sample.host 0 Sample.photo Sample.logo
            (update (set_brightness (Number.of_Z 120)) Sample.defaults)
          = Resolved SampleControls.brightened_url) as Hrun'
    by (vm_compute; reflexivity).
  split; [exact Hc|]. split; [exact Hrun|]. split; [exact Hrun'|].
  exact (proj1 (enhancement_sliders_move_nothing Sample.host 0 Sample.photo
                  Sample.logo Sample.defaults (set_brightness (Number.of_Z 120))
                  SampleControls.plain_url SampleControls.brightened_url
                  Hc Hrun Hrun')).
Defined.

(* ================================================================== *)
(** ** What the preview pane shows *)



(** X24. A preview error stays on screen over a later result.  When
    two compositor calls of the preview are in flight and one rejects,
    the other resolving afterwards, the state holds the error of the
    one and the result of the other, and the pane shows the error: a
    result that arrives does not clear the error. *)
Theorem preview_error_outlives_a_later_result host fuel st i j r1 r2 e url
    images active :
  Preview.in_flight st !! i = Some r1 ->
  applyWatermarkToImage host fuel (Preview.req_file r1) (Preview.req_logo r1)
    (Preview.req_settings r1) = Rejected e ->
  Preview.in_flight (Preview.settle host fuel i st) !! j = Some r2 ->
  applyWatermarkToImage host fuel (Preview.req_file r2) (Preview.req_logo r2)
    (Preview.req_settings r2) = Resolved url ->
  images <> [] ->
  no_id active = false ->
  let st' := Preview.settle host fuel j (Preview.settle host fuel i st) in
  Preview.previewResult st' = Some url
  /\ exists m,
       e = JSError m
       /\ Preview.previewError st' = Some m
       /\ preview_pane images active (Preview.previewResult st')
            (Preview.previewError st') = pane_failed m.
Proof.
  intros Hi Hbad Hj Hgood Hne Hactive st'. subst st'.
  destruct (rejection_has_message _ _ _ _ _ _ Hbad) as (m & -> & Hm).
  assert (Preview.previewError (Preview.settle host fuel i st) = Some m) as Herr.
  { unfold Preview.settle. by rewrite Hi, Hbad. }
  remember (Preview.settle host fuel i st) as st1 eqn:Hst1. clear Hst1.
  unfold Preview.settle. rewrite Hj, Hgood. simpl. rewrite Herr.
  split; [done|]. exists m. split; [done|]. split; [done|].
  unfold preview_pane. rewrite Hactive.
  rewrite bool_decide_eq_false_2 by (by destruct images).
  by rewrite bool_decide_eq_false_2.
Qed.

(** The theorem at a preview of the corrupt sample file that rejects
    before a preview of the sample photo resolves. *)
Lemma preview_error_outlives_a_later_result_witness :
  Preview.previewResult
    (Preview.settle Sample.host 0 0
       (Preview.settle Sample.host 0 0
          (Preview.generatePreview (SampleApp.request Sample.defaults)
             (Preview.generatePreview
                (Preview.mkRequest Sample.corrupt Sample.logo Sample.defaults)
                Preview.initial))))
  = Some (SampleApp.preview_url Sample.defaults)
  /\ Preview.previewError
       (Preview.settle Sample.host 0 0
          (Preview.settle Sample.host 0 0
             (Preview.generatePreview (SampleApp.request Sample.defaults)
                (Preview.generatePreview
                   (Preview.mkRequest Sample.corrupt Sample.logo Sample.defaults)
                   Preview.initial))))
     = Some (load_failed_message "broken.jpg").
Proof.
  assert (applyWatermarkToImage Sample.host 0 Sample.corrupt Sample.logo
            Sample.defaults
          = Rejected (JSError (load_failed_message "broken.jpg"))) as Hbad
    by (vm_compute; reflexivity).
  assert (applyWatermarkToImage Sample.host 0 Sample.photo Sample.logo Sample.defaults
          = Resolved (SampleApp.preview_url Sample.defaults)) as Hgood
    by (vm_compute; reflexivity).
  assert (Preview.in_flight
            (Preview.settle Sample.host 0 0
               (Preview.generatePreview (SampleApp.request Sample.defaults)
                  (Preview.generatePreview
                     (Preview.mkRequest Sample.corrupt Sample.logo Sample.defaults)
                     Preview.initial))) !! 0%nat
          = Some (SampleApp.request Sample.defaults)) as Hj
    by (vm_compute; reflexivity).
  split.
  - exact (proj1 (preview_error_outlives_a_later_result Sample.host 0
                    (Preview.generatePreview (SampleApp.request Sample.defaults)
                       (Preview.generatePreview
                          (Preview.mkRequest Sample.corrupt Sample.logo
                             Sample.defaults)
                          Preview.initial))
                    0 0 (Preview.mkRequest Sample.corrupt Sample.logo Sample.defaults)
                    (SampleApp.request Sample.defaults)
                    (JSError (load_failed_message "broken.jpg"))
                    (SampleApp.preview_url Sample.defaults)
                    (images SampleApp.app) (Some "item-1")
                    eq_refl Hbad Hj Hgood ltac:(discriminate) eq_refl)).
  - vm_compute. reflexivity.
Defined.

(* ================================================================== *)
(** ** Which failure the compositor reports *)

(** X25. The compositor reports the first failure on its way and goes
    no further.  A file that cannot be read is reported whatever else
    is wrong (for two unreadable files, the one whose reader fails
    first); with both files read, a file that cannot be decoded is
    reported (again the earlier of two), before the size of the source
    is looked at; with a source of valid size, a missing drawing context
    is reported before anything is painted, for every fuel. *)
Theorem first_failure_wins host fuel imageFile logoFile s :
  let run := applyWatermarkToImage host fuel imageFile logoFile s in
  let source_unread :=
    JSError ("Unable to read source image: " +:+ read_failed_message imageFile) in
  let logo_unread :=
    JSError ("Unable to read logo file: " +:+ read_failed_message logoFile) in
  (fileReader host imageFile = None -> fileReader host logoFile <> None ->
   run = Rejected source_unread)
  /\ (fileReader host imageFile <> None -> fileReader host logoFile = None ->
      run = Rejected logo_unread)
  /\ (fileReader host imageFile = None -> fileReader host logoFile = None ->
      run = Rejected (if readRace host imageFile logoFile
                      then source_unread else logo_unread))
  /\ (forall imageSrc logoSrc,
        fileReader host imageFile = Some imageSrc ->
        fileReader host logoFile = Some logoSrc ->
        (imageDecoder host imageSrc = None -> imageDecoder host logoSrc <> None ->
         run = Rejected (JSError (load_failed_message (name imageFile))))
        /\ (imageDecoder host imageSrc <> None -> imageDecoder host logoSrc = None ->
            run = Rejected (JSError (load_failed_message (name logoFile))))
        /\ (imageDecoder host imageSrc = None -> imageDecoder host logoSrc = None ->
            run = Rejected (JSError (load_failed_message
                                       (if decodeRace host imageFile logoFile
                                        then name imageFile else name logoFile)))))
  /\ (forall img logo,
        decoded host imageFile = Some img ->
        decoded host logoFile = Some logo ->
        (1 <= width img <= MAX_DIMENSION)%N ->
        (1 <= height img <= MAX_DIMENSION)%N ->
        getContext2d host imageFile = false ->
        run = Rejected (JSError no_context_message)).
Proof.
  intros run source_unread logo_unread. subst run source_unread logo_unread.
  unfold applyWatermarkToImage.
  split; [|split; [|split; [|split]]].
  - intros Hi Hl. unfold composite, readFileAsDataURL, read_failed_message.
    rewrite Hi. by destruct (fileReader host logoFile).
  - intros Hi Hl. unfold composite, readFileAsDataURL, read_failed_message.
    rewrite Hl. by destruct (fileReader host imageFile).
  - intros Hi Hl. unfold composite, readFileAsDataURL, read_failed_message.
    rewrite Hi, Hl. simpl. by destruct (readRace host imageFile logoFile).
  - intros imageSrc logoSrc Hi Hl.
    unfold composite, readFileAsDataURL, loadImage, load_failed_message.
    rewrite Hi, Hl. simpl. split; [|split].
    + intros Hd Hd'. rewrite Hd. by destruct (imageDecoder host logoSrc) as [[]|].
    + intros Hd Hd'. rewrite Hd'. by destruct (imageDecoder host imageSrc) as [[]|].
    + intros Hd Hd'. rewrite Hd, Hd'. simpl.
      by destruct (decodeRace host imageFile logoFile).
  - intros img logo Himg Hlogo Hw Hh Hctx.
    rewrite (composite_decoded _ _ _ _ _ _ img logo) by done.
    unfold composite_loaded.
    replace (MAX_DIMENSION <? width img)%N with false
      by (symmetry; apply N.ltb_ge; lia).
    replace (MAX_DIMENSION <? height img)%N with false
      by (symmetry; apply N.ltb_ge; lia).
    replace (width img =? 0)%N with false by (symmetry; apply N.eqb_neq; lia).
    replace (height img =? 0)%N with false by (symmetry; apply N.eqb_neq; lia).
    by rewrite Hctx.
Qed.
